(** * Ai_interviewer: session execution-and-analysis engine

    A shallow embedding of the parts of the repository that the
    specification's testable properties talk about:

    - [CodeExecutionService] (server/services/codeExecutionService.js):
      [executeTests], [executeSingleTest], [executeJavaScript],
      [executePython], [executeCpp], [compareOutputs];
    - the hint and cooldown logic of [CandidateCoding.tsx]:
      [canSendAIResponse], [updateAIResponseTime], [generateHint],
      [checkForHint], [triggerHint], [moveToNextProblem];
    - the [code_change], [run_tests] and [complete_interview_session]
      handlers of server/socket/socketHandlers.js together with
      [calculateOverallScore] and [analyzeCodeInRealTime];
    - the regular expressions by which the runners pick the function to
      call ([JsRegExp], [FunctionName]);
    - the checks and metrics of [CodeAnalysisService]
      (server/routes/chatMessages.js): [validateSyntax],
      [calculateComplexity], [calculateCyclomaticComplexity],
      [calculateReadability], [estimateBigO], [estimateExecutionTime], and
      its session map ([getSessionAnalysis], [generateHint],
      [clearSession]);
    - [calculateFinalScore] of the socket handlers, the hints breakdown of
      [generatePerformanceSummary] and [toggleSection] of the test results
      panel.

    JavaScript strings are modelled as [string]; the model is exact on
    ASCII text (code units below 128).  JavaScript numbers that stay
    integers are modelled as [Z]; where the code divides, a number is the
    rational its binary64 value denotes and the rounding of each operation
    is written out ([Double]). *)

From Stdlib Require Import ZArith QArith Qround Lqa Ascii String List Bool Lia.
From Stdlib Require Import SpecFloat.
From stdpp Require Import base decidable list gmap sets strings pretty.

Open Scope string_scope.
Open Scope Z_scope.

(* [set_solver] clears hypotheses it has already used up. *)
#[local] Set Warnings "-clear-no-such-hyp".

(** ** JavaScript string primitives *)

Module JsString.

(** The ASCII members of the regular-expression class [\s], which are also
    the ASCII characters that [String.prototype.trim] strips:
    TAB, LF, VT, FF, CR and SPACE. *)
Definition is_space (c : ascii) : bool :=
  let n := nat_of_ascii c in
  ((9 <=? n)%nat && (n <=? 13)%nat) || (n =? 32)%nat.

(** Line terminators in ASCII (the characters [.] does not match). *)
Definition is_line_terminator (c : ascii) : bool :=
  let n := nat_of_ascii c in
  (n =? 10)%nat || (n =? 13)%nat.

Definition lower_char (c : ascii) : ascii :=
  let n := nat_of_ascii c in
  if ((65 <=? n)%nat && (n <=? 90)%nat) then ascii_of_nat (n + 32) else c.

(** [String.prototype.toLowerCase]. *)
Fixpoint toLowerCase (s : string) : string :=
  match s with
  | EmptyString => EmptyString
  | String c r => String (lower_char c) (toLowerCase r)
  end.

Fixpoint trimStart (s : string) : string :=
  match s with
  | EmptyString => EmptyString
  | String c r => if is_space c then trimStart r else s
  end.

Fixpoint trimEnd (s : string) : string :=
  match s with
  | EmptyString => EmptyString
  | String c r =>
      match trimEnd r with
      | EmptyString => if is_space c then EmptyString else String c EmptyString
      | r' => String c r'
      end
  end.

(** [String.prototype.trim]. *)
Definition trim (s : string) : string := trimEnd (trimStart s).

(** [s.replace(/\s+/g, ' ')]: every maximal run of white space becomes one
    SPACE.  [in_run] records that the previous character belonged to the
    run that is being replaced. *)
Fixpoint replace_ws_from (in_run : bool) (s : string) : string :=
  match s with
  | EmptyString => EmptyString
  | String c r =>
      if is_space c
      then if in_run then replace_ws_from true r
           else String " " (replace_ws_from true r)
      else String c (replace_ws_from false r)
  end.

Definition replace_ws (s : string) : string := replace_ws_from false s.

(** [s.startsWith(p)]. *)
Fixpoint startsWith (p s : string) : bool :=
  match p, s with
  | EmptyString, _ => true
  | String _ _, EmptyString => false
  | String a p', String b s' => Ascii.eqb a b && startsWith p' s'
  end.

(** [s.includes(p)]: [p] occurs in [s] at some position. *)
Fixpoint includes (s p : string) : bool :=
  startsWith p s ||
  match s with
  | EmptyString => false
  | String _ r => includes r p
  end.

(** [Array.prototype.join] on strings. *)
Fixpoint join (sep : string) (l : list string) : string :=
  match l with
  | [] => ""
  | [x] => x
  | x :: rest => x ++ sep ++ join sep rest
  end.

Definition is_empty (s : string) : bool :=
  match s with EmptyString => true | _ => false end.

(** Do all characters satisfy [p]? *)
Fixpoint all_chars (p : ascii -> bool) (s : string) : bool :=
  match s with
  | EmptyString => true
  | String c r => p c && all_chars p r
  end.

(** The characters of a printed integer: decimal digits and the sign. *)
Definition is_digit_or_minus (c : ascii) : bool :=
  let n := nat_of_ascii c in
  ((48 <=? n)%nat && (n <=? 57)%nat) || (n =? 45)%nat.

End JsString.

Import JsString.

(** ** JavaScript values *)

(** The values that flow through the executor: what [JSON.parse] returns,
    what a test-case field may hold, and [undefined]. *)
#[local] Unset Elimination Schemes.
Inductive JsValue : Type :=
| JUndefined
| JNull
| JBool (b : bool)
| JNum (n : Z)
| JStr (s : string)
| JArr (elems : list JsValue)
| JObj (fields : list (string * JsValue)).
#[local] Set Elimination Schemes.

(** The abstract operation [ToString] behind [String(v)].  An array is its
    elements joined by a comma, where [null] and [undefined] elements give
    the empty string; a plain object is ["[object Object]"]. *)
Fixpoint ToString (v : JsValue) : string :=
  match v with
  | JUndefined => "undefined"
  | JNull => "null"
  | JBool true => "true"
  | JBool false => "false"
  | JNum n => pretty n
  | JStr s => s
  | JArr elems =>
      join ","
        (map (fun e => match e with
                       | JUndefined | JNull => ""
                       | _ => ToString e
                       end) elems)
  | JObj _ => "[object Object]"
  end.

(** ** What the specification says [compareOutputs] decides

    "Case-insensitive, whitespace-collapsed string equality": two texts are
    the same when they consist of the same words, letter case aside, where a
    word is a maximal stretch without white space.  This definition follows
    the specification's words; it is compared with [compareOutputs] below. *)

Module OutputEquality.

Definition cons_token (w : string) (ws : list string) : list string :=
  if is_empty w then ws else w :: ws.

(** The word that starts at the first character (empty when the text
    starts with white space or is empty) and the words after it. *)
Fixpoint split_ws (s : string) : string * list string :=
  match s with
  | EmptyString => (EmptyString, [])
  | String c r =>
      let '(w, ws) := split_ws r in
      if is_space c then (EmptyString, cons_token w ws) else (String c w, ws)
  end.

Definition ws_tokens (s : string) : list string :=
  let '(w, ws) := split_ws s in cons_token w ws.

(** Does the text start with white space? *)
Definition leading_space (s : string) : bool :=
  match s with
  | String c _ => is_space c
  | EmptyString => false
  end.

Definition is_nil {A : Type} (l : list A) : bool :=
  match l with
  | [] => true
  | _ => false
  end.

Definition same_words_ignoring_case (a b : string) : Prop :=
  map toLowerCase (ws_tokens a) = map toLowerCase (ws_tokens b).

End OutputEquality.

(** ** CodeExecutionService: running a submission against test cases *)

Module CodeExecutionService.

(** [normalize], the local function of [compareOutputs]:
    [String(str).trim().toLowerCase().replace(/\s+/g, ' ')]. *)
Definition normalize (v : JsValue) : string :=
  replace_ws (toLowerCase (trim (ToString v))).

Definition compareOutputs (actual expected : JsValue) : bool :=
  String.eqb (normalize actual) (normalize expected).

(** A test case as [run_tests] hands it to [executeTests]: [input] is the
    parsed JSON value when the client's string parsed, the string itself
    otherwise; [expectedOutput] is passed through untouched. *)
Record TestCase := {
  input : JsValue;
  expectedOutput : JsValue;
  explanation : string
}.

(** The object literal returned by [executeSingleTest] and by the
    [catch] of [executeTests].  [error] is [None] for [undefined]. *)
Record ExecutionResult := {
  testCase : string;
  res_input : JsValue;
  res_expectedOutput : JsValue;
  actualOutput : JsValue;
  passed : bool;
  executionTime : Z;
  memoryUsage : Z;
  error : option string
}.

(** How an awaited call ends for its caller: with a value, with a
    rejection that a [catch] can handle, or not at all: the promise is
    never settled, because a listener threw before it reached [resolve] or
    [reject].  Nothing catches that exception (Node raises it as an
    uncaught exception) and the caller never resumes. *)
Inductive Outcome (A : Type) : Type :=
| Fulfilled (a : A)
| Rejected (message : string)
| NeverSettles (exception : string).
Arguments Fulfilled {A} a.
Arguments Rejected {A} message.
Arguments NeverSettles {A} exception.

(** What a spawned child process does.  A child that runs ends with the
    ['close'] event, which carries the exit code ([None] for [null]: the
    child was killed by a signal, which is how the [timeout] option ends
    it); stdout and stderr have been collected by then.  A child that
    cannot be spawned fails with a system error, given by name and
    number. *)
Inductive ChildOutcome : Type :=
| SpawnFailed (errno : string) (errnum : positive)
| Closed (code : option Z) (stdout stderr : string).

(** How Node's [spawn] reports a system error.  For [EACCES], [EAGAIN] and
    [ENOENT] it returns the child with its pipes; the child gets the
    ['error'] event on the next tick and afterwards, as every child, the
    ['close'] event, whose code is the negated error number.  For [EMFILE]
    and [ENFILE] it returns the child without pipes ([child.stdout] and
    [child.stderr] are [undefined]) and the ['error'] event follows on the
    next tick.  For every other error [spawn] itself throws. *)
Inductive SpawnReport : Type :=
| ErrorEvent
| ErrorEventWithoutPipes
| Thrown.

Definition spawn_report (errno : string) : SpawnReport :=
  if bool_decide (errno ∈ ["EMFILE"; "ENFILE"]) then ErrorEventWithoutPipes
  else if bool_decide (errno ∈ ["EACCES"; "EAGAIN"; "ENOENT"]) then ErrorEvent
  else Thrown.

(** The exception thrown between [spawn(...)] and the registration of the
    two listeners, if any: the one [spawn] throws, or the [TypeError] of
    [child.stdout.on] ([compileChild.stderr.on]) on a child without
    pipes. *)
Definition thrown_at_spawn (child : ChildOutcome) : option string :=
  match child with
  | Closed _ _ _ => None
  | SpawnFailed errno _ =>
      match spawn_report errno with
      | ErrorEvent => None
      | ErrorEventWithoutPipes => Some "Cannot read properties of undefined (reading 'on')"
      | Thrown => Some ("spawn " ++ errno)
      end
  end.

(** The environment of one [executeSingleTest] call: the readings of
    [Date.now()], whether [fs.writeFileSync] throws (and with which system
    error) and the behaviour of the processes it spawns. *)
Record Env := {
  now_start : Z;
  now_file : Z;
  now_exe : Z;
  now_end : Z;
  write_error : option string;
  compile : ChildOutcome;
  run : ChildOutcome
}.

(** The part of the machine the service changes: the files of the
    temporary directory, the commands spawned so far and the paths written
    so far (both oldest first). *)
Record World := {
  files : gset string;
  spawned : list string;
  written : list string
}.

(** [path.join(os.tmpdir(), 'ai-interviewer')] where [os.tmpdir()] is /tmp. *)
Definition tempDir : string := "/tmp/ai-interviewer".

Definition writeFileSync (p : string) (w : World) : World :=
  {| files := {[ p ]} ∪ files w; spawned := spawned w; written := written w ++ [p] |}.

(** [fs.unlinkSync] throws when the file does not exist. *)
Definition unlinkSync (p : string) (w : World) : option World :=
  if decide (p ∈ files w)
  then Some {| files := files w ∖ {[ p ]}; spawned := spawned w; written := written w |}
  else None.

Definition spawn (cmd : string) (w : World) : World :=
  {| files := files w; spawned := spawned w ++ [cmd]; written := written w |}.

(** A compiler that exits with code 0 has written the binary; one that
    fails or is killed leaves none. *)
Definition binary_written (p : string) (w : World) : World :=
  {| files := {[ p ]} ∪ files w; spawned := spawned w; written := written w ++ [p] |}.

Definition enoent (p : string) : string :=
  "ENOENT: no such file or directory, unlink '" ++ p ++ "'".

(** The message of the system error thrown by [fs.writeFileSync]. *)
Definition write_failure (errno p : string) : string :=
  errno ++ ", open '" ++ p ++ "'".

(** What [resolve] or [reject] was called with. *)
Inductive Settlement : Type :=
| Resolved (output : JsValue)
| RejectedWith (message : string).

(** What running one listener does: it returns after settling the promise
    (every listener of the service ends in [resolve] or [reject]), or it
    throws. *)
Inductive Listener : Type :=
| Settles (w : World) (s : Settlement)
| Throws (w : World) (exception : string).

(** How one call of [executeJavaScript], [executePython] or [executeCpp]
    ends: the first settlement of its promise with the world in which it
    happened (later calls of [resolve] and [reject] are ignored), the first
    exception that nothing caught, if any, and the world once all its
    listeners have run. *)
Record Execution := {
  settlement : option (World * Settlement);
  uncaught : option string;
  final : World
}.

(** A promise settled inside the executor function itself. *)
Definition settled_at (w : World) (s : Settlement) : Execution :=
  {| settlement := Some (w, s); uncaught := None; final := w |}.

(** Where a [spawn(...)] stands: in the executor function of the promise,
    where an exception rejects the promise, or in an event listener, where
    nothing catches it. *)
Inductive Site : Type :=
| InExecutor
| InListener.

(** An exception thrown at a spawn site before the listeners of the child
    are registered.  A child without pipes still gets its ['error'] event,
    for which there is no listener then: the emitter throws the error. *)
Definition thrown_before_listeners (site : Site) (cmd errno exception : string)
    (w : World) : Execution :=
  match site with
  | InExecutor =>
      {| settlement := Some (w, RejectedWith exception);
         uncaught := match spawn_report errno with
                     | ErrorEventWithoutPipes => Some ("spawn " ++ cmd ++ " " ++ errno)
                     | _ => None
                     end;
         final := w |}
  | InListener => {| settlement := None; uncaught := Some exception; final := w |}
  end.

(** One child from [spawn] on: an exception before the listeners are
    registered, or the events of the child delivered to its two
    listeners.  The ['close'] event of a child that could not be spawned
    comes on a later turn than its ['error'] event; here its listener runs
    right behind, which gives the same files as long as no later call
    writes the same path in between. *)
Definition deliver (site : Site) (cmd : string)
    (on_error : string -> World -> Listener)
    (on_close : option Z -> string -> string -> World -> Listener)
    (child : ChildOutcome) (w : World) : Execution :=
  match child with
  | Closed code output err =>
      match on_close code output err w with
      | Settles w' s => settled_at w' s
      | Throws w' exception =>
          {| settlement := None; uncaught := Some exception; final := w' |}
      end
  | SpawnFailed errno errnum =>
      match thrown_at_spawn child with
      | Some exception => thrown_before_listeners site cmd errno exception w
      | None =>
          match on_error ("spawn " ++ cmd ++ " " ++ errno) w with
          | Throws w' exception =>
              {| settlement := None; uncaught := Some exception; final := w' |}
          | Settles w' s =>
              match on_close (Some (Z.neg errnum)) "" "" w' with
              | Settles w'' _ =>
                  {| settlement := Some (w', s); uncaught := None; final := w'' |}
              | Throws w'' exception =>
                  {| settlement := Some (w', s); uncaught := Some exception; final := w'' |}
              end
          end
      end
  end.

(** What [await] makes of an execution: the caller resumes with the first
    settlement of the promise.  An exception that escapes a listener
    afterwards is raised by Node as an uncaught exception and does not
    reach the caller; when a listener throws before the promise is settled,
    the caller never resumes. *)
Definition awaited (x : Execution) : World * Outcome JsValue :=
  match settlement x with
  | Some (_, Resolved output) => (final x, Fulfilled output)
  | Some (_, RejectedWith message) => (final x, Rejected message)
  | None => (final x, NeverSettles (default "the promise never settles" (uncaught x)))
  end.

(** [code !== 0]. *)
Definition exit_nonzero (code : option Z) : bool :=
  match code with
  | Some 0 => false
  | _ => true
  end.

(** [error || 'Execution failed']. *)
Definition or_default (s d : string) : string :=
  if is_empty s then d else s.

Fixpoint take_while (p : ascii -> bool) (s : string) : string :=
  match s with
  | EmptyString => EmptyString
  | String c r => if p c then String c (take_while p r) else EmptyString
  end.

Fixpoint drop (n : nat) (s : string) : string :=
  match n, s with
  | O, _ => s
  | S _, EmptyString => EmptyString
  | S n', String _ r => drop n' r
  end.

(** [(.+)]: one or more characters other than line terminators, greedy. *)
Definition dot_plus (s : string) : option string :=
  match take_while (fun c => negb (is_line_terminator c)) s with
  | EmptyString => None
  | m => Some m
  end.

(** [\s*(.+)] with the backtracking of a greedy star: take one more
    white-space character when the rest still matches, stop here
    otherwise.  The result is the capture group. *)
Fixpoint ws_star_dot_plus (s : string) : option string :=
  match s with
  | EmptyString => None
  | String c r =>
      if is_space c
      then match ws_star_dot_plus r with
           | Some m => Some m
           | None => dot_plus s
           end
      else dot_plus s
  end.

Definition marker : string := "ACTUAL_OUTPUT:".

(** [output.match(/ACTUAL_OUTPUT:\s*(.+)/)]: the capture group of the
    leftmost match, [None] for [null]. *)
Fixpoint match_actual_output (s : string) : option string :=
  match (if startsWith marker s
         then ws_star_dot_plus (drop (String.length marker) s)
         else None) with
  | Some m => Some m
  | None =>
      match s with
      | EmptyString => None
      | String _ r => match_actual_output r
      end
  end.

(** The text the JavaScript ['close'] handler hands to [JSON.parse]: the
    trimmed capture group when the marker matched, the trimmed output
    otherwise. *)
Definition js_parsed_text (output : string) : string :=
  match match_actual_output output with
  | Some captured => trim captured
  | None => trim output
  end.

Section WithJSON.

(** [JSON.parse] is the runtime's; [None] stands for a [SyntaxError]. *)
Variable JSON_parse : string -> option JsValue.

(** The [try]/[catch] of the JavaScript ['close'] handler. *)
Definition parse_js_stdout (output : string) : JsValue :=
  match match_actual_output output with
  | Some captured =>
      match JSON_parse (trim captured) with
      | Some parsedOutput => parsedOutput
      | None => JStr (trim output)
      end
  | None =>
      match JSON_parse (trim output) with
      | Some parsedOutput => parsedOutput
      | None => JStr (trim output)
      end
  end.

(** The [try]/[catch] of the Python ['close'] handler. *)
Definition parse_py_stdout (output : string) : JsValue :=
  match JSON_parse (trim output) with
  | Some parsedOutput => parsedOutput
  | None => JStr (trim output)
  end.

(** [path.join(this.tempDir, `test_${Date.now()}.js`)] and its Python twin. *)
Definition script_tempFile (ext : string) (e : Env) : string :=
  tempDir ++ "/test_" ++ pretty (now_file e) ++ ext.

(** The ['close'] listener of [executeJavaScript] and [executePython]. *)
Definition script_on_close (tempFile : string) (parse : string -> JsValue)
    (code : option Z) (output err : string) (w : World) : Listener :=
  match unlinkSync tempFile w with
  | None => Throws w (enoent tempFile)
  | Some w' =>
      if exit_nonzero code
      then Settles w' (RejectedWith (or_default err "Execution failed"))
      else Settles w' (Resolved (parse output))
  end.

(** Their ['error'] listener. *)
Definition script_on_error (tempFile : string) (message : string) (w : World) : Listener :=
  match unlinkSync tempFile w with
  | None => Throws w (enoent tempFile)
  | Some w' => Settles w' (RejectedWith message)
  end.

(** The body shared by [executeJavaScript] and [executePython]. *)
Definition interpreted (cmd ext : string) (parse : string -> JsValue)
    (e : Env) (w : World) : Execution :=
  let tempFile := script_tempFile ext e in
  match write_error e with
  | Some errno => settled_at w (RejectedWith (write_failure errno tempFile))
  | None =>
      deliver InExecutor cmd (script_on_error tempFile) (script_on_close tempFile parse)
        (run e) (spawn cmd (writeFileSync tempFile w))
  end.

(** [executeJavaScript] and [executePython].  The wrapper text built from
    [code] and [testCase.input] is the content of the temporary file; it
    reaches the model only through what the child process does, which the
    environment gives. *)
Definition executeJavaScript (code : string) (tc : TestCase)
    (e : Env) (w : World) : Execution :=
  interpreted "node" ".js" parse_js_stdout e w.

Definition executePython (code : string) (tc : TestCase)
    (e : Env) (w : World) : Execution :=
  interpreted "python3" ".py" parse_py_stdout e w.

(** The first element of an array that is [null] or [undefined]. *)
Fixpoint first_nullish (elems : list JsValue) : option JsValue :=
  match elems with
  | [] => None
  | JNull :: _ => Some JNull
  | JUndefined :: _ => Some JUndefined
  | _ :: rest => first_nullish rest
  end.

(** [inputArray.map(num => num.toString()).join(',')]: a [TypeError]
    when the input has no [map] or an element has no [toString]. *)
Definition cpp_inputString (inp : JsValue) : string + string :=
  match inp with
  | JArr elems =>
      match first_nullish elems with
      | Some JNull => inr "Cannot read properties of null (reading 'toString')"
      | Some _ => inr "Cannot read properties of undefined (reading 'toString')"
      | None => inl (join "," (map ToString elems))
      end
  | JNull => inr "Cannot read properties of null (reading 'map')"
  | JUndefined => inr "Cannot read properties of undefined (reading 'map')"
  | _ => inr "inputArray.map is not a function"
  end.

Definition cpp_tempFile (e : Env) : string :=
  tempDir ++ "/test_" ++ pretty (now_file e) ++ ".cpp".

Definition cpp_executableFile (e : Env) : string :=
  tempDir ++ "/test_" ++ pretty (now_exe e).

(** The ['error'] listener of the compiler. *)
Definition cpp_compile_on_error (tempFile : string) (message : string)
    (w : World) : Listener :=
  match unlinkSync tempFile w with
  | None => Throws w (enoent tempFile)
  | Some w' => Settles w' (RejectedWith message)
  end.

(** The branch [compileCode !== 0] of the compiler's ['close'] listener. *)
Definition cpp_compile_failed (tempFile compileError : string) (w : World) : Listener :=
  match unlinkSync tempFile w with
  | None => Throws w (enoent tempFile)
  | Some w' => Settles w' (RejectedWith ("Compilation failed: " ++ compileError))
  end.

(** The ['close'] listener of the compiled program. *)
Definition cpp_run_on_close (tempFile executableFile : string)
    (code : option Z) (output err : string) (w : World) : Listener :=
  match unlinkSync tempFile w with
  | None => Throws w (enoent tempFile)
  | Some w1 =>
      match unlinkSync executableFile w1 with
      | None => Throws w1 (enoent executableFile)
      | Some w2 =>
          if exit_nonzero code
          then Settles w2 (RejectedWith (or_default err "Execution failed"))
          else Settles w2 (Resolved (JStr (trim output)))
      end
  end.

(** Its ['error'] listener. *)
Definition cpp_run_on_error (tempFile executableFile : string)
    (message : string) (w : World) : Listener :=
  match unlinkSync tempFile w with
  | None => Throws w (enoent tempFile)
  | Some w1 =>
      match unlinkSync executableFile w1 with
      | None => Throws w1 (enoent executableFile)
      | Some w2 => Settles w2 (RejectedWith message)
      end
  end.

(** [executeCpp].  The compiler is spawned in the executor function of
    the promise, the compiled program in the ['close'] listener of the
    compiler. *)
Definition executeCpp (code : string) (tc : TestCase)
    (e : Env) (w : World) : Execution :=
  let tempFile := cpp_tempFile e in
  let executableFile := cpp_executableFile e in
  match cpp_inputString (input tc), write_error e with
  | inr message, _ => settled_at w (RejectedWith message)
  | inl _, Some errno => settled_at w (RejectedWith (write_failure errno tempFile))
  | inl inputString, None =>
      let w2 := spawn "g++" (writeFileSync tempFile w) in
      match compile e with
      | Closed compileCode _ compileError =>
          if exit_nonzero compileCode
          then match cpp_compile_failed tempFile compileError w2 with
               | Settles w' s => settled_at w' s
               | Throws w' exception =>
                   {| settlement := None; uncaught := Some exception; final := w' |}
               end
          else
            deliver InListener executableFile
              (cpp_run_on_error tempFile executableFile)
              (cpp_run_on_close tempFile executableFile)
              (run e) (spawn executableFile (binary_written executableFile w2))
      | SpawnFailed _ _ =>
          deliver InExecutor "g++"
            (cpp_compile_on_error tempFile)
            (fun _ _ _ => cpp_compile_failed tempFile "")
            (compile e) w2
      end
  end.

(** The language runner chosen by the [switch] of [executeSingleTest] on
    [language.toLowerCase()]; [None] is the [default] branch. *)
Definition execution (code language : string) (tc : TestCase)
    (e : Env) (w : World) : option Execution :=
  let l := toLowerCase language in
  if String.eqb l "javascript" then Some (executeJavaScript code tc e w)
  else if String.eqb l "python" then Some (executePython code tc e w)
  else if String.eqb l "c++" then Some (executeCpp code tc e w)
  else None.

(** The [switch] with its [await]s: what the [try] block of
    [executeSingleTest] gets. *)
Definition dispatch (code language : string) (tc : TestCase)
    (e : Env) (w : World) : World * Outcome JsValue :=
  match execution code language tc e w with
  | Some x => awaited x
  | None => (w, Rejected ("Unsupported language: " ++ language))
  end.

(** The object returned at the end of the [try] block. *)
Definition completed_result (tc : TestCase) (testNumber : nat) (e : Env)
    (output : JsValue) : ExecutionResult :=
  {| testCase := "Test Case " ++ pretty testNumber;
     res_input := input tc;
     res_expectedOutput := expectedOutput tc;
     actualOutput := output;
     passed := compareOutputs output (expectedOutput tc);
     executionTime := now_end e - now_start e;
     memoryUsage := 0;
     error := None |}.

(** The object returned by the [catch] block. *)
Definition failed_result (tc : TestCase) (testNumber : nat) (e : Env)
    (message : string) : ExecutionResult :=
  {| testCase := "Test Case " ++ pretty testNumber;
     res_input := input tc;
     res_expectedOutput := expectedOutput tc;
     actualOutput := JStr "Execution Error";
     passed := false;
     executionTime := now_end e - now_start e;
     memoryUsage := 0;
     error := Some message |}.

Definition executeSingleTest (code language : string) (tc : TestCase)
    (testNumber : nat) (e : Env) (w : World) : World * Outcome ExecutionResult :=
  match dispatch code language tc e w with
  | (w', Fulfilled output) => (w', Fulfilled (completed_result tc testNumber e output))
  | (w', Rejected message) => (w', Fulfilled (failed_result tc testNumber e message))
  | (w', NeverSettles exception) => (w', NeverSettles exception)
  end.

(** The [for] loop of [executeTests]: test [i] (from 0) is run as test
    number [i + 1] in the environment [env i]; the loop goes no further
    than an [await] that never resumes. *)
Fixpoint executeTests_loop (code language : string) (env : nat -> Env)
    (i : nat) (testCases : list TestCase) (results : list ExecutionResult)
    (w : World) : World * Outcome (list ExecutionResult) :=
  match testCases with
  | [] => (w, Fulfilled results)
  | tc :: rest =>
      match executeSingleTest code language tc (i + 1) (env i) w with
      | (w', Fulfilled result) =>
          executeTests_loop code language env (S i) rest (results ++ [result]) w'
      | (w', Rejected message) => (w', Rejected message)
      | (w', NeverSettles exception) => (w', NeverSettles exception)
      end
  end.

(** The record built for every test case by the [catch] of
    [executeTests]. *)
Definition execution_error_result (message : string) (index : nat)
    (tc : TestCase) : ExecutionResult :=
  {| testCase := "Test Case " ++ pretty (index + 1)%nat;
     res_input := input tc;
     res_expectedOutput := expectedOutput tc;
     actualOutput := JStr "Execution Error";
     passed := false;
     executionTime := 0;
     memoryUsage := 0;
     error := Some message |}.

Definition executeTests (code language : string) (testCases : list TestCase)
    (env : nat -> Env) (w : World) : World * Outcome (list ExecutionResult) :=
  match executeTests_loop code language env 0 testCases [] w with
  | (w', Rejected message) =>
      (w', Fulfilled (imap (execution_error_result message) testCases))
  | r => r
  end.

End WithJSON.

(** What the compiler wrote to stderr. *)
Definition compile_stderr (e : Env) : string :=
  match compile e with
  | Closed _ _ compileError => compileError
  | SpawnFailed _ _ => ""
  end.

(** The source was written, the compiler ran and exited with a non-zero
    code (or was killed). *)
Definition compile_failed (e : Env) : bool :=
  match write_error e, compile e with
  | None, Closed code _ _ => exit_nonzero code
  | _, _ => false
  end.

(** Did the compiler exit with code 0? *)
Definition compile_succeeded (e : Env) : bool :=
  match compile e with
  | Closed code _ _ => negb (exit_nonzero code)
  | SpawnFailed _ _ => false
  end.


(** The paths one call of the service writes, by language: nothing when
    the call is rejected before [fs.writeFileSync] succeeds, the temporary
    source, and the binary when the compiler exits with code 0. *)
Definition cpp_paths_written (tc : TestCase) (e : Env) : list string :=
  match cpp_inputString (input tc), write_error e with
  | inl _, None =>
      if compile_succeeded e
      then [cpp_tempFile e; cpp_executableFile e]
      else [cpp_tempFile e]
  | _, _ => []
  end.

Definition script_paths_written (ext : string) (e : Env) : list string :=
  match write_error e with
  | Some _ => []
  | None => [script_tempFile ext e]
  end.

Definition paths_written (language : string) (tc : TestCase) (e : Env) : list string :=
  let l := toLowerCase language in
  if String.eqb l "javascript" then script_paths_written ".js" e
  else if String.eqb l "python" then script_paths_written ".py" e
  else if String.eqb l "c++" then cpp_paths_written tc e
  else [].




(** Is the failure of a child to spawn reported to its ['error']
    listener (or is there no failure)? *)
Definition reported (child : ChildOutcome) : bool :=
  match thrown_at_spawn child with
  | None => true
  | Some _ => false
  end.

(** Is every failure to spawn of this call reported to an ['error']
    listener?  The interpreter for the two interpreted languages; the
    compiler, and the compiled program after a successful compilation, for
    C++. *)
Definition script_spawns_reported (e : Env) : bool :=
  match write_error e with
  | Some _ => true
  | None => reported (run e)
  end.

Definition cpp_spawns_reported (tc : TestCase) (e : Env) : bool :=
  match cpp_inputString (input tc), write_error e with
  | inl _, None =>
      reported (compile e) && (negb (compile_succeeded e) || reported (run e))
  | _, _ => true
  end.

Definition spawns_reported (language : string) (tc : TestCase) (e : Env) : bool :=
  let l := toLowerCase language in
  if String.eqb l "javascript" then script_spawns_reported e
  else if String.eqb l "python" then script_spawns_reported e
  else if String.eqb l "c++" then cpp_spawns_reported tc e
  else true.

(** Does the promise of this call stay unsettled?  Only that of
    [executeCpp] can: when the compiler exits with code 0 and the spawn of
    the compiled program throws inside the compiler's ['close'] listener. *)
Definition cpp_never_settles (tc : TestCase) (e : Env) : bool :=
  match cpp_inputString (input tc), write_error e with
  | inl _, None => compile_succeeded e && negb (reported (run e))
  | _, _ => false
  end.

Definition never_settles (language : string) (tc : TestCase) (e : Env) : bool :=
  String.eqb (toLowerCase language) "c++" && cpp_never_settles tc e.

(** Does the awaited call come back (with a value or a rejection)? *)
Definition comes_back {A : Type} (o : Outcome A) : bool :=
  match o with
  | NeverSettles _ => false
  | _ => true
  end.

Definition is_compile_error (r : ExecutionResult) : bool :=
  match error r with
  | Some message => startsWith "Compilation failed: " message
  | None => false
  end.

(** What the specification says of a submission that does not compile:
    one report for the whole batch (the call fails as a whole, or a single
    record carries the compile error), the compiler having run once. *)
Definition reported_once_for_the_batch (o : Outcome (list ExecutionResult))
    (w : World) : Prop :=
  ((exists message, o = Rejected message)
   \/ (exists r, o = Fulfilled [r] /\ is_compile_error r = true))
  /\ length (filter (fun cmd => cmd = "g++") (spawned w)) = 1%nat.

Definition empty_world : World :=
  {| files := ∅; spawned := []; written := [] |}.

(** The first two test cases of the 3Sum problem as [run_tests] passes
    them on: the input parsed, the expected output still a string. *)
Definition three_sum_case_1 : TestCase :=
  {| input := JArr [JNum (-1); JNum 0; JNum 1; JNum 2; JNum (-1); JNum (-4)];
     expectedOutput := JStr "[[-1,-1,2],[-1,0,1]]";
     explanation := "The unique triplets that sum to zero are [-1,-1,2] and [-1,0,1]" |}.

Definition three_sum_case_2 : TestCase :=
  {| input := JArr [JNum 0; JNum 1; JNum 1];
     expectedOutput := JStr "[]";
     explanation := "No triplets sum to zero" |}.

(** A run in which [g++] rejects the submission. *)
Definition missing_semicolon : Env :=
  {| now_start := 1700000000000;
     now_file := 1700000000001;
     now_exe := 1700000000001;
     now_end := 1700000000350;
     write_error := None;
     compile := Closed (Some 1) "" "error: expected ';' before '}' token";
     run := Closed (Some 0) "" "" |}.

Definition newline : string := String (ascii_of_nat 10) EmptyString.

(** [JSON.parse] on the two texts the runs below print for the array
    [[1, 2]]: Node's [JSON.stringify] and Python's [json.dumps]. *)
Definition JSON_parse_sample (text : string) : option JsValue :=
  if String.eqb text "[1,2]" || String.eqb text "[1, 2]"
  then Some (JArr [JNum 1; JNum 2])
  else None.

(** A Node run whose wrapper logs the result [[1, 2]]. *)
Definition node_prints_array : Env :=
  {| now_start := 1700000000000;
     now_file := 1700000000001;
     now_exe := 1700000000001;
     now_end := 1700000000040;
     write_error := None;
     compile := Closed (Some 0) "" "";
     run := Closed (Some 0) ("ACTUAL_OUTPUT: [1,2]" ++ newline) "" |}.

(** A Python run whose wrapper prints the result [[1, 2]]. *)
Definition python_prints_array : Env :=
  {| now_start := 1700000000000;
     now_file := 1700000000001;
     now_exe := 1700000000001;
     now_end := 1700000000040;
     write_error := None;
     compile := Closed (Some 0) "" "";
     run := Closed (Some 0) ("[1, 2]" ++ newline) "" |}.

(** A test case whose expected output is the bracketed text. *)
Definition expects_bracketed_array : TestCase :=
  {| input := JArr [JNum 2; JNum 1];
     expectedOutput := JStr "[1,2]";
     explanation := "" |}.

(** A host without a C++ compiler: [g++] cannot be spawned. *)
Definition compiler_missing : Env :=
  {| now_start := 1700000000000;
     now_file := 1700000000001;
     now_exe := 1700000000001;
     now_end := 1700000000003;
     write_error := None;
     compile := SpawnFailed "ENOENT" 2;
     run := Closed (Some 0) "" "" |}.

(** A host at its limit of open files: the compiler has run, but the
    compiled program cannot be spawned ([EMFILE] is error 24). *)
Definition binary_cannot_be_spawned : Env :=
  {| now_start := 1700000000000;
     now_file := 1700000000001;
     now_exe := 1700000000001;
     now_end := 1700000000350;
     write_error := None;
     compile := Closed (Some 0) "" "";
     run := SpawnFailed "EMFILE" 24 |}.

(** The same host when the interpreter is to be spawned. *)
Definition interpreter_cannot_be_spawned : Env :=
  {| now_start := 1700000000000;
     now_file := 1700000000001;
     now_exe := 1700000000001;
     now_end := 1700000000002;
     write_error := None;
     compile := Closed (Some 0) "" "";
     run := SpawnFailed "EMFILE" 24 |}.

(** A host out of memory: [spawn] itself throws ([ENOMEM] is error 12). *)
Definition out_of_memory : Env :=
  {| now_start := 1700000000000;
     now_file := 1700000000001;
     now_exe := 1700000000001;
     now_end := 1700000000002;
     write_error := None;
     compile := Closed (Some 0) "" "";
     run := SpawnFailed "ENOMEM" 12 |}.

(** A runtime without [JSON.parse] results: every text is a syntax error.
    The C++ path never calls [JSON.parse]. *)
Definition no_JSON (text : string) : option JsValue := None.

End CodeExecutionService.

(** ** CandidateCoding.tsx: hint tiers and the automated-response cooldown *)

Module CandidateCoding.

Record Problem := {
  id : Z;
  title : string;
  testCases : list (string * string)
}.

Definition problems : list Problem :=
  [ {| id := 1;
       title := "3Sum (LeetCode #15)";
       testCases := [ ("[-1,0,1,2,-1,-4]", "[[-1,-1,2],[-1,0,1]]");
                      ("[0,1,1]", "[]");
                      ("[0,0,0]", "[[0,0,0]]") ] |};
    {| id := 2;
       title := "Product of Array Except Self (LeetCode #238)";
       testCases := [ ("[1,2,3,4]", "[24,12,8,6]");
                      ("[-1,1,0,-3,3]", "[0,0,9,0,0]") ] |} ].

(** [problems[i]], [None] for [undefined]. *)
Definition problem_at (i : Z) : option Problem :=
  if i <? 0 then None else problems !! Z.to_nat i.

(** The [useState] cells of the component that the hint and cooldown
    logic reads or writes.  Times are milliseconds ([Date.getTime]).
    [cooldownTimers] holds the due times of the pending
    [setTimeout(() => setAiResponseCooldown(false), 2 * 60 * 1000)]
    callbacks; [clock] is the time of the last event handled. *)
Record State := {
  code : string;
  currentProblem : Z;
  hintTier : Z;
  idleStartTime : option Z;
  syntaxErrors : Z;
  stuckTime : option Z;
  analysisHasSyntaxErrors : bool;
  lastAIResponseTime : option Z;
  aiResponseCooldown : bool;
  cooldownTimeLeft : Z;
  cooldownTimers : list Z;
  showCompleteDialog : bool;
  clock : Z
}.

Definition initial : State :=
  {| code := "";
     currentProblem := 0;
     hintTier := 0;
     idleStartTime := None;
     syntaxErrors := 0;
     stuckTime := None;
     analysisHasSyntaxErrors := false;
     lastAIResponseTime := None;
     aiResponseCooldown := false;
     cooldownTimeLeft := 0;
     cooldownTimers := [];
     showCompleteDialog := false;
     clock := 0 |}.

Definition twoMinutes : Z := 2 * 60 * 1000.

(** [canSendAIResponse], with [now] for [new Date().getTime()]. *)
Definition canSendAIResponse (now : Z) (s : State) : bool :=
  match lastAIResponseTime s with
  | None => true
  | Some last =>
      let timeDiff := now - last in
      let canSend := twoMinutes <=? timeDiff in
      canSend && negb (aiResponseCooldown s)
  end.

Definition set_cooldown (last : option Z) (active : bool) (left : Z)
    (timers : list Z) (s : State) : State :=
  {| code := code s;
     currentProblem := currentProblem s;
     hintTier := hintTier s;
     idleStartTime := idleStartTime s;
     syntaxErrors := syntaxErrors s;
     stuckTime := stuckTime s;
     analysisHasSyntaxErrors := analysisHasSyntaxErrors s;
     lastAIResponseTime := last;
     aiResponseCooldown := active;
     cooldownTimeLeft := left;
     cooldownTimers := timers;
     showCompleteDialog := showCompleteDialog s;
     clock := clock s |}.

(** [updateAIResponseTime]: stamps the dispatch, raises the flag and
    schedules its own clearing two minutes later. *)
Definition updateAIResponseTime (now : Z) (s : State) : State :=
  set_cooldown (Some now) true (cooldownTimeLeft s)
    (cooldownTimers s ++ [now + twoMinutes]) s.

(** The callback of that [setTimeout]. *)
Definition cooldown_timer_fires (s : State) : State :=
  set_cooldown (lastAIResponseTime s) false (cooldownTimeLeft s)
    (tail (cooldownTimers s)) s.

(** [Math.ceil(a / b)] for [b > 0]. *)
Definition ceil_div (a b : Z) : Z := - ((- a) / b).

(** One tick of the one-second countdown interval; the effect installs
    it only while the flag is up and a dispatch time is recorded. *)
Definition countdown_tick (now : Z) (s : State) : State :=
  match aiResponseCooldown s, lastAIResponseTime s with
  | true, Some last =>
      let timeDiff := now - last in
      let timeLeft := Z.max 0 (twoMinutes - timeDiff) in
      if twoMinutes <=? timeDiff
      then set_cooldown (Some last) false 0 (cooldownTimers s) s
      else set_cooldown (Some last) true (ceil_div timeLeft 1000) (cooldownTimers s) s
  | _, _ => s
  end.

(** What a call site that asks for an automated response does once its
    other conditions hold (a socket, automated responses enabled, at least
    three characters of code or a recognised utterance). *)
Inductive Action : Type :=
| Dispatched
| Suppressed.

(** The three call sites (spoken question, periodic monitoring, debounced
    code change) share this shape: dispatch and start the cooldown when
    [canSendAIResponse()] holds, otherwise log or tell the candidate to
    wait; the [else] branch changes no state and throws nothing. *)
Definition request_ai_response (now : Z) (s : State) : State * Action :=
  if canSendAIResponse now s
  then (updateAIResponseTime now s, Dispatched)
  else (s, Suppressed).

(** [generateHint(tier)]; [None] is the [TypeError] of reading [title]
    of [undefined]. *)
Definition generateHint (s : State) (tier : Z) : option string :=
  match problem_at (currentProblem s) with
  | None => None
  | Some problem =>
      if includes (title problem) "3Sum" then
        Some (if tier =? 1 then "Can you think of a data structure that helps with fast lookups and avoiding duplicates?"
              else if tier =? 2 then "A hash set can help you track which numbers you've seen already. Also consider sorting the array first."
              else if tier =? 3 then "Try sorting the array first, then for each element, use two pointers to find pairs that sum to the negative of that element."
              else "")
      else if includes (title problem) "Product of Array Except Self" then
        Some (if tier =? 1 then "Think about how you can calculate the product of all elements except the current one without using division."
              else if tier =? 2 then "Consider using prefix and suffix products. Calculate the product of all elements to the left and right of each position."
              else if tier =? 3 then "Use two passes: first pass calculates left products, second pass calculates right products and combines them."
              else "")
      else Some ""
  end.

Definition set_hints (tier : Z) (idle : option Z) (errors : Z) (s : State) : State :=
  {| code := code s;
     currentProblem := currentProblem s;
     hintTier := tier;
     idleStartTime := idle;
     syntaxErrors := errors;
     stuckTime := stuckTime s;
     analysisHasSyntaxErrors := analysisHasSyntaxErrors s;
     lastAIResponseTime := lastAIResponseTime s;
     aiResponseCooldown := aiResponseCooldown s;
     cooldownTimeLeft := cooldownTimeLeft s;
     cooldownTimers := cooldownTimers s;
     showCompleteDialog := showCompleteDialog s;
     clock := clock s |}.

(** [triggerHint]; [None] when [generateHint] throws. *)
Definition triggerHint (s : State) : option State :=
  if hintTier s <? 3 then
    let newTier := hintTier s + 1 in
    match generateHint s newTier with
    | None => None
    | Some newHint =>
        if is_empty newHint then Some s
        else Some (set_hints newTier None 0 s)
    end
  else Some s.

Inductive HintRule : Type :=
| IdleRule
| ErrorsRule
| SmellRule.

(** The guard of rule 3 as written:
    [code.includes('for') && code.includes('for') && code.includes('for') && hintTier < 3]. *)
Definition smell_rule (code : string) (hintTier : Z) : bool :=
  includes code "for" && includes code "for" && includes code "for" && (hintTier <? 3).

(** Rule 1: [idleStartTime] is set and
    [idleDuration > 2 * 60 * 1000 && hintTier < 3]. *)
Definition idle_rule (now : Z) (s : State) : bool :=
  match idleStartTime s with
  | Some t => (2 * 60 * 1000 <? now - t) && (hintTier s <? 3)
  | None => false
  end.

(** Rule 2: [syntaxErrors >= 3 && hintTier < 3]. *)
Definition errors_rule (s : State) : bool :=
  (3 <=? syntaxErrors s) && (hintTier s <? 3).

(** Which of the three [if]s of [checkForHint] calls [triggerHint()]. *)
Definition firing_rule (now : Z) (s : State) : option HintRule :=
  if idle_rule now s then Some IdleRule
  else if errors_rule s then Some ErrorsRule
  else if smell_rule (code s) (hintTier s) then Some SmellRule
  else None.

Definition checkForHint (now : Z) (s : State) : option State :=
  match firing_rule now s with
  | Some _ => triggerHint s
  | None => Some s
  end.

(** [handleCompleteInterview] as far as this state is concerned. *)
Definition handleCompleteInterview (s : State) : State :=
  {| code := code s;
     currentProblem := currentProblem s;
     hintTier := hintTier s;
     idleStartTime := idleStartTime s;
     syntaxErrors := syntaxErrors s;
     stuckTime := stuckTime s;
     analysisHasSyntaxErrors := analysisHasSyntaxErrors s;
     lastAIResponseTime := lastAIResponseTime s;
     aiResponseCooldown := aiResponseCooldown s;
     cooldownTimeLeft := cooldownTimeLeft s;
     cooldownTimers := cooldownTimers s;
     showCompleteDialog := true;
     clock := clock s |}.

(** Does the call advance to the next problem? *)
Definition has_next_problem (s : State) : bool :=
  currentProblem s <? Z.of_nat (length problems) - 1.

Definition moveToNextProblem (s : State) : State :=
  if has_next_problem s then
    {| code := "";
       currentProblem := currentProblem s + 1;
       hintTier := 0;
       idleStartTime := None;
       syntaxErrors := 0;
       stuckTime := None;
       analysisHasSyntaxErrors := false;
       lastAIResponseTime := lastAIResponseTime s;
       aiResponseCooldown := aiResponseCooldown s;
       cooldownTimeLeft := cooldownTimeLeft s;
       cooldownTimers := cooldownTimers s;
       showCompleteDialog := showCompleteDialog s;
       clock := clock s |}
  else handleCompleteInterview s.

(** [handleCodeChange(newCode)] followed by the two effects that depend
    on [code], which run only when the code really changed: the idle timer
    and the stuck timer are cleared, and restarted when the new code is
    blank. *)
Definition handleCodeChange (newCode : string) (now : Z) (s : State) : State :=
  let changed := negb (String.eqb newCode (code s)) in
  let blank := is_empty (trim newCode) in
  {| code := newCode;
     currentProblem := currentProblem s;
     hintTier := hintTier s;
     idleStartTime :=
       if changed then (if blank then Some now else None) else idleStartTime s;
     syntaxErrors := if analysisHasSyntaxErrors s then syntaxErrors s + 1 else syntaxErrors s;
     stuckTime :=
       if changed then (if blank then Some now else None) else stuckTime s;
     analysisHasSyntaxErrors := analysisHasSyntaxErrors s;
     lastAIResponseTime := lastAIResponseTime s;
     aiResponseCooldown := aiResponseCooldown s;
     cooldownTimeLeft := cooldownTimeLeft s;
     cooldownTimers := cooldownTimers s;
     showCompleteDialog := showCompleteDialog s;
     clock := clock s |}.

(** The [code_analysis] listener: [setAnalysis(data.analysis)]. *)
Definition on_code_analysis (hasSyntaxErrors : bool) (s : State) : State :=
  {| code := code s;
     currentProblem := currentProblem s;
     hintTier := hintTier s;
     idleStartTime := idleStartTime s;
     syntaxErrors := syntaxErrors s;
     stuckTime := stuckTime s;
     analysisHasSyntaxErrors := hasSyntaxErrors;
     lastAIResponseTime := lastAIResponseTime s;
     aiResponseCooldown := aiResponseCooldown s;
     cooldownTimeLeft := cooldownTimeLeft s;
     cooldownTimers := cooldownTimers s;
     showCompleteDialog := showCompleteDialog s;
     clock := clock s |}.

(** The "Previous Problem" button, rendered only when
    [currentProblem > 0]: [setCurrentProblem(prev => prev - 1)]. *)
Definition previousProblem (s : State) : State :=
  {| code := code s;
     currentProblem := currentProblem s - 1;
     hintTier := hintTier s;
     idleStartTime := idleStartTime s;
     syntaxErrors := syntaxErrors s;
     stuckTime := stuckTime s;
     analysisHasSyntaxErrors := analysisHasSyntaxErrors s;
     lastAIResponseTime := lastAIResponseTime s;
     aiResponseCooldown := aiResponseCooldown s;
     cooldownTimeLeft := cooldownTimeLeft s;
     cooldownTimers := cooldownTimers s;
     showCompleteDialog := showCompleteDialog s;
     clock := clock s |}.

Definition set_clock (now : Z) (s : State) : State :=
  {| code := code s;
     currentProblem := currentProblem s;
     hintTier := hintTier s;
     idleStartTime := idleStartTime s;
     syntaxErrors := syntaxErrors s;
     stuckTime := stuckTime s;
     analysisHasSyntaxErrors := analysisHasSyntaxErrors s;
     lastAIResponseTime := lastAIResponseTime s;
     aiResponseCooldown := aiResponseCooldown s;
     cooldownTimeLeft := cooldownTimeLeft s;
     cooldownTimers := cooldownTimers s;
     showCompleteDialog := showCompleteDialog s;
     clock := now |}.

(** The events the component reacts to. *)
Inductive Event : Type :=
| CodeTyped (newCode : string)
| AnalysisReceived (hasSyntaxErrors : bool)
| HintCheck
| StuckCheck
| PreviousClicked
| ResponseRequested
| CooldownTimer
| CountdownTick.

(** One event handled at time [now].  Time does not run backwards; the
    stuck check calls [moveToNextProblem] only after two blank minutes;
    the "Previous Problem" button exists only past the first problem; a
    cooldown timer never fires before it is due (it may fire late). *)
Inductive step : State -> Event -> Z -> State -> Prop :=
| step_typed s newCode now :
    clock s <= now ->
    step s (CodeTyped newCode) now (set_clock now (handleCodeChange newCode now s))
| step_analysis s b now :
    clock s <= now ->
    step s (AnalysisReceived b) now (set_clock now (on_code_analysis b s))
| step_hint s s' now :
    clock s <= now ->
    checkForHint now s = Some s' ->
    step s HintCheck now (set_clock now s')
| step_stuck s t now :
    clock s <= now ->
    stuckTime s = Some t ->
    2 * 60 * 1000 < now - t ->
    step s StuckCheck now (set_clock now (moveToNextProblem s))
| step_previous s now :
    clock s <= now ->
    0 < currentProblem s ->
    step s PreviousClicked now (set_clock now (previousProblem s))
| step_request s now :
    clock s <= now ->
    step s ResponseRequested now (set_clock now (fst (request_ai_response now s)))
| step_timer s due rest now :
    clock s <= now ->
    cooldownTimers s = due :: rest ->
    due <= now ->
    step s CooldownTimer now (set_clock now (cooldown_timer_fires s))
| step_countdown s now :
    clock s <= now ->
    step s CountdownTick now (set_clock now (countdown_tick now s)).

(** States the component can be in. *)
Inductive reachable : State -> Prop :=
| reachable_initial : reachable initial
| reachable_step s e now s' : reachable s -> step s e now s' -> reachable s'.

(** The tier lies between 0 and 3 and the problem index is one of the two
    problems. *)
Definition tier_invariant (s : State) : Prop :=
  0 <= hintTier s <= 3 /\ 0 <= currentProblem s <= 1.

(** Does this event take the candidate to the next problem? *)
Definition advances (s : State) (e : Event) : bool :=
  match e with
  | StuckCheck => has_next_problem s
  | _ => false
  end.

(** What the specification says of the cooldown: after a dispatch at time
    [t], a request is suppressed when less than two minutes have passed and
    permitted when at least two minutes have passed. *)
Definition cooldown_as_specified : Prop :=
  forall (s : State) (t now : Z),
    reachable s ->
    lastAIResponseTime s = Some t ->
    clock s <= now ->
    (now - t < twoMinutes -> snd (request_ai_response now s) = Suppressed)
    /\ (twoMinutes <= now - t -> snd (request_ai_response now s) = Dispatched).

(** The candidate has typed a loop one second into the session. *)
Definition typed_a_loop : State :=
  set_clock 1000 (handleCodeChange "for (;;) {}" 1000 initial).

(** What the specification says of rule 3: of the three [if]s of
    [checkForHint] it is the one that fires exactly when the code contains
    "for" and the tier is below 3. *)
Definition smell_rule_as_specified : Prop :=
  forall (now : Z) (s : State),
    reachable s ->
    clock s <= now ->
    (firing_rule now s = Some SmellRule
     <-> includes (code s) "for" = true /\ hintTier s < 3).

(** The candidate has declared a variable whose name contains "for". *)
Definition typed_performance : State :=
  set_clock 1000 (handleCodeChange "int performance = 0;" 1000 initial).

(** The candidate has begun a loop, the analysis of it has reported
    syntax errors, and the candidate has changed the code three times
    since. *)
Definition three_errors_and_a_loop : State :=
  set_clock 5000
    (handleCodeChange "for (i;;" 5000
       (set_clock 4000
          (handleCodeChange "for (i;" 4000
             (set_clock 3000
                (handleCodeChange "for (i" 3000
                   (set_clock 2000
                      (on_code_analysis true
                         (set_clock 1000 (handleCodeChange "for (" 1000 initial))))))))).

(** The state right after a first dispatch at time 0. *)
Definition dispatched_at_0 : State :=
  set_clock 0 (fst (request_ai_response 0 initial)).

End CandidateCoding.

(** ** JavaScript numbers where the handlers divide *)

Module Double.

(** A JavaScript number is an IEEE 754 binary64 value.  Where the handlers
    count and add small integers the model uses [Z]; where they divide, a
    number is modelled by the rational it denotes, and every operation
    rounds its exact result to the nearest binary64 value, ties to the even
    significand.  The values below stay far from overflow. *)

(** The nearest integer, a tie going to the even one. *)
Definition round_half_even (x : Q) : Z :=
  let f := Qfloor x in
  match (x - inject_Z f ?= 1 # 2)%Q with
  | Lt => f
  | Gt => f + 1
  | Eq => if Z.even f then f else f + 1
  end.

(** Every binary64 value is an integer multiple of the smallest positive
    one, [2 ^ -1074]. *)
Definition denormal_scale : Z := 2 ^ 1074.

(** The spacing of the binary64 values around [x >= 0], as a power of two
    in units of [2 ^ -1074]: a significand has 53 bits, so the values from
    [2 ^ n] units up to [2 ^ (n + 1)] units ([n >= 52]) are spaced
    [2 ^ (n - 52)] units apart; below [2 ^ 52] units (the subnormal range
    and the first normal binade) the spacing is one unit. *)
Definition shift (x : Q) : Z :=
  Z.max (Z.log2 (Qfloor (x * inject_Z denormal_scale)) - 52) 0.

(** The binary64 value nearest to [x >= 0], in units of [2 ^ -1074]: the
    significand rounded to an integer, times the spacing. *)
Definition units (x : Q) : Z :=
  round_half_even (x * inject_Z denormal_scale / inject_Z (2 ^ shift x)) * 2 ^ shift x.

Definition nearest_magnitude (x : Q) : Q :=
  (inject_Z (units x) / inject_Z denormal_scale)%Q.

(** The binary64 value nearest to [x]: rounding is symmetric in the sign. *)
Definition nearest (x : Q) : Q :=
  if Qle_bool 0 x then nearest_magnitude x else (- nearest_magnitude (- x))%Q.

(** [x + y], [x * y] and [x / y] on numbers ([y] not zero). *)
Definition add (x y : Q) : Q := nearest (x + y).
Definition mul (x y : Q) : Q := nearest (x * y).
Definition div (x y : Q) : Q := nearest (x / y).

(** The same value as the standard library's specification of binary64
    gives it. *)
Definition of_SpecFloat (f : spec_float) : Q :=
  match f with
  | S754_finite s m e =>
      let v := (inject_Z (Z.pos m)
                * (if 0 <=? e then inject_Z (2 ^ e) else / inject_Z (2 ^ (- e))))%Q in
      if s then (- v)%Q else v
  | _ => 0%Q
  end.

(** [(p / t) * 100] computed by the standard library's binary64
    operations. *)
Definition percentage_by_SpecFloat (p t : Z) : Q :=
  of_SpecFloat
    (SFmul 53 1024
       (SFdiv 53 1024 (binary_normalize 53 1024 p 0 false)
                      (binary_normalize 53 1024 t 0 false))
       (binary_normalize 53 1024 100 0 false)).

End Double.

(** ** codeAnalysisService.js and socketHandlers.js: analysis and scoring *)

Module SocketHandlers.

Import CodeExecutionService.

(** [Math.round]: the nearest integer, halves up. *)
Definition Math_round (q : Q) : Z := Qfloor (q + (1 # 2))%Q.

Record CodeMetrics := {
  totalLines : Z;
  nonEmptyLines : Z;
  characters : Z;
  complexity : Z;
  readability : Z;
  bigO : string;
  cyclomaticComplexity : Z;
  maintainabilityIndex : Z
}.

Record Analysis := {
  an_syntaxErrors : list string;
  logicIssues : list string;
  suggestions : list string;
  hints : list string;
  score : Z;
  feedback : string;
  codeMetrics : CodeMetrics
}.

(** [getEmptyCodeAnalysis()] (its [timestamp] is left out). *)
Definition getEmptyCodeAnalysis : Analysis :=
  {| an_syntaxErrors := [];
     logicIssues := [];
     suggestions := ["Start by writing your solution"];
     hints := ["Begin with the basic structure of your function"];
     score := 0;
     feedback := "Start coding to see analysis";
     codeMetrics :=
       {| totalLines := 0; nonEmptyLines := 0; characters := 0;
          complexity := 0; readability := 0; bigO := "O(1)";
          cyclomaticComplexity := 1; maintainabilityIndex := 100 |} |}.

(** What a handler does that the outside can observe. *)
Inductive Effect : Type :=
| RanHeuristics (code language : string)
| SavedChatMessage (content : string)
| SavedAIInteraction (interactionType : string)
| EmitError (message : string)
| EmitCodeAnalysis (analysis : Analysis)
| EmitSessionCompleted (overallScore : Z) (overallRating : string)
    (technicalSkills problemSolving codeQuality : Z).

Record PerformanceMetrics := {
  codeChanges : Z;
  pm_syntaxErrors : Z;
  pm_logicIssues : Z;
  averageCodeQuality : Q;
  averageBigO : string;
  averageMaintainability : Q
}.

Record CodeSubmission := {
  sub_testResults : list ExecutionResult;
  sub_overallScore : Z;
  totalTests : Z;
  passedTests : Z;
  failedTests : Z
}.

Record ProblemProgress := {
  problemId : string;
  pr_score : Z;
  attempts : Z;
  completed : bool
}.

Record InterviewSession := {
  status : string;
  problems : list ProblemProgress;
  codeSubmissions : list CodeSubmission;
  performanceMetrics : PerformanceMetrics;
  overallScore : Z
}.

(** The document built by [startInterviewSession]. *)
Definition new_session : InterviewSession :=
  {| status := "in-progress";
     problems :=
       [ {| problemId := "3sum"; pr_score := 0; attempts := 0; completed := false |};
         {| problemId := "product-except-self"; pr_score := 0; attempts := 0; completed := false |} ];
     codeSubmissions := [];
     performanceMetrics :=
       {| codeChanges := 0; pm_syntaxErrors := 0; pm_logicIssues := 0;
          averageCodeQuality := 0; averageBigO := "O(1)";
          averageMaintainability := 0 |};
     overallScore := 0 |}.

Record Socket := {
  currentSession : option string;
  interviewSession : option InterviewSession;
  codeChangeCount : Z
}.

(** [InterviewSessionSchema.methods.calculateOverallScore].  The sum of
    the integer scores is exact; the quotient is a binary64 division. *)
Definition calculateOverallScore (sess : InterviewSession) : Z :=
  let submissions := codeSubmissions sess in
  if (length submissions =? 0)%nat then 0
  else
    let totalScore :=
      fold_left (fun sum submission => sum + sub_overallScore submission) submissions 0 in
    Math_round (Double.div (inject_Z totalScore) (inject_Z (Z.of_nat (length submissions)))).

(** [totalTests > 0 ? Math.round((passedTests / totalTests) * 100) : 0],
    the quotient and the product rounded as binary64 operations round
    them: 23 of 40 give 57, where the exact percentage 57.5 would give 58. *)
Definition test_score (passedTests totalTests : Z) : Z :=
  if 0 <? totalTests
  then Math_round (Double.mul (Double.div (inject_Z passedTests) (inject_Z totalTests)) 100)
  else 0.

(** The block of the [run_tests] handler guarded by
    [if (socket.interviewSession)]: record the submission, update the
    first problem, recompute the session's overall score. *)
Definition track_test_results (testResults : list ExecutionResult)
    (sess : InterviewSession) : InterviewSession :=
  let passedTests := Z.of_nat (length (filter (fun r => passed r = true) testResults)) in
  let totalTests := Z.of_nat (length testResults) in
  let submissionScore := test_score passedTests totalTests in
  let codeSubmission :=
    {| sub_testResults := testResults;
       sub_overallScore := submissionScore;
       totalTests := totalTests;
       passedTests := passedTests;
       failedTests := totalTests - passedTests |} in
  let problems' :=
    match problems sess with
    | p :: rest =>
        {| problemId := problemId p;
           pr_score := submissionScore;
           attempts := attempts p + 1;
           completed := 80 <=? submissionScore |} :: rest
    | [] => []
    end in
  let pushed :=
    {| status := status sess;
       problems := problems';
       codeSubmissions := codeSubmissions sess ++ [codeSubmission];
       performanceMetrics := performanceMetrics sess;
       overallScore := overallScore sess |} in
  {| status := status pushed;
     problems := problems pushed;
     codeSubmissions := codeSubmissions pushed;
     performanceMetrics := performanceMetrics pushed;
     overallScore := calculateOverallScore pushed |}.

(** [x || 100] on a number. *)
Definition or_100 (x : Z) : Z := if x =? 0 then 100 else x.

(** The metrics block of the [code_change] handler; the two averages are
    binary64 numbers. *)
Definition track_analysis (count : Z) (analysis : Analysis)
    (sess : InterviewSession) : InterviewSession :=
  let m := performanceMetrics sess in
  let v := inject_Z (or_100 (maintainabilityIndex (codeMetrics analysis))) in
  {| status := status sess;
     problems := problems sess;
     codeSubmissions := codeSubmissions sess;
     performanceMetrics :=
       {| codeChanges := count;
          pm_syntaxErrors := pm_syntaxErrors m + Z.of_nat (length (an_syntaxErrors analysis));
          pm_logicIssues := pm_logicIssues m + Z.of_nat (length (logicIssues analysis));
          averageCodeQuality := Double.div (Double.add (averageCodeQuality m) v) 2;
          averageBigO := bigO (codeMetrics analysis);
          averageMaintainability := Double.div (Double.add (averageMaintainability m) v) 2 |};
     overallScore := overallScore sess |}.

Definition overall_rating (overallScore : Z) : string :=
  if 90 <=? overallScore then "excellent"
  else if 75 <=? overallScore then "good"
  else if 60 <=? overallScore then "average"
  else if 40 <=? overallScore then "below-average"
  else "poor".

(** [Math.min(10, Math.max(1, Math.round(x / 10)))]. *)
Definition scale10 (x : Q) : Z := Z.min 10 (Z.max 1 (Math_round (Double.div x 10))).

(** [generatePerformanceSummary().codePerformance.testSuccessRate]. *)
Definition testSuccessRate (sess : InterviewSession) : Z :=
  let total := fold_left (fun sum s => sum + totalTests s) (codeSubmissions sess) 0 in
  let passedN := fold_left (fun sum s => sum + passedTests s) (codeSubmissions sess) 0 in
  if 0 <? total
  then Math_round (Double.mul (Double.div (inject_Z passedN) (inject_Z total)) 100)
  else 0.

(** The [complete_interview_session] handler.  [services_ok] is false
    when the assessment service or the persistence layer throws. *)
Definition on_complete_interview_session (services_ok : bool)
    (sock : Socket) : list Effect :=
  match interviewSession sock with
  | None => [EmitError "No active interview session"]
  | Some sess =>
      if services_ok then
        let finalScore := overallScore sess in
        [EmitSessionCompleted finalScore (overall_rating finalScore)
           (scale10 (inject_Z finalScore))
           (scale10 (inject_Z (testSuccessRate sess)))
           (scale10 (averageCodeQuality (performanceMetrics sess)))]
      else [EmitError "Failed to complete interview session"]
  end.

Section WithHeuristics.

(** Everything [analyzeCodeInRealTime] computes past its guard: the
    syntax checks, the AI service call, the code metrics and the
    fallbacks for their failures. *)
Variable heuristics : string -> string -> Analysis.

(** [analyzeCodeInRealTime]; [None] is a missing ([undefined]) code. *)
Definition analyzeCodeInRealTime (code : option string) (language : string)
    : Analysis * list Effect :=
  match code with
  | None => (getEmptyCodeAnalysis, [])
  | Some c =>
      if (String.length (trim c) =? 0)%nat
      then (getEmptyCodeAnalysis, [])
      else (heuristics c language, [RanHeuristics c language])
  end.

(** The [code_change] handler.  [lookup_ok] is false when
    [Interview.findOne] throws; the lookup happens only when the socket
    has joined an interview.  The time-spent counters and the copy of the
    submission stored in the interview document are left out. *)
Definition on_code_change (lookup_ok : bool) (code : option string)
    (language : string) (sock : Socket) : Socket * list Effect :=
  if (match currentSession sock with Some _ => true | None => false end) && negb lookup_ok
  then (sock, [EmitError "Failed to analyze code"])
  else
    match code with
    | None => (sock, [])
    | Some c =>
        if (String.length (trim c) <? 3)%nat then (sock, [])
        else
          let count :=
            match interviewSession sock with
            | Some _ => codeChangeCount sock + 1
            | None => codeChangeCount sock
            end in
          let '(analysis, ran) := analyzeCodeInRealTime (Some c) language in
          let sock' :=
            {| currentSession := currentSession sock;
               interviewSession := track_analysis count analysis <$> interviewSession sock;
               codeChangeCount := count |} in
          (sock',
           (ran
            ++ (if is_empty (feedback analysis) then [] else [SavedChatMessage (feedback analysis)])
            ++ [SavedAIInteraction "code_analysis"; EmitCodeAnalysis analysis])%list)
    end.

End WithHeuristics.

(** What happens to the session of a connected socket. *)
Inductive SessionEvent : Type :=
| TestsRun (testResults : list ExecutionResult)
| CodeAnalysed (count : Z) (analysis : Analysis).

Definition session_step (sess : InterviewSession) (e : SessionEvent) : InterviewSession :=
  match e with
  | TestsRun testResults => track_test_results testResults sess
  | CodeAnalysed count analysis => track_analysis count analysis sess
  end.

Definition session_after (events : list SessionEvent) : InterviewSession :=
  fold_left session_step events new_session.

(** A socket on which [start_interview_session] has run and the events
    have been handled. *)
Definition socket_after (events : list SessionEvent) : Socket :=
  {| currentSession := None;
     interviewSession := Some (session_after events);
     codeChangeCount := codeChanges (performanceMetrics (session_after events)) |}.

(** The overall score in the [interview_session_completed] emission. *)
Definition emitted_overall_score (effects : list Effect) : option Z :=
  match effects with
  | [EmitSessionCompleted finalScore _ _ _ _] => Some finalScore
  | _ => None
  end.

(** The score of one test run: [Math.round((passed / total) * 100)]. *)
Definition run_score (testResults : list ExecutionResult) : Z :=
  test_score (Z.of_nat (length (filter (fun r => passed r = true) testResults)))
             (Z.of_nat (length testResults)).

(** The test runs among the events, oldest first. *)
Definition tests_run (events : list SessionEvent) : list (list ExecutionResult) :=
  omap (fun e => match e with
                 | TestsRun testResults => Some testResults
                 | CodeAnalysed _ _ => None
                 end) events.

(** The rounded mean of a list of scores as [calculateOverallScore]
    computes it, 0 for the empty list. *)
Definition rounded_mean (scores : list Z) : Z :=
  if (length scores =? 0)%nat then 0
  else
    let totalScore := fold_left Z.add scores 0 in
    Math_round (Double.div (inject_Z totalScore) (inject_Z (Z.of_nat (length scores)))).

(** The exact share of passed tests over all runs of a session, in
    percent. *)
Definition pass_rate (sess : InterviewSession) : Q :=
  let total := fold_left (fun sum s => sum + totalTests s) (codeSubmissions sess) 0 in
  let passedN := fold_left (fun sum s => sum + passedTests s) (codeSubmissions sess) 0 in
  if 0 <? total then ((inject_Z passedN / inject_Z total) * inject_Z 100)%Q else 0%Q.

(** What the specification says of the final score: a weighted combination
    of the test-pass rate and the code-quality signal, the latter with a
    weight that is not zero. *)
Definition score_is_weighted_combination : Prop :=
  exists w_tests w_quality : Q,
    ~ (w_quality == 0)%Q
    /\ forall events : list SessionEvent,
         (inject_Z (overallScore (session_after events))
          == w_tests * pass_rate (session_after events)
             + w_quality * averageCodeQuality (performanceMetrics (session_after events)))%Q.

(** Is the code of a [code_change] event below three characters once
    trimmed (or missing)? *)
Definition short_code (code : option string) : bool :=
  match code with
  | None => true
  | Some c => (String.length (trim c) <? 3)%nat
  end.

(** What the specification says of such an event: a fixed default result
    with score 0 is produced, without any heuristic having run. *)
Definition short_code_yields_default_result : Prop :=
  forall (heuristics : string -> string -> Analysis) (lookup_ok : bool)
         (code : option string) (language : string) (sock : Socket),
    short_code code = true ->
    exists analysis,
      EmitCodeAnalysis analysis ∈ snd (on_code_change heuristics lookup_ok code language sock)
      /\ score analysis = 0
      /\ forall c l,
           RanHeuristics c l ∉ snd (on_code_change heuristics lookup_ok code language sock).

(** A socket that has not joined an interview and has no session. *)
Definition fresh_socket : Socket :=
  {| currentSession := None; interviewSession := None; codeChangeCount := 0 |}.

(** An analysis as the heuristics produce it for working code. *)
Definition sample_analysis : Analysis :=
  {| an_syntaxErrors := [];
     logicIssues := [];
     suggestions := ["Consider sorting the array first"];
     hints := [];
     score := 70;
     feedback := "Good start";
     codeMetrics :=
       {| totalLines := 12; nonEmptyLines := 10; characters := 240;
          complexity := 4; readability := 80; bigO := "O(n^2)";
          cyclomaticComplexity := 4; maintainabilityIndex := 100 |} |}.

Definition sample_heuristics (code language : string) : Analysis := sample_analysis.

(** A run of two tests of which the first passes. *)
Definition one_of_two_passed : list ExecutionResult :=
  [ completed_result three_sum_case_2 1 missing_semicolon (JStr "[]");
    failed_result three_sum_case_1 2 missing_semicolon "Execution failed" ].

(** A run of 40 tests of which 23 pass. *)
Definition twenty_three_of_forty_passed : list ExecutionResult :=
  (replicate 23 (completed_result three_sum_case_2 1 missing_semicolon (JStr "[]"))
   ++ replicate 17 (failed_result three_sum_case_1 2 missing_semicolon "Execution failed"))%list.

End SocketHandlers.

(** ** Regular expressions of the services, read as functions *)

Module JsRegExp.

(** The regular-expression class [\w]: digits, letters and the underscore. *)
Definition is_word (c : ascii) : bool :=
  let n := nat_of_ascii c in
  ((48 <=? n)%nat && (n <=? 57)%nat)
  || ((65 <=? n)%nat && (n <=? 90)%nat)
  || (n =? 95)%nat
  || ((97 <=? n)%nat && (n <=? 122)%nat).

Fixpoint drop_while (p : ascii -> bool) (s : string) : string :=
  match s with
  | EmptyString => EmptyString
  | String c r => if p c then drop_while p r else s
  end.

Definition first_char (s : string) : option ascii :=
  match s with
  | String c _ => Some c
  | EmptyString => None
  end.

Fixpoint last_char (s : string) : option ascii :=
  match s with
  | EmptyString => None
  | String c EmptyString => Some c
  | String _ r => last_char r
  end.

Definition is_word_opt (o : option ascii) : bool :=
  match o with
  | Some c => is_word c
  | None => false
  end.

(** [String.prototype.match] with a pattern that has no [g] flag: the
    match at the leftmost position where the pattern matches.  [at_] is the
    pattern anchored at the start of its argument and gives the capture
    group. *)
Fixpoint first_match (at_ : string -> option string) (s : string) : option string :=
  match at_ s with
  | Some m => Some m
  | None =>
      match s with
      | EmptyString => None
      | String _ r => first_match at_ r
      end
  end.

(** Is there a position of [s] at which [p] holds of the rest of the
    text?  This is what [(s.match(re) || []).length > 0] asks. *)
Fixpoint exists_suffix (p : string -> bool) (s : string) : bool :=
  p s ||
  match s with
  | EmptyString => false
  | String _ r => exists_suffix p r
  end.

(** The assertion [\b] between two neighbouring characters, either of
    which may be missing at an end of the text. *)
Definition boundary (before after : option ascii) : bool :=
  xorb (is_word_opt before) (is_word_opt after).

(** Does the literal text [w] match at the start of [s], the character
    before being [prev]?  With [bounded] the pattern is [\bw\b]. *)
Definition literal_at (bounded : bool) (w : string) (prev : option ascii)
    (s : string) : bool :=
  startsWith w s
  && (negb bounded
      || (boundary prev (first_char w)
          && boundary (last_char w)
               (first_char (CodeExecutionService.drop (String.length w) s)))).

(** [(s.match(re) || []).length] for a pattern with the [g] flag whose
    matches all have length [len] (at least 1): the text is scanned from
    the left and the search resumes behind each match.  [prev] is the
    character before the current position, [skip] the number of characters
    of the last match still to be passed. *)
Fixpoint count_global (len : nat) (at_ : option ascii -> string -> bool)
    (prev : option ascii) (skip : nat) (s : string) : nat :=
  match s with
  | EmptyString => 0
  | String c r =>
      match skip with
      | S k => count_global len at_ (Some c) k r
      | O =>
          if at_ prev s
          then S (count_global len at_ (Some c) (len - 1) r)
          else count_global len at_ (Some c) 0 r
      end
  end.

Definition count_literal (bounded : bool) (w code : string) : nat :=
  count_global (String.length w) (literal_at bounded w) None 0 code.

End JsRegExp.

(** ** codeExecutionService.js: the function the wrapper calls *)

Module FunctionName.

Import CodeExecutionService JsRegExp.

(** [(\w+)\s*\(] at the start of [s]: the captured word and what follows
    the parenthesis.  Both quantifiers are greedy; giving characters back
    cannot help, since a word character is neither white space nor a
    parenthesis. *)
Definition word_then_paren (s : string) : option (string * string) :=
  let name := take_while is_word s in
  if is_empty name then None
  else
    match trimStart (drop_while is_word s) with
    | String c r => if Ascii.eqb c "(" then Some (name, r) else None
    | EmptyString => None
    end.

(** [kw\s+(\w+)\s*\(] at the start of [s], for a literal [kw]. *)
Definition keyword_name_at (kw : string) (s : string) : option string :=
  if startsWith kw s then
    match drop (String.length kw) s with
    | String c r =>
        if is_space c then fst <$> word_then_paren (trimStart r) else None
    | EmptyString => None
    end
  else None.

(** [(\w+)\s*\([^)]*\)\s*{] at the start of [s]. *)
Definition cpp_name_at (s : string) : option string :=
  match word_then_paren s with
  | Some (name, r) =>
      match drop_while (fun c => negb (Ascii.eqb c ")")) r with
      | String _ r' =>
          match trimStart r' with
          | String c _ => if Ascii.eqb c "{" then Some name else None
          | EmptyString => None
          end
      | EmptyString => None
      end
  | None => None
  end.

(** [functionMatch ? functionMatch[1] : 'solution'] in [executeJavaScript],
    where [functionMatch = code.match(/function\s+(\w+)\s*\(/)]. *)
Definition js_functionName (code : string) : string :=
  default "solution" (first_match (keyword_name_at "function") code).

(** The same in [executePython], with [/def\s+(\w+)\s*\(/]. *)
Definition py_functionName (code : string) : string :=
  default "solution" (first_match (keyword_name_at "def") code).

(** The same in [executeCpp], with [/(\w+)\s*\([^)]*\)\s*{/]. *)
Definition cpp_functionName (code : string) : string :=
  default "solution" (first_match cpp_name_at code).

(** A character other than the opening parenthesis. *)
Definition no_open_paren (c : ascii) : bool := negb (Ascii.eqb c "(").

(** The C++ starter template of the 3Sum problem ([codeTemplates]). *)
Definition cpp_three_sum_template : string :=
  "#include <vector>" ++ newline
  ++ "#include <algorithm>" ++ newline
  ++ "using namespace std;" ++ newline
  ++ newline
  ++ "vector<vector<int>> threeSum(vector<int>& nums) {" ++ newline
  ++ "    // Your code here" ++ newline
  ++ "    return {};" ++ newline
  ++ "}".

End FunctionName.

(** ** codeAnalysisService.js: syntax checks, metrics and the session map *)

Module CodeAnalysisService.

Import CodeExecutionService JsRegExp SocketHandlers.

Definition LF : ascii := ascii_of_nat 10.

(** [s.split('\n')]: the pieces between line feeds, at least one. *)
Fixpoint split_lines (s : string) : list string :=
  match s with
  | EmptyString => [EmptyString]
  | String c r =>
      if Ascii.eqb c LF then EmptyString :: split_lines r
      else
        match split_lines r with
        | line :: rest => String c line :: rest
        | [] => [String c EmptyString]
        end
  end.

(** [(s.match(/c/g) || []).length] for a single character [c]. *)
Fixpoint count_char (c : ascii) (s : string) : nat :=
  match s with
  | EmptyString => 0
  | String d r => (if Ascii.eqb c d then 1 else 0) + count_char c r
  end.

(** [s.endsWith(':')]. *)
Definition endsWith_colon (s : string) : bool :=
  match last_char s with
  | Some c => Ascii.eqb c ":"
  | None => false
  end.

Definition equality_warning : string :=
  "Consider using consistent equality operators (=== vs ==)".

Definition validateJavaScript (code : string) : list string :=
  let openBraces := count_char "{" code in
  let closeBraces := count_char "}" code in
  let openParens := count_char "(" code in
  let closeParens := count_char ")" code in
  ((if negb (openBraces =? closeBraces)%nat then ["Mismatched curly braces"] else [])
   ++ (if negb (openParens =? closeParens)%nat then ["Mismatched parentheses"] else [])
   ++ (if includes code "===" && includes code "==" then [equality_warning] else [])
   ++ (if includes code "var "
       then ["Consider using let or const instead of var"] else []))%list.

(** [`Inconsistent indentation on line ${i + 1}`]. *)
Definition indentation_error (i : nat) : string :=
  "Inconsistent indentation on line " ++ pretty (i + 1)%nat.

(** The [for] loop of [validatePython] from line [i] (counted from 0) on;
    it stops at the first error. *)
Fixpoint validatePython_loop (lines : list string) (i : nat) (expectedIndent : nat)
    : list string :=
  match lines with
  | [] => []
  | line :: rest =>
      if is_empty (trim line) then validatePython_loop rest (S i) expectedIndent
      else
        let indent := (String.length line - String.length (trimStart line))%nat in
        if endsWith_colon (trim line)
        then validatePython_loop rest (S i) (indent + 4)
        else if negb (indent =? expectedIndent)%nat && (0 <? expectedIndent)%nat
        then [indentation_error i]
        else validatePython_loop rest (S i) expectedIndent
  end.

Definition validatePython (code : string) : list string :=
  validatePython_loop (split_lines code) 0 0.

Definition validateJava (code : string) : list string :=
  ((if negb (includes code "public static void main") then ["Missing main method"] else [])
   ++ (if negb (includes code "class ") then ["Missing class declaration"] else []))%list.

Definition validateCpp (code : string) : list string :=
  ((if negb (includes code "int main") then ["Missing main function"] else [])
   ++ (if negb (includes code "#include") then ["Missing necessary includes"] else []))%list.

(** [validateSyntax], a [switch] on [language.toLowerCase()] without a
    [default] branch. *)
Definition validateSyntax (code language : string) : list string :=
  let l := toLowerCase language in
  if String.eqb l "javascript" || String.eqb l "js" then validateJavaScript code
  else if String.eqb l "python" then validatePython code
  else if String.eqb l "java" then validateJava code
  else if String.eqb l "cpp" || String.eqb l "c++" then validateCpp code
  else [].

Definition complexityIndicators : list string :=
  ["if"; "else"; "for"; "while"; "switch"; "case"; "catch"; "try"; "return"].

Definition operatorIndicators : list string := ["&&"; "||"; "?"; ":"].

(** [calculateComplexity]: the indicators are counted as whole words, the
    operators wherever they occur; the sum is capped at 10. *)
Definition calculateComplexity (code : string) : Z :=
  let complexity :=
    fold_left (fun c indicator => c + Z.of_nat (count_literal true indicator code))
      complexityIndicators 1 in
  let complexity :=
    fold_left (fun c indicator => c + Z.of_nat (count_literal false indicator code))
      operatorIndicators complexity in
  Z.min complexity 10.

(** The decision points of [calculateCyclomaticComplexity].  The last two
    are written ['\\|\\|'] and ['\\?'] in the source: texts that start with
    a backslash.  Every point is escaped and then searched as [\bpoint\b],
    which is a valid pattern, so the [catch] of the loop is never
    entered. *)
Definition decisionPoints : list string :=
  ["if"; "else"; "while"; "for"; "switch"; "case"; "catch"; "&&"; "\|\|"; "\?"].

Definition backslash : ascii := ascii_of_nat 92.

Record Cyclomatic := {
  cc_value : Z;
  cc_level : string;
  cc_maintainable : bool
}.

Definition calculateCyclomaticComplexity (code : string) : Cyclomatic :=
  let complexity :=
    fold_left (fun c point => c + Z.of_nat (count_literal true point code))
      decisionPoints 1 in
  {| cc_value := complexity;
     cc_level := if complexity <=? 10 then "Low"
                 else if complexity <=? 20 then "Medium" else "High";
     cc_maintainable := complexity <=? 10 |}.

Definition is_comment_line (line : string) : bool :=
  let t := trim line in
  startsWith "//" t || startsWith "/*" t || startsWith "*" t || startsWith "#" t.

Definition functionIndicators : list string :=
  ["function"; "def "; "public "; "private "].

(** [calculateReadability].  [commentLines / lines.length < 0.1] is read
    as [10 * commentLines < lines.length], and [lines.length / functions >
    20] as [lines.length > 20 * functions]; both readings are exact for
    every text a JavaScript engine can hold. *)
Definition calculateReadability (code : string) : Z :=
  let lines := split_lines code in
  let total := Z.of_nat (length lines) in
  let longLines :=
    Z.of_nat (length (filter (fun line => (100 <? String.length line)%nat = true) lines)) in
  let score := 100 - longLines * 5 in
  let commentLines :=
    Z.of_nat (length (filter (fun line => is_comment_line line = true) lines)) in
  let score := if 10 * commentLines <? total then score - 20 else score in
  let functions :=
    Z.of_nat (length (filter (fun indicator => includes code indicator = true)
                        functionIndicators)) in
  let score :=
    if (0 <? functions) && (20 * functions <? total) then score - 15 else score in
  Z.max score 0.

(** [for\s*\(] at the start of [s]: what follows the parenthesis. *)
Definition for_paren (s : string) : option string :=
  if startsWith "for" s then
    match trimStart (drop 3 s) with
    | String c r => if Ascii.eqb c "(" then Some r else None
    | EmptyString => None
    end
  else None.

Definition not_close (c : ascii) : bool := negb (Ascii.eqb c ")").

(** [for\s*\([^)]*\)] at the start of [s]. *)
Definition single_loop_at (s : string) : bool :=
  match for_paren s with
  | Some r => includes r ")"
  | None => false
  end.

Definition is_for_paren (s : string) : bool :=
  match for_paren s with
  | Some _ => true
  | None => false
  end.

(** [for\s*\([^)]*for\s*\([^)]*\)] at the start of [s]: the closing
    parenthesis is the first one behind the opening parenthesis, and the
    second [for\s*\(] stands somewhere in between. *)
Definition nested_loop_at (s : string) : bool :=
  match for_paren s with
  | Some r => includes r ")" && exists_suffix is_for_paren (take_while not_close r)
  | None => false
  end.

(** The text has a [for (] inside the still open parenthesis of a
    [for (]: the shape the pattern of nested loops describes. *)
Definition for_inside_for_head (code : string) : Prop :=
  exists a ws1 b ws2 c d,
    code = a ++ "for" ++ ws1 ++ "(" ++ b ++ "for" ++ ws2 ++ "(" ++ c ++ ")" ++ d
    /\ all_chars is_space ws1 = true
    /\ all_chars is_space ws2 = true
    /\ all_chars not_close b = true
    /\ all_chars not_close c = true.

Record BigO := {
  bo_complexity : string;
  bo_score : Z
}.

(** [estimateBigO]; its [patterns] table is never read. *)
Definition estimateBigO (code : string) : BigO :=
  let nestedLoops := exists_suffix nested_loop_at code in
  let singleLoops := exists_suffix single_loop_at code in
  let r := {| bo_complexity := "O(1)"; bo_score := 0 |} in
  let r := if nestedLoops then {| bo_complexity := "O(n²)"; bo_score := 1 |} else r in
  let r := if singleLoops && negb nestedLoops
           then {| bo_complexity := "O(n)"; bo_score := 2 |} else r in
  let r := if includes code ".sort(" || includes code "sort("
           then {| bo_complexity := "O(n log n)"; bo_score := 3 |} else r in
  let r := if includes code "binarySearch" || includes code "binary_search"
           then {| bo_complexity := "O(log n)"; bo_score := 4 |} else r in
  r.

Definition timeMultipliers : gmap string Z :=
  list_to_map
    [ ("O(1)", 1); ("O(log n)", 5); ("O(n)", 10); ("O(n log n)", 20);
      ("O(n²)", 100); ("O(2^n)", 1000) ].

Record ExecutionTime := {
  et_estimated : Z;
  et_complexity : string;
  et_confidence : Q
}.

(** [estimateExecutionTime]; [timeMultipliers[c] || 10]. *)
Definition estimateExecutionTime (code : string) : ExecutionTime :=
  let bigO := estimateBigO code in
  let baseTime := 1 in
  let multiplier :=
    match timeMultipliers !! bo_complexity bigO with
    | Some m => if m =? 0 then 10 else m
    | None => 10
    end in
  {| et_estimated := baseTime * multiplier;
     et_complexity := bo_complexity bigO;
     et_confidence := (inject_Z (bo_score bigO) / 4)%Q |}.

(** An entry of [activeSessions]: an object that may have a
    [lastAnalysis] and may have [hints] (their contents, oldest first). *)
Record SessionEntry := {
  lastAnalysis : option Analysis;
  entry_hints : option (list string)
}.

(** [this.activeSessions.get(sessionId)?.lastAnalysis || null]. *)
Definition getSessionAnalysis (sessionId : string) (sessions : gmap string SessionEntry)
    : option Analysis :=
  sessions !! sessionId ≫= lastAnalysis.

(** [session?.hints || []] as [generateHint] reads it. *)
Definition session_hints (sessionId : string) (sessions : gmap string SessionEntry)
  : list string :=
  default [] (sessions !! sessionId ≫= entry_hints).

Definition clearSession (sessionId : string) (sessions : gmap string SessionEntry)
  : gmap string SessionEntry :=
  delete sessionId sessions.

Record Hint := {
  hint_content : string;
  hint_type : string
}.

(** [getErrorAnalysis()] (its [timestamp] is left out). *)
Definition getErrorAnalysis : Analysis :=
  {| an_syntaxErrors := [];
     logicIssues := ["Code analysis is temporarily unavailable"];
     suggestions := ["Please try again in a moment"; "Check your internet connection";
                     "Refresh the page if the issue persists"];
     hints := ["Code analysis will be available shortly";
               "You can continue coding while we fix this issue"];
     score := 0;
     feedback := "Code analysis is temporarily unavailable. Please try again in a moment. You can continue coding while we resolve this issue.";
     codeMetrics :=
       {| totalLines := 0; nonEmptyLines := 0; characters := 0;
          complexity := 0; readability := 0; bigO := "O(1)";
          cyclomaticComplexity := 1; maintainabilityIndex := 50 |} |}.

Definition fallback_hint : Hint :=
  {| hint_content := "Think about the problem step by step and consider edge cases.";
     hint_type := "fallback" |}.

Section WithServices.

(** What the [try] block of [analyzeCodeInRealTime] builds past the guard
    for empty code: the combined analysis, or [None] when the block throws
    before it has stored anything (as [language.toLowerCase()] does for a
    missing language). *)
Variable analysis_of : string -> string -> option Analysis.

(** [aiService.generateHint(code, language, problemContext, previousHints)];
    [None] when it throws. *)
Variable aiService_generateHint :
  string -> string -> string -> list string -> option string.

(** [analyzeCodeInRealTime] with the map it keeps: the combined analysis
    is stored as [lastAnalysis] of the session, the other fields of the
    entry being kept; the results for empty code and for a failure are
    returned without being stored. *)
Definition analyzeCodeInRealTime_in (sessionId : string) (code : option string)
    (language : string) (sessions : gmap string SessionEntry)
  : Analysis * gmap string SessionEntry :=
  match code with
  | None => (getEmptyCodeAnalysis, sessions)
  | Some c =>
      if (String.length (trim c) =? 0)%nat then (getEmptyCodeAnalysis, sessions)
      else
        match analysis_of c language with
        | Some analysis =>
            (analysis,
             <[sessionId := {| lastAnalysis := Some analysis;
                               entry_hints := sessions !! sessionId ≫= entry_hints |}]>
               sessions)
        | None => (getErrorAnalysis, sessions)
        end
  end.

(** [generateHint]: the hint of the AI service is appended to the hints
    of the session; when the service throws, the fallback is returned and
    nothing is stored. *)
Definition generateHint (sessionId code language problemContext : string)
    (sessions : gmap string SessionEntry) : Hint * gmap string SessionEntry :=
  let session := sessions !! sessionId in
  let previousHints := default [] (session ≫= entry_hints) in
  match aiService_generateHint code language problemContext previousHints with
  | Some hint =>
      ({| hint_content := hint; hint_type := "ai_generated" |},
       <[sessionId := {| lastAnalysis := session ≫= lastAnalysis;
                         entry_hints := Some (previousHints ++ [hint])%list |}]>
         sessions)
  | None => (fallback_hint, sessions)
  end.

End WithServices.

End CodeAnalysisService.

(** ** socketHandlers.js and InterviewSession.js: final scores and the summary *)

Module InterviewReport.

Import CodeExecutionService SocketHandlers.

Record FinalScore := {
  fs_overall : Z;
  fs_codeQuality : Z;
  fs_problemSolving : Z;
  fs_communication : Z;
  fs_timeManagement : Z;
  fs_hintsUsed : Z
}.

(** [Math.max(0, Math.min(100, x))]. *)
Definition clamp_0_100 (x : Z) : Z := Z.max 0 (Z.min 100 x).

(** [calculateFinalScore(interview)].  Of a code submission only
    [aiAnalysis.score] is read ([None] when the analysis or its score is
    missing), of the hints only their number; [duration] is the number of
    minutes set by [endInterview] ([None] when the interview never
    started).  Scores are integers. *)
Definition calculateFinalScore (codeSubmissions : list (option Z))
    (hints : nat) (duration : option Z) : FinalScore :=
  match last codeSubmissions with
  | None =>
      {| fs_overall := 0; fs_codeQuality := 0; fs_problemSolving := 0;
         fs_communication := 0; fs_timeManagement := 0;
         fs_hintsUsed := Z.of_nat hints |}
  | Some lastSubmission =>
      let codeQuality := default 0 lastSubmission in
      let problemSolving := Z.max 0 (codeQuality - Z.of_nat hints * 10) in
      let communication := 80 in
      let timeManagement := Z.max 0 (100 - default 0 duration * 2) in
      let overall :=
        Math_round (inject_Z (codeQuality + problemSolving + communication + timeManagement)
                    / 4)%Q in
      {| fs_overall := clamp_0_100 overall;
         fs_codeQuality := clamp_0_100 codeQuality;
         fs_problemSolving := clamp_0_100 problemSolving;
         fs_communication := clamp_0_100 communication;
         fs_timeManagement := clamp_0_100 timeManagement;
         fs_hintsUsed := Z.of_nat hints |}
  end.

(** The three values of [hintType] that [HintSchema] admits. *)
Definition hintTypes : list string := ["nudge"; "guide"; "direction"].

(** [hints.reduce((acc, hint) => { acc[hint.hintType] =
    (acc[hint.hintType] || 0) + 1; return acc; }, {})] in
    [generatePerformanceSummary], on the types of the hints. *)
Definition hintsByType (hints : list string) : gmap string Z :=
  fold_left (fun acc hintType => <[hintType := default 0 (acc !! hintType) + 1]> acc)
    hints ∅.

(** The number of hints of one type. *)
Definition hints_of_type (hintType : string) (hints : list string) : Z :=
  Z.of_nat (length (filter (fun t => t = hintType) hints)).

(** Do all tests of a run pass? *)
Definition all_passed (testResults : list ExecutionResult) : bool :=
  forallb passed testResults.

(** The submission record that [run_tests] builds from the results of one
    run. *)
Definition submission_of (testResults : list ExecutionResult) : CodeSubmission :=
  let passedTests := Z.of_nat (length (filter (fun r => passed r = true) testResults)) in
  let totalTests := Z.of_nat (length testResults) in
  {| sub_testResults := testResults;
     sub_overallScore := test_score passedTests totalTests;
     totalTests := totalTests;
     passedTests := passedTests;
     failedTests := totalTests - passedTests |}.

(** The analyses among the events, oldest first. *)
Definition analyses (events : list SessionEvent) : list Analysis :=
  omap (fun e => match e with
                 | CodeAnalysed _ analysis => Some analysis
                 | TestsRun _ => None
                 end) events.

(** The maintainability index that [calculateMaintainabilityIndex]
    produces is a rounded value between 0 and 100. *)
Definition maintainability_in_range (analysis : Analysis) : Prop :=
  0 <= maintainabilityIndex (codeMetrics analysis) <= 100.

End InterviewReport.

(** ** TestResults.tsx: the expanded sections *)

Module TestResultsPanel.

(** [useState(new Set(['overview']))]. *)
Definition initial_sections : gset string := {[ "overview" ]}.

(** [toggleSection]: a copy of the set with the section removed when it
    was there and added when it was not. *)
Definition toggleSection (section : string) (expandedSections : gset string)
    : gset string :=
  if decide (section ∈ expandedSections)
  then expandedSections ∖ {[ section ]}
  else expandedSections ∪ {[ section ]}.

End TestResultsPanel.

(** * Verified properties *)

Import CodeExecutionService.

(** ** Output comparison *)

Section Normalisation.

Import OutputEquality.

Lemma is_space_lower_char (c : ascii) : is_space (lower_char c) = is_space c.
Proof.
  destruct c as [[] [] [] [] [] [] [] []]; reflexivity.
Qed.

Lemma split_ws_toLowerCase (s : string) :
  split_ws (toLowerCase s)
  = (toLowerCase (fst (split_ws s)), map toLowerCase (snd (split_ws s))).
Proof.
  induction s as [|c r IH]; [reflexivity|].
  simpl. rewrite IH, is_space_lower_char.
  destruct (split_ws r) as [w ws]; simpl.
  destruct (is_space c); [|reflexivity].
  destruct w; reflexivity.
Qed.

Lemma ws_tokens_toLowerCase (s : string) :
  ws_tokens (toLowerCase s) = map toLowerCase (ws_tokens s).
Proof.
  unfold ws_tokens. rewrite split_ws_toLowerCase.
  destruct (split_ws s) as [w ws]; simpl.
  destruct w; reflexivity.
Qed.

Lemma ws_tokens_space (c : ascii) (r : string) :
  is_space c = true -> ws_tokens (String c r) = ws_tokens r.
Proof.
  intros Hc. unfold ws_tokens. simpl.
  destruct (split_ws r) as [w ws]. rewrite Hc. reflexivity.
Qed.

Lemma ws_tokens_trimStart (s : string) : ws_tokens (trimStart s) = ws_tokens s.
Proof.
  induction s as [|c r IH]; [reflexivity|].
  simpl. destruct (is_space c) eqn:Hc; [|reflexivity].
  rewrite IH. symmetry. apply ws_tokens_space, Hc.
Qed.

Lemma split_ws_trimEnd (s : string) : split_ws (trimEnd s) = split_ws s.
Proof.
  induction s as [|c r IH]; [reflexivity|].
  simpl. destruct (trimEnd r) as [|d r'] eqn:Hr.
  - rewrite <- IH. simpl.
    destruct (is_space c) eqn:Hc; simpl; rewrite ?Hc; reflexivity.
  - rewrite <- IH. reflexivity.
Qed.

Lemma ws_tokens_trim (s : string) : ws_tokens (trim s) = ws_tokens s.
Proof.
  unfold trim, ws_tokens at 1. rewrite split_ws_trimEnd.
  apply ws_tokens_trimStart.
Qed.

Lemma split_ws_replace_ws (s : string) :
  split_ws (replace_ws_from false s) = split_ws s
  /\ ws_tokens (replace_ws_from true s) = ws_tokens s.
Proof.
  induction s as [|c r [IHf IHt]]; [split; reflexivity|].
  simpl. destruct (is_space c) eqn:Hc.
  - split.
    + change (split_ws (String " " (replace_ws_from true r)))
        with (let '(w, ws) := split_ws (replace_ws_from true r) in
              ("", cons_token w ws)).
      unfold ws_tokens in IHt.
      destruct (split_ws (replace_ws_from true r)) as [w ws].
      destruct (split_ws r) as [w' ws']. rewrite IHt. reflexivity.
    + rewrite IHt. unfold ws_tokens. simpl.
      destruct (split_ws r) as [w' ws']. rewrite Hc. reflexivity.
  - split.
    + simpl. rewrite IHf, Hc. reflexivity.
    + unfold ws_tokens. simpl. rewrite IHf, Hc. reflexivity.
Qed.

Lemma ws_tokens_nil_trimEnd (s : string) : ws_tokens s = [] -> trimEnd s = "".
Proof.
  induction s as [|c r IH]; [reflexivity|].
  unfold ws_tokens in *. simpl.
  destruct (split_ws r) as [w ws].
  destruct (is_space c) eqn:Hc.
  - intros H. rewrite IH by exact H. reflexivity.
  - discriminate.
Qed.

Lemma append_cons (a : ascii) (x y : string) : String a x ++ y = String a (x ++ y).
Proof. reflexivity. Qed.

Lemma append_nil_l (y : string) : "" ++ y = y.
Proof. reflexivity. Qed.

Lemma append_nil_r (x : string) : x ++ "" = x.
Proof.
  induction x as [|a x IH]; [reflexivity|].
  rewrite append_cons, IH. reflexivity.
Qed.

Lemma join_cons (sep x : string) (l : list string) :
  join sep (x :: l) = x ++ (if is_nil l then "" else sep ++ join sep l).
Proof.
  destruct l as [|y l]; [|reflexivity].
  simpl. symmetry. apply append_nil_r.
Qed.

Lemma split_ws_leading (s : string) :
  if leading_space s then fst (split_ws s) = ""
  else ws_tokens s = match s with
                     | EmptyString => []
                     | _ => fst (split_ws s) :: snd (split_ws s)
                     end.
Proof.
  destruct s as [|c r]; [reflexivity|].
  unfold ws_tokens. simpl. destruct (split_ws r) as [w ws].
  destruct (is_space c); reflexivity.
Qed.

Lemma replace_ws_trimEnd (s : string) :
  replace_ws_from true (trimEnd s) = join " " (ws_tokens s)
  /\ replace_ws_from false (trimEnd s)
     = if leading_space s && negb (is_nil (ws_tokens s))
       then " " ++ join " " (ws_tokens s)
       else join " " (ws_tokens s).
Proof.
  induction s as [|c r [IHt IHf]]; [split; reflexivity|].
  pose proof (split_ws_leading r) as Hlead.
  pose proof (ws_tokens_nil_trimEnd r) as Hnil.
  pose proof (split_ws_trimEnd r) as Hsplit.
  unfold ws_tokens in *. simpl.
  destruct (split_ws r) as [w ws] eqn:Hr. simpl in Hlead.
  destruct (trimEnd r) as [|d r'] eqn:Htrim.
  - (* everything after [c] is white space *)
    simpl in Hsplit. injection Hsplit as <- <-.
    destruct (is_space c) eqn:Hc; simpl; rewrite ?Hc; split; reflexivity.
  - assert (Hne : cons_token w ws <> []).
    { intros E. specialize (Hnil E). discriminate. }
    clear Hnil Hsplit. remember (String d r') as u eqn:Hu.
    destruct (is_space c) eqn:Hc.
    + change (cons_token "" (cons_token w ws)) with (cons_token w ws).
      simpl. rewrite Hc, IHt.
      destruct (cons_token w ws) eqn:Htok; [congruence|].
      split; reflexivity.
    + change (cons_token (String c w) ws) with (String c w :: ws).
      assert (Hgoal : String c (replace_ws_from false u)
                      = join " " (String c w :: ws)).
      { rewrite IHf, join_cons. rewrite (append_cons c w). f_equal.
        destruct (leading_space r) eqn:Hl.
        - subst w. change (cons_token "" ws) with ws in *.
          destruct ws; [congruence|]. reflexivity.
        - destruct r as [|e r'']; [simpl in Htrim; congruence|].
          rewrite Hlead. simpl. apply join_cons. }
      simpl. rewrite Hc, Hgoal.
      split; reflexivity.
Qed.

Lemma toLowerCase_trimStart (s : string) :
  toLowerCase (trimStart s) = trimStart (toLowerCase s).
Proof.
  induction s as [|c r IH]; [reflexivity|].
  simpl. rewrite is_space_lower_char.
  destruct (is_space c); [exact IH | reflexivity].
Qed.

Lemma toLowerCase_trimEnd (s : string) :
  toLowerCase (trimEnd s) = trimEnd (toLowerCase s).
Proof.
  induction s as [|c r IH]; [reflexivity|].
  simpl. rewrite <- IH, is_space_lower_char.
  destruct (trimEnd r); simpl; [|reflexivity].
  destruct (is_space c); reflexivity.
Qed.

Lemma leading_space_trimStart (s : string) : leading_space (trimStart s) = false.
Proof.
  induction s as [|c r IH]; [reflexivity|].
  simpl. destruct (is_space c) eqn:Hc; [exact IH|].
  simpl. exact Hc.
Qed.

(** The normal form computed by [normalize]: the lower-cased words joined
    by single spaces. *)
Lemma normalize_words (s : string) :
  replace_ws (toLowerCase (trim s)) = join " " (map toLowerCase (ws_tokens s)).
Proof.
  unfold trim, replace_ws.
  rewrite toLowerCase_trimEnd, toLowerCase_trimStart.
  destruct (replace_ws_trimEnd (trimStart (toLowerCase s))) as [_ ->].
  rewrite leading_space_trimStart, ws_tokens_trimStart, ws_tokens_toLowerCase.
  reflexivity.
Qed.

Lemma ws_tokens_normalize (s : string) :
  ws_tokens (replace_ws (toLowerCase (trim s))) = map toLowerCase (ws_tokens s).
Proof.
  unfold replace_ws, ws_tokens at 1.
  destruct (split_ws_replace_ws (toLowerCase (trim s))) as [-> _].
  fold (ws_tokens (toLowerCase (trim s))).
  rewrite ws_tokens_toLowerCase, ws_tokens_trim. reflexivity.
Qed.

End Normalisation.

(** C2 (as the code has it): [compareOutputs] returns [true] exactly when
    the two outputs, coerced by [String()], consist of the same words up to
    letter case, words being separated by runs of white space.  A run of
    white space is collapsed to one space, not removed:
    [compareOutputs("[1, 2]", "[1,2]")] is [false], while
    [compareOutputs("[1,   2]", "[1, 2]")] is [true]. *)
Theorem compareOutputs_same_words (actual expected : JsValue) :
  (compareOutputs actual expected = true
   <-> OutputEquality.same_words_ignoring_case (ToString actual) (ToString expected))
  /\ compareOutputs (JStr "[1, 2]") (JStr "[1,2]") = false
  /\ compareOutputs (JStr "[1,   2]") (JStr "[1, 2]") = true.
Proof.
  split; [|split; reflexivity].
  unfold compareOutputs, normalize, OutputEquality.same_words_ignoring_case.
  rewrite String.eqb_eq. split.
  - intros H. rewrite <- !ws_tokens_normalize. f_equal. exact H.
  - intros H. rewrite !normalize_words. f_equal. exact H.
Qed.

(** C2 (as stated) fails: the two texts of the specification's own example
    differ after normalisation, because ["[1, 2]"] keeps its space. *)
Lemma compareOutputs_bracket_example_differs :
  compareOutputs (JStr "[1, 2]") (JStr "[1,2]") <> true.
Proof. discriminate. Qed.


(** ** Temporary files *)

Section Cleanup.

(** Closes a goal "this branch returns such a world and such an outcome":
    the branch is read off by computation, the facts about its files are
    left to [set_solver]. *)
Ltac branch_cleans_up :=
  eexists _, _; split; [reflexivity|]; simpl;
  rewrite <- ?app_assoc; repeat split; set_solver.

Lemma all_chars_app (p : ascii -> bool) (x y : string) :
  all_chars p (x ++ y) = all_chars p x && all_chars p y.
Proof.
  induction x as [|a x IH]; [reflexivity|].
  rewrite append_cons. simpl. rewrite IH. apply andb_assoc.
Qed.

Lemma pretty_N_go_chars (x : N) (s : string) :
  all_chars is_digit_or_minus s = true ->
  all_chars is_digit_or_minus (pretty_N_go x s) = true.
Proof.
  revert s. induction (N.lt_wf_0 x) as [x _ IH]. intros s Hs.
  destruct (decide (x = 0%N)) as [->|Hx].
  - rewrite pretty_N_go_0. exact Hs.
  - rewrite pretty_N_go_step by lia.
    apply IH.
    + apply N.div_lt; lia.
    + simpl. rewrite Hs, andb_true_r.
      unfold pretty_N_char. repeat case_match; reflexivity.
Qed.

Lemma pretty_Z_chars (z : Z) : all_chars is_digit_or_minus (pretty z) = true.
Proof.
  assert (HN : forall n : N, all_chars is_digit_or_minus (pretty n) = true).
  { intros n. unfold pretty, pretty_N. case_decide; [reflexivity|].
    apply pretty_N_go_chars. reflexivity. }
  destruct z as [|p|p]; [reflexivity| apply HN |].
  change (pretty (Z.neg p)) with ("-" ++ pretty (N.pos p)).
  rewrite all_chars_app, HN. reflexivity.
Qed.

(** The source file and the binary of one C++ run never share a name. *)
Lemma cpp_names_differ (e : Env) : cpp_tempFile e <> cpp_executableFile e.
Proof.
  unfold cpp_tempFile, cpp_executableFile. intros H.
  apply (inj (String.append tempDir)) in H.
  apply (inj (String.append "/test_")) in H.
  pose proof (pretty_Z_chars (now_exe e)) as Hexe.
  rewrite <- H, all_chars_app, andb_comm in Hexe. discriminate.
Qed.

Lemma unlink_present (p : string) (w : World) :
  p ∈ files w ->
  unlinkSync p w
  = Some {| files := files w ∖ {[ p ]}; spawned := spawned w; written := written w |}.
Proof.
  intros H. unfold unlinkSync. rewrite decide_True by exact H. reflexivity.
Qed.

Lemma unlink_absent (p : string) (w : World) :
  p ∉ files w -> unlinkSync p w = None.
Proof.
  intros H. unfold unlinkSync. rewrite decide_False by exact H. reflexivity.
Qed.

(** Both interpreted languages: as long as a failure to spawn is reported
    to the ['error'] listener, the promise settles after a listener has
    removed the file that was written, whatever the child does. *)
Lemma interpreted_cleanup (cmd ext : string) (parse : string -> JsValue)
    (e : Env) (w : World) :
  script_spawns_reported e = true ->
  exists ws s,
    settlement (interpreted cmd ext parse e w) = Some (ws, s)
    /\ written ws = (written w ++ script_paths_written ext e)%list
    /\ files ws = files w ∖ list_to_set (script_paths_written ext e)
    /\ written (final (interpreted cmd ext parse e w)) = written ws
    /\ files (final (interpreted cmd ext parse e w)) = files ws.
Proof.
  unfold interpreted, script_paths_written, script_spawns_reported, reported.
  set (tempFile := script_tempFile ext e).
  destruct (write_error e) as [errno|].
  { intros _. eexists _, _. split; [reflexivity|]. simpl. rewrite app_nil_r.
    repeat split. set_solver. }
  destruct (run e) as [errno errnum|code output err];
    unfold deliver, script_on_error, script_on_close.
  - destruct (thrown_at_spawn (SpawnFailed errno errnum)); [discriminate|]. intros _.
    rewrite (unlink_present tempFile) by (simpl; set_solver).
    rewrite (unlink_absent tempFile) by (simpl; set_solver).
    branch_cleans_up.
  - intros _. rewrite (unlink_present tempFile) by (simpl; set_solver).
    destruct (exit_nonzero code); branch_cleans_up.
Qed.

(** The C++ runner, under the same condition: the source is removed on
    every path after it has been written, and so is the binary once the
    compiler has produced it. *)
Lemma executeCpp_cleanup (code : string) (tc : TestCase) (e : Env) (w : World) :
  cpp_spawns_reported tc e = true ->
  exists ws s,
    settlement (executeCpp code tc e w) = Some (ws, s)
    /\ written ws = (written w ++ cpp_paths_written tc e)%list
    /\ files ws = files w ∖ list_to_set (cpp_paths_written tc e)
    /\ written (final (executeCpp code tc e w)) = written ws
    /\ files (final (executeCpp code tc e w)) = files ws.
Proof.
  unfold executeCpp, cpp_paths_written, cpp_spawns_reported, compile_succeeded, reported.
  pose proof (cpp_names_differ e) as Hne.
  set (tempFile := cpp_tempFile e) in *.
  set (exe := cpp_executableFile e) in *.
  destruct (cpp_inputString (input tc)) as [inputString|msg].
  2:{ intros _. eexists _, _. split; [reflexivity|]. simpl. rewrite app_nil_r.
      repeat split. set_solver. }
  destruct (write_error e) as [errno|].
  { intros _. eexists _, _. split; [reflexivity|]. simpl. rewrite app_nil_r.
    repeat split. set_solver. }
  destruct (compile e) as [errno errnum|compileCode compileOut compileError].
  { unfold deliver, cpp_compile_on_error, cpp_compile_failed.
    destruct (thrown_at_spawn (SpawnFailed errno errnum)); [discriminate|]. intros _.
    rewrite (unlink_present tempFile) by (simpl; set_solver).
    rewrite (unlink_absent tempFile) by (simpl; set_solver).
    branch_cleans_up. }
  simpl thrown_at_spawn. cbv iota. rewrite andb_true_l.
  destruct (exit_nonzero compileCode); simpl negb.
  { intros _. unfold cpp_compile_failed.
    rewrite (unlink_present tempFile) by (simpl; set_solver).
    branch_cleans_up. }
  destruct (run e) as [errno errnum|runCode output err];
    unfold deliver, cpp_run_on_error, cpp_run_on_close.
  - destruct (thrown_at_spawn (SpawnFailed errno errnum)); [discriminate|]. intros _.
    rewrite (unlink_present tempFile) by (simpl; set_solver).
    rewrite (unlink_present exe) by (simpl; set_solver).
    rewrite (unlink_absent tempFile) by (simpl; set_solver).
    branch_cleans_up.
  - intros _. rewrite (unlink_present tempFile) by (simpl; set_solver).
    rewrite (unlink_present exe) by (simpl; set_solver).
    destruct (exit_nonzero runCode); branch_cleans_up.
Qed.

End Cleanup.

(** The clean-up holds on every exit path on which the listeners get to
    run: the child closes with code 0, with a non-zero code, with no code
    because the timeout killed it, or fails to spawn with an error that
    Node hands to the ['error'] listener, and also when the source cannot
    be written.  The promise is settled, and in the world in which it
    settles every file the execution wrote has been removed again and no
    other file has been touched; nothing is written or left behind
    afterwards. *)
Lemma temporary_files_removed_when_spawns_are_reported
    (JSON_parse : string -> option JsValue) (code language : string)
    (tc : TestCase) (e : Env) (w : World) (x : Execution) :
  spawns_reported language tc e = true ->
  execution JSON_parse code language tc e w = Some x ->
  exists ws s,
    settlement x = Some (ws, s)
    /\ written ws = (written w ++ paths_written language tc e)%list
    /\ files ws = files w ∖ list_to_set (paths_written language tc e)
    /\ (forall p, p ∈ paths_written language tc e -> p ∉ files ws)
    /\ written (final x) = written ws
    /\ files (final x) = files ws.
Proof.
  assert (Hgone : forall (F F' : gset string) (new : list string),
             F' = F ∖ list_to_set new -> forall p, p ∈ new -> p ∉ F').
  { intros F F' new -> p Hp. set_solver. }
  unfold execution, paths_written, spawns_reported, executeJavaScript, executePython.
  destruct (String.eqb (toLowerCase language) "javascript").
  { intros Hrep [= <-].
    destruct (interpreted_cleanup "node" ".js" (parse_js_stdout JSON_parse) e w Hrep)
      as (ws & s & Hs & Hw & Hf & Hw' & Hf').
    exists ws, s. eauto 10. }
  destruct (String.eqb (toLowerCase language) "python").
  { intros Hrep [= <-].
    destruct (interpreted_cleanup "python3" ".py" (parse_py_stdout JSON_parse) e w Hrep)
      as (ws & s & Hs & Hw & Hf & Hw' & Hf').
    exists ws, s. eauto 10. }
  destruct (String.eqb (toLowerCase language) "c++"); [|discriminate].
  intros Hrep [= <-].
  destruct (executeCpp_cleanup code tc e w Hrep) as (ws & s & Hs & Hw & Hf & Hw' & Hf').
  exists ws, s. eauto 10.
Qed.

(** C6 at a failing input: the clean-up is done by the two listeners of a
    child, so a failure to spawn that never reaches them leaves the files
    behind.  On a host at its limit of open files, [spawn('node', ...)]
    returns a child without pipes and [child.stdout.on] throws inside the
    executor function: the promise of [executeJavaScript] is rejected with
    that [TypeError], [executeSingleTest] returns its failed record, and
    the temporary source is still in the directory, then and afterwards.
    The same happens when [spawn] itself throws (out of memory), and when
    the compiled C++ program cannot be spawned both the source and the
    binary stay. *)
Theorem temporary_file_left_when_spawn_is_not_reported :
  (exists ws,
     settlement (executeJavaScript no_JSON "function f(a) { return []; }" three_sum_case_2
                   interpreter_cannot_be_spawned empty_world)
     = Some (ws, RejectedWith "Cannot read properties of undefined (reading 'on')")
     /\ script_tempFile ".js" interpreter_cannot_be_spawned ∈ files ws)
  /\ snd (executeSingleTest no_JSON "function f(a) { return []; }" "javascript"
            three_sum_case_2 1 interpreter_cannot_be_spawned empty_world)
     = Fulfilled (failed_result three_sum_case_2 1 interpreter_cannot_be_spawned
                    "Cannot read properties of undefined (reading 'on')")
  /\ script_tempFile ".js" interpreter_cannot_be_spawned
     ∈ files (fst (executeSingleTest no_JSON "function f(a) { return []; }" "javascript"
                     three_sum_case_2 1 interpreter_cannot_be_spawned empty_world))
  /\ (exists message,
        snd (executeSingleTest no_JSON "def f(a): return []" "python"
               three_sum_case_2 1 out_of_memory empty_world)
        = Fulfilled (failed_result three_sum_case_2 1 out_of_memory message))
  /\ script_tempFile ".py" out_of_memory
     ∈ files (fst (executeSingleTest no_JSON "def f(a): return []" "python"
                     three_sum_case_2 1 out_of_memory empty_world))
  /\ cpp_tempFile binary_cannot_be_spawned
     ∈ files (final (executeCpp "vector<vector<int>> f(vector<int>& a) { return {}; }"
                       three_sum_case_2 binary_cannot_be_spawned empty_world))
  /\ cpp_executableFile binary_cannot_be_spawned
     ∈ files (final (executeCpp "vector<vector<int>> f(vector<int>& a) { return {}; }"
                       three_sum_case_2 binary_cannot_be_spawned empty_world)).
Proof.
  split; [|split; [|split; [|split; [|split; [|split]]]]].
  - eexists. split; [reflexivity|]. simpl. set_solver.
  - reflexivity.
  - simpl. set_solver.
  - eexists. reflexivity.
  - simpl. set_solver.
  - simpl. set_solver.
  - simpl. set_solver.
Qed.

(** ** One result per test case *)

Lemma or_default_nonempty (s d : string) : d <> "" -> or_default s d <> "".
Proof.
  intros Hd. unfold or_default. destruct s; [exact Hd | discriminate].
Qed.

Lemma prefixed_nonempty (a : ascii) (x y : string) : String a x ++ y <> "".
Proof. rewrite append_cons. discriminate. Qed.

Lemma write_failure_nonempty (errno p : string) : write_failure errno p <> "".
Proof.
  unfold write_failure. destruct errno as [|a errno]; [|apply prefixed_nonempty].
  rewrite append_nil_l. apply prefixed_nonempty.
Qed.

(** Solves "this rejection message is not empty" for the messages the
    service builds. *)
Ltac message_nonempty :=
  first [ apply or_default_nonempty; discriminate
        | apply prefixed_nonempty
        | apply write_failure_nonempty
        | discriminate
        | congruence
        | repeat case_match; simplify_eq;
          first [ apply prefixed_nonempty | discriminate | congruence ] ].

Lemma thrown_at_spawn_nonempty (child : ChildOutcome) (exception : string) :
  thrown_at_spawn child = Some exception -> exception <> "".
Proof.
  unfold thrown_at_spawn. repeat case_match; intros ?; simplify_eq; message_nonempty.
Qed.

Lemma interpreted_message (cmd ext : string) (parse : string -> JsValue)
    (e : Env) (w ws : World) (message : string) :
  settlement (interpreted cmd ext parse e w) = Some (ws, RejectedWith message) ->
  message <> "".
Proof.
  unfold interpreted, deliver, thrown_before_listeners, script_on_error,
    script_on_close, settled_at.
  repeat case_match; simpl; intros ?; simplify_eq/=;
    first [ message_nonempty | eapply thrown_at_spawn_nonempty; eassumption ].
Qed.

Lemma executeCpp_message (code : string) (tc : TestCase) (e : Env)
    (w ws : World) (message : string) :
  settlement (executeCpp code tc e w) = Some (ws, RejectedWith message) ->
  message <> "".
Proof.
  unfold executeCpp, deliver, thrown_before_listeners, cpp_compile_on_error,
    cpp_compile_failed, cpp_run_on_error, cpp_run_on_close, settled_at, cpp_inputString.
  repeat case_match; simpl; intros ?; simplify_eq/=;
    first [ message_nonempty | eapply thrown_at_spawn_nonempty; eassumption ].
Qed.

(** The promise of an interpreted run is always settled: both of its
    spawn sites are in the executor function. *)
Lemma interpreted_settles (cmd ext : string) (parse : string -> JsValue)
    (e : Env) (w : World) :
  exists ws s, settlement (interpreted cmd ext parse e w) = Some (ws, s).
Proof.
  unfold interpreted.
  destruct (write_error e) as [errno|]; [eexists _, _; reflexivity|].
  destruct (run e) as [errno errnum|code output err];
    unfold deliver, thrown_before_listeners, script_on_error, script_on_close.
  - destruct (thrown_at_spawn (SpawnFailed errno errnum)); [eexists _, _; reflexivity|].
    rewrite (unlink_present (script_tempFile ext e)) by (simpl; set_solver).
    rewrite (unlink_absent (script_tempFile ext e)) by (simpl; set_solver).
    eexists _, _; reflexivity.
  - rewrite (unlink_present (script_tempFile ext e)) by (simpl; set_solver).
    destruct (exit_nonzero code); eexists _, _; reflexivity.
Qed.

(** That of [executeCpp] stays unsettled exactly when the compiler exits
    with code 0 and the spawn of the binary throws in the compiler's
    ['close'] listener. *)
Lemma executeCpp_settles (code : string) (tc : TestCase) (e : Env) (w : World) :
  if cpp_never_settles tc e
  then settlement (executeCpp code tc e w) = None
  else exists ws s, settlement (executeCpp code tc e w) = Some (ws, s).
Proof.
  unfold executeCpp, cpp_never_settles, compile_succeeded, reported.
  pose proof (cpp_names_differ e) as Hne.
  set (tempFile := cpp_tempFile e) in *.
  set (exe := cpp_executableFile e) in *.
  destruct (cpp_inputString (input tc)) as [inputString|msg];
    [|eexists _, _; reflexivity].
  destruct (write_error e) as [errno|]; [eexists _, _; reflexivity|].
  destruct (compile e) as [errno errnum|compileCode compileOut compileError].
  { unfold deliver, thrown_before_listeners, cpp_compile_on_error, cpp_compile_failed.
    simpl andb.
    destruct (thrown_at_spawn (SpawnFailed errno errnum)); [eexists _, _; reflexivity|].
    rewrite (unlink_present tempFile) by (simpl; set_solver).
    rewrite (unlink_absent tempFile) by (simpl; set_solver).
    eexists _, _; reflexivity. }
  destruct (exit_nonzero compileCode); simpl.
  { unfold cpp_compile_failed.
    rewrite (unlink_present tempFile) by (simpl; set_solver).
    eexists _, _; reflexivity. }
  destruct (run e) as [errno errnum|runCode output err];
    unfold deliver, thrown_before_listeners, cpp_run_on_error, cpp_run_on_close.
  - destruct (thrown_at_spawn (SpawnFailed errno errnum)); simpl; [reflexivity|].
    rewrite (unlink_present tempFile) by (simpl; set_solver).
    rewrite (unlink_present exe) by (simpl; set_solver).
    rewrite (unlink_absent tempFile) by (simpl; set_solver).
    eexists _, _; reflexivity.
  - simpl. rewrite (unlink_present tempFile) by (simpl; set_solver).
    rewrite (unlink_present exe) by (simpl; set_solver).
    destruct (exit_nonzero runCode); eexists _, _; reflexivity.
Qed.

Section Results.

Variable JSON_parse : string -> option JsValue.
Variables code language : string.

(** Every rejection that reaches the [catch] carries a message. *)
Lemma rejection_message_nonempty (tc : TestCase) (e : Env) (w w' : World)
    (message : string) :
  dispatch JSON_parse code language tc e w = (w', Rejected message) ->
  message <> "".
Proof.
  unfold dispatch, execution, executeJavaScript, executePython.
  assert (Ha : forall x, awaited x = (w', Rejected message) ->
               exists ws, settlement x = Some (ws, RejectedWith message)).
  { intros x. unfold awaited. repeat case_match; intros [= <- <-]; simplify_eq.
    eexists. reflexivity. }
  repeat case_match; simplify_eq.
  - intros H. destruct (Ha _ H) as [ws Hs]. exact (interpreted_message _ _ _ _ _ _ _ Hs).
  - intros H. destruct (Ha _ H) as [ws Hs]. exact (interpreted_message _ _ _ _ _ _ _ Hs).
  - intros H. destruct (Ha _ H) as [ws Hs]. exact (executeCpp_message _ _ _ _ _ _ Hs).
  - intros [= <- <-]. apply prefixed_nonempty.
Qed.

(** The awaited call comes back unless the promise of [executeCpp] stays
    unsettled. *)
Lemma dispatch_comes_back (tc : TestCase) (e : Env) (w : World) :
  comes_back (snd (dispatch JSON_parse code language tc e w))
  = negb (never_settles language tc e).
Proof.
  assert (Ha : forall x, (exists ws s, settlement x = Some (ws, s)) ->
               comes_back (snd (awaited x)) = true).
  { intros x (ws & s & Hs). unfold awaited. rewrite Hs. destruct s; reflexivity. }
  unfold dispatch, execution, never_settles, executeJavaScript, executePython.
  destruct (String.eqb (toLowerCase language) "javascript") eqn:Hjs.
  { apply String.eqb_eq in Hjs. rewrite Hjs. apply Ha, interpreted_settles. }
  destruct (String.eqb (toLowerCase language) "python") eqn:Hpy.
  { apply String.eqb_eq in Hpy. rewrite Hpy. apply Ha, interpreted_settles. }
  destruct (String.eqb (toLowerCase language) "c++"); [|reflexivity].
  pose proof (executeCpp_settles code tc e w) as Hs.
  destruct (cpp_never_settles tc e); simpl.
  - unfold awaited. rewrite Hs. reflexivity.
  - apply Ha, Hs.
Qed.

(** Unless the promise stays unsettled, [executeSingleTest] returns a
    record for its test case. *)
Lemma executeSingleTest_returns (tc : TestCase) (n : nat) (e : Env) (w : World) :
  never_settles language tc e = false ->
  exists w' r,
    executeSingleTest JSON_parse code language tc n e w = (w', Fulfilled r)
    /\ testCase r = "Test Case " ++ pretty n
    /\ res_input r = input tc
    /\ res_expectedOutput r = expectedOutput tc
    /\ (forall message,
          snd (dispatch JSON_parse code language tc e w) = Rejected message ->
          passed r = false /\ error r = Some message /\ message <> "").
Proof.
  intros Hsettles.
  pose proof (dispatch_comes_back tc e w) as Hs. rewrite Hsettles in Hs.
  pose proof (rejection_message_nonempty tc e w) as Hm.
  unfold executeSingleTest.
  destruct (dispatch JSON_parse code language tc e w) as [w' [v|m|m]];
    simpl in Hs; [| |discriminate].
  - exists w', (completed_result tc n e v).
    do 4 (split; [reflexivity|]). discriminate.
  - exists w', (failed_result tc n e m).
    do 4 (split; [reflexivity|]).
    intros message [= <-].
    do 2 (split; [reflexivity|]). apply (Hm w'). reflexivity.
Qed.

(** When it does stay unsettled, [executeSingleTest] does not return: the
    exception was thrown in a listener, outside its [try]. *)
Lemma executeSingleTest_never_returns (tc : TestCase) (n : nat) (e : Env) (w : World) :
  never_settles language tc e = true ->
  exists w' exception,
    executeSingleTest JSON_parse code language tc n e w = (w', NeverSettles exception).
Proof.
  intros Hnever.
  pose proof (dispatch_comes_back tc e w) as Hs. rewrite Hnever in Hs.
  unfold executeSingleTest.
  destruct (dispatch JSON_parse code language tc e w) as [w' [v|m|m]];
    simpl in Hs; try discriminate.
  exists w', m. reflexivity.
Qed.

Lemma executeTests_loop_returns (env : nat -> Env) (testCases : list TestCase) :
  forall (i : nat) (acc : list ExecutionResult) (w : World),
  (forall j tc, testCases !! j = Some tc ->
     never_settles language tc (env (i + j)%nat) = false) ->
  exists w' rs,
    executeTests_loop JSON_parse code language env i testCases acc w
    = (w', Fulfilled (acc ++ rs)%list)
    /\ length rs = length testCases
    /\ forall j tc, testCases !! j = Some tc ->
         exists r wj wj',
           rs !! j = Some r
           /\ executeSingleTest JSON_parse code language tc (i + j + 1) (env (i + j)%nat) wj
              = (wj', Fulfilled r).
Proof.
  induction testCases as [|tc rest IH]; intros i acc w Hsettles.
  - exists w, []. rewrite app_nil_r. repeat split. intros j tc [=].
  - simpl.
    destruct (executeSingleTest_returns tc (i + 1) (env i) w)
      as (w1 & r1 & Hrun & _).
    { specialize (Hsettles 0%nat tc eq_refl). rewrite Nat.add_0_r in Hsettles.
      exact Hsettles. }
    rewrite Hrun.
    destruct (IH (S i) (acc ++ [r1])%list w1) as (w' & rs & Hloop & Hlen & Hnth).
    { intros j tc' Htc'. replace (S i + j)%nat with (i + S j)%nat by lia.
      apply (Hsettles (S j) tc' Htc'). }
    exists w', (r1 :: rs). rewrite Hloop, <- app_assoc. simpl.
    repeat split; [f_equal; exact Hlen|].
    intros [|j] tc' Htc.
    + injection Htc as <-. exists r1, w, w1.
      rewrite !Nat.add_0_r. split; [reflexivity | exact Hrun].
    + destruct (Hnth j tc' Htc) as (r & wj & wj' & Hr & Hj).
      exists r, wj, wj'. split; [exact Hr|].
      replace (i + S j)%nat with (S i + j)%nat by lia. exact Hj.
Qed.

(** As long as every promise is settled, which is always so for JavaScript
    and Python, [executeTests] returns one record per test case, in order,
    and a failed execution gives a record with [passed = false] and a
    non-empty [error]. *)
Lemma executeTests_returns_when_promises_settle
    (testCases : list TestCase) (env : nat -> Env) (w : World) :
  (forall i tc, testCases !! i = Some tc -> never_settles language tc (env i) = false) ->
  exists w' results,
    executeTests JSON_parse code language testCases env w = (w', Fulfilled results)
    /\ length results = length testCases
    /\ forall i tc, testCases !! i = Some tc ->
         exists r wi wi',
           results !! i = Some r
           /\ executeSingleTest JSON_parse code language tc (i + 1) (env i) wi
              = (wi', Fulfilled r)
           /\ testCase r = "Test Case " ++ pretty (i + 1)%nat
           /\ res_input r = input tc
           /\ res_expectedOutput r = expectedOutput tc
           /\ (forall message,
                 snd (dispatch JSON_parse code language tc (env i) wi) = Rejected message ->
                 passed r = false /\ error r = Some message /\ message <> "").
Proof.
  intros Hsettles.
  destruct (executeTests_loop_returns env testCases 0 [] w Hsettles)
    as (w' & rs & Hloop & Hlen & Hnth).
  exists w', rs. unfold executeTests. rewrite Hloop. simpl.
  repeat split; [exact Hlen|].
  intros i tc Htc.
  destruct (Hnth i tc Htc) as (r & wi & wi' & Hr & Hrun).
  simpl in Hrun.
  destruct (executeSingleTest_returns tc (i + 1) (env i) wi (Hsettles i tc Htc))
    as (w2 & r2 & Hrun2 & Hname & Hin & Hexp & Hfail).
  rewrite Hrun in Hrun2. injection Hrun2 as <- <-.
  exists r, wi, wi'. do 5 (split; [assumption|]). exact Hfail.
Qed.

End Results.

(** C1 at a failing input: a C++ submission that compiles, on a host at
    its limit of open files.  The compiled program is spawned in the
    ['close'] listener of the compiler; [spawn] returns a child without
    pipes and [child.stdout.on] throws a [TypeError] there, outside every
    [try] and before [resolve] or [reject] is reached.  The promise of
    [executeCpp] for the first test case is never settled, so neither the
    loop of [executeTests] nor its [catch] ever continues: no list is
    returned.  When the compiler itself cannot be spawned, the rejection
    does reach the [catch] of [executeSingleTest], and the call returns a
    failed record per test case. *)
Theorem executeTests_never_returns_when_binary_spawn_throws :
  settlement (executeCpp "vector<vector<int>> threeSum(vector<int>& nums) { return {}; }"
                three_sum_case_1 binary_cannot_be_spawned empty_world)
  = None
  /\ uncaught (executeCpp "vector<vector<int>> threeSum(vector<int>& nums) { return {}; }"
                 three_sum_case_1 binary_cannot_be_spawned empty_world)
     = Some "Cannot read properties of undefined (reading 'on')"
  /\ snd (executeTests no_JSON
            "vector<vector<int>> threeSum(vector<int>& nums) { return {}; }" "C++"
            [three_sum_case_1; three_sum_case_2]
            (fun _ => binary_cannot_be_spawned) empty_world)
     = NeverSettles "Cannot read properties of undefined (reading 'on')"
  /\ snd (executeTests no_JSON
            "vector<vector<int>> threeSum(vector<int>& nums) { return {}; }" "C++"
            [three_sum_case_1; three_sum_case_2] (fun _ => compiler_missing) empty_world)
     = Fulfilled [ failed_result three_sum_case_1 1 compiler_missing "spawn g++ ENOENT";
                   failed_result three_sum_case_2 2 compiler_missing "spawn g++ ENOENT" ].
Proof. repeat split; vm_compute; reflexivity. Qed.

(** ** A submission that does not compile *)

Section CompileFailure.

Variable JSON_parse : string -> option JsValue.
Variables code language : string.
Hypothesis language_is_cpp : toLowerCase language = "c++".

Lemma dispatch_cpp (tc : TestCase) (e : Env) (w : World) :
  dispatch JSON_parse code language tc e w = awaited (executeCpp code tc e w).
Proof. unfold dispatch, execution. rewrite language_is_cpp. reflexivity. Qed.

Lemma executeCpp_compile_failure (tc : TestCase) (e : Env) (w : World)
    (inputString : string) :
  cpp_inputString (input tc) = inl inputString ->
  compile_failed e = true ->
  exists w',
    executeCpp code tc e w
    = settled_at w' (RejectedWith ("Compilation failed: " ++ compile_stderr e))
    /\ spawned w' = (spawned w ++ ["g++"])%list.
Proof.
  intros Hin Hfail. unfold executeCpp, compile_failed, compile_stderr in *.
  rewrite Hin.
  destruct (write_error e) as [errno|]; [discriminate|].
  destruct (compile e) as [errno errnum|compileCode compileOut compileError];
    [discriminate|].
  rewrite Hfail. unfold cpp_compile_failed.
  rewrite (unlink_present (cpp_tempFile e)) by (simpl; set_solver).
  eexists. split; reflexivity.
Qed.

(** The record of a test case whose compilation failed. *)
Lemma loop_compile_failure (env : nat -> Env) (testCases : list TestCase) :
  forall (i : nat) (acc : list ExecutionResult) (w : World),
  (forall j tc, testCases !! j = Some tc ->
     (exists inputString, cpp_inputString (input tc) = inl inputString)
     /\ compile_failed (env (i + j)%nat) = true) ->
  exists w',
    executeTests_loop JSON_parse code language env i testCases acc w
    = (w', Fulfilled
             (acc ++ imap (fun j tc =>
                             failed_result tc (i + j + 1) (env (i + j)%nat)
                               ("Compilation failed: " ++ compile_stderr (env (i + j)%nat)))
                          testCases)%list)
    /\ spawned w' = (spawned w ++ replicate (length testCases) "g++")%list.
Proof.
  induction testCases as [|tc rest IH]; intros i acc w Hall.
  - exists w. simpl. rewrite !app_nil_r. split; reflexivity.
  - destruct (Hall 0%nat tc eq_refl) as [[inputString Hin] Hfail].
    rewrite Nat.add_0_r in Hfail.
    destruct (executeCpp_compile_failure tc (env i) w inputString Hin Hfail)
      as (w1 & Hrun & Hspawn).
    destruct (IH (S i) (acc ++ [failed_result tc (i + 1) (env i)
                 ("Compilation failed: " ++ compile_stderr (env i))])%list w1)
      as (w' & Hloop & Hspawn').
    { intros j tc' Htc'. replace (S i + j)%nat with (i + S j)%nat by lia.
      apply (Hall (S j) tc' Htc'). }
    exists w'. simpl. unfold executeSingleTest. rewrite dispatch_cpp, Hrun.
    unfold awaited, settled_at. simpl. rewrite Hloop.
    split.
    + rewrite <- app_assoc. simpl. rewrite !Nat.add_0_r.
      do 4 f_equal. apply imap_ext. intros j tc' _. simpl.
      replace (i + S j)%nat with (S (i + j)) by lia. reflexivity.
    + rewrite Hspawn', Hspawn, <- app_assoc. reflexivity.
Qed.

End CompileFailure.

(** C3 (as the code has it): compilation is not shared across the run.
    [executeCpp] compiles the submission again for every test case, so when
    the compiler fails on each of them, [executeTests] still returns one
    record per test case, every one with [passed = false], the actual
    output "Execution Error" and the error "Compilation failed: " followed
    by the compiler's stderr; the compiler has been spawned once per test
    case. *)
Theorem compile_failure_reported_per_test_case
    (JSON_parse : string -> option JsValue) (code language : string)
    (testCases : list TestCase) (env : nat -> Env) (w : World) :
  toLowerCase language = "c++" ->
  (forall i tc, testCases !! i = Some tc ->
     (exists inputString, cpp_inputString (input tc) = inl inputString)
     /\ compile_failed (env i) = true) ->
  exists w',
    executeTests JSON_parse code language testCases env w
    = (w', Fulfilled
             (imap (fun i tc =>
                      failed_result tc (i + 1) (env i)
                        ("Compilation failed: " ++ compile_stderr (env i)))
                   testCases))
    /\ spawned w' = (spawned w ++ replicate (length testCases) "g++")%list.
Proof.
  intros Hlang Hall.
  destruct (loop_compile_failure JSON_parse code language Hlang env testCases 0 [] w Hall)
    as (w' & Hloop & Hspawn).
  exists w'. unfold executeTests. rewrite Hloop. split; [reflexivity | exact Hspawn].
Qed.

Lemma compile_failure_reported_per_test_case_witness :
  exists w',
    executeTests no_JSON "int f() { return 0 }" "C++"
      [three_sum_case_1; three_sum_case_2] (fun _ => missing_semicolon) empty_world
    = (w', Fulfilled
             [ failed_result three_sum_case_1 1 missing_semicolon
                 "Compilation failed: error: expected ';' before '}' token";
               failed_result three_sum_case_2 2 missing_semicolon
                 "Compilation failed: error: expected ';' before '}' token" ])
    /\ spawned w' = ["g++"; "g++"].
Proof.
  apply (compile_failure_reported_per_test_case no_JSON "int f() { return 0 }" "C++"
           [three_sum_case_1; three_sum_case_2] (fun _ => missing_semicolon) empty_world).
  - reflexivity.
  - intros [|[|i]] tc [=]; subst tc; (split; [eexists; reflexivity | reflexivity]).
Defined.

(** C3 (as stated) fails: with two test cases and a compiler that rejects
    the submission, the call does not fail as a whole and does not return a
    single record; it returns two records, and [g++] has run twice. *)
Lemma compile_error_is_not_reported_once :
  ~ reported_once_for_the_batch
      (snd (executeTests no_JSON "int f() { return 0 }" "C++"
              [three_sum_case_1; three_sum_case_2] (fun _ => missing_semicolon) empty_world))
      (fst (executeTests no_JSON "int f() { return 0 }" "C++"
              [three_sum_case_1; three_sum_case_2] (fun _ => missing_semicolon) empty_world)).
Proof.
  destruct (loop_compile_failure no_JSON "int f() { return 0 }" "C++" eq_refl
              (fun _ => missing_semicolon) [three_sum_case_1; three_sum_case_2]
              0 [] empty_world) as (w' & Hloop & Hspawn).
  { intros [|[|i]] tc [=]; subst tc; (split; [eexists; reflexivity | reflexivity]). }
  unfold executeTests. rewrite Hloop. simpl.
  intros [[[message [=]]|[r [[=] _]]] _].
Qed.

(** ** Parsed output and [String()] *)

Lemma interpreted_exit_0 (cmd ext : string) (parse : string -> JsValue)
    (e : Env) (w : World) (output err : string) :
  write_error e = None ->
  run e = Closed (Some 0) output err ->
  exists w', interpreted cmd ext parse e w = settled_at w' (Resolved (parse output)).
Proof.
  intros Hwrite Hrun. unfold interpreted. rewrite Hwrite, Hrun.
  unfold deliver, script_on_close.
  rewrite (unlink_present (script_tempFile ext e)) by (simpl; set_solver).
  eexists. reflexivity.
Qed.

Lemma compareOutputs_String (actual expected : JsValue) :
  compareOutputs actual expected
  = compareOutputs (JStr (ToString actual)) (JStr (ToString expected)).
Proof. reflexivity. Qed.

Section ParsedOutput.

Variable JSON_parse : string -> option JsValue.

Lemma parse_js_stdout_parsed (output : string) (v : JsValue) :
  JSON_parse (js_parsed_text output) = Some v ->
  parse_js_stdout JSON_parse output = v.
Proof.
  unfold parse_js_stdout, js_parsed_text.
  destruct (match_actual_output output); intros ->; reflexivity.
Qed.

End ParsedOutput.

(** C9: [compareOutputs] sees its arguments only through [String()].  When
    a JavaScript run exits with code 0 and the text taken from its stdout
    parses as JSON, or a Python run exits with code 0 and its trimmed
    stdout parses as JSON, the parsed value is the record's actual output,
    and the verdict is the comparison of its [String()] form with that of
    the expected output.  For the array [[1, 2]] that form is "1,2": it
    equals no bracketed text such as "[1,2]". *)
Theorem parsed_output_compared_by_String
    (JSON_parse : string -> option JsValue) (code : string) (tc : TestCase)
    (n : nat) (e_js e_py : Env) (w : World)
    (out_js err_js out_py err_py : string) (v_js v_py : JsValue) :
  write_error e_js = None ->
  run e_js = Closed (Some 0) out_js err_js ->
  JSON_parse (js_parsed_text out_js) = Some v_js ->
  write_error e_py = None ->
  run e_py = Closed (Some 0) out_py err_py ->
  JSON_parse (trim out_py) = Some v_py ->
  (exists w',
     executeSingleTest JSON_parse code "javascript" tc n e_js w
     = (w', Fulfilled (completed_result tc n e_js v_js)))
  /\ (exists w',
        executeSingleTest JSON_parse code "python" tc n e_py w
        = (w', Fulfilled (completed_result tc n e_py v_py)))
  /\ actualOutput (completed_result tc n e_js v_js) = v_js
  /\ passed (completed_result tc n e_js v_js)
     = String.eqb (normalize (JStr (ToString v_js)))
                  (normalize (JStr (ToString (expectedOutput tc))))
  /\ ToString (JArr [JNum 1; JNum 2]) = "1,2"
  /\ (forall expected,
        compareOutputs (JArr [JNum 1; JNum 2]) expected
        = compareOutputs (JStr "1,2") expected)
  /\ compareOutputs (JArr [JNum 1; JNum 2]) (JStr "[1,2]") = false
  /\ compareOutputs (JArr [JNum 1; JNum 2]) (JStr "1,2") = true.
Proof.
  intros Hwjs Hjs Hvjs Hwpy Hpy Hvpy.
  split; [|split].
  - unfold executeSingleTest, dispatch, execution, executeJavaScript. simpl.
    destruct (interpreted_exit_0 "node" ".js" (parse_js_stdout JSON_parse)
                e_js w out_js err_js Hwjs Hjs) as [w' ->].
    rewrite (parse_js_stdout_parsed JSON_parse out_js v_js Hvjs).
    exists w'. reflexivity.
  - unfold executeSingleTest, dispatch, execution, executePython. simpl.
    destruct (interpreted_exit_0 "python3" ".py" (parse_py_stdout JSON_parse)
                e_py w out_py err_py Hwpy Hpy) as [w' ->].
    unfold parse_py_stdout. rewrite Hvpy.
    exists w'. reflexivity.
  - repeat split; reflexivity.
Qed.

Lemma parsed_output_compared_by_String_witness :
  (exists w',
     executeSingleTest JSON_parse_sample "function f(a) { return a.sort() }" "javascript"
       expects_bracketed_array 1 node_prints_array empty_world
     = (w', Fulfilled (completed_result expects_bracketed_array 1 node_prints_array
                         (JArr [JNum 1; JNum 2]))))
  /\ passed (completed_result expects_bracketed_array 1 node_prints_array
               (JArr [JNum 1; JNum 2])) = false.
Proof.
  destruct (parsed_output_compared_by_String JSON_parse_sample
              "function f(a) { return a.sort() }" expects_bracketed_array 1
              node_prints_array python_prints_array empty_world
              ("ACTUAL_OUTPUT: [1,2]" ++ newline) "" ("[1, 2]" ++ newline) ""
              (JArr [JNum 1; JNum 2]) (JArr [JNum 1; JNum 2])
              eq_refl eq_refl eq_refl eq_refl eq_refl eq_refl)
    as (Hjs & _ & _ & Hpassed & _).
  split; [exact Hjs | reflexivity].
Defined.

(** ** Hints *)

Import CandidateCoding.

Lemma startsWith_prefix (p s : string) :
  startsWith p s = true <-> exists rest, s = p ++ rest.
Proof.
  revert s. induction p as [|a p IH]; intros s; simpl.
  - split; [intros _; exists s; reflexivity | reflexivity].
  - destruct s as [|b s].
    + split; [discriminate | intros [rest H]; discriminate H].
    + rewrite andb_true_iff, IH. split.
      * intros [Hab [rest ->]]. apply Ascii.eqb_eq in Hab as ->.
        exists rest. reflexivity.
      * intros [rest H]. rewrite append_cons in H. injection H as -> ->.
        split; [apply Ascii.eqb_refl | exists rest; reflexivity].
Qed.

(** [includes] is substring search. *)
Lemma includes_substring (s p : string) :
  includes s p = true <-> exists before rest, s = before ++ p ++ rest.
Proof.
  induction s as [|c s IH]; simpl; rewrite orb_true_iff, startsWith_prefix.
  - split.
    + intros [[rest H]|H]; [|discriminate]. exists "", rest. exact H.
    + intros [[|b before] [rest H]]; [left; exists rest; exact H|discriminate H].
  - rewrite IH. split.
    + intros [[rest H]|[before [rest H]]].
      * exists "", rest. exact H.
      * exists (String c before), rest. rewrite append_cons, <- H. reflexivity.
    + intros [[|b before] [rest H]].
      * left. exists rest. exact H.
      * right. rewrite append_cons in H. injection H as -> ->.
        exists before, rest. reflexivity.
Qed.

(** ** The hint tier *)

(** On a well-formed state [triggerHint] never throws: below the cap it
    moves one tier up and resets the idle timer and the error count, at the
    cap it does nothing. *)
Lemma triggerHint_effect (s : State) :
  tier_invariant s ->
  triggerHint s
  = Some (if hintTier s <? 3 then set_hints (hintTier s + 1) None 0 s else s).
Proof.
  intros [[Hlo Hhi] [Hplo Hphi]]. unfold triggerHint.
  destruct (hintTier s <? 3) eqn:Hcap; [|reflexivity].
  apply Z.ltb_lt in Hcap.
  assert (Hp : currentProblem s = 0 \/ currentProblem s = 1) by lia.
  assert (Ht : hintTier s = 0 \/ hintTier s = 1 \/ hintTier s = 2) by lia.
  unfold generateHint.
  destruct Hp as [-> | ->], Ht as [-> | [-> | ->]]; reflexivity.
Qed.

Lemma checkForHint_effect (now : Z) (s : State) :
  tier_invariant s ->
  checkForHint now s
  = Some (match firing_rule now s with
          | Some _ => set_hints (hintTier s + 1) None 0 s
          | None => s
          end).
Proof.
  intros Hinv. unfold checkForHint.
  destruct (firing_rule now s) as [rule|] eqn:Hrule; [|reflexivity].
  rewrite (triggerHint_effect s Hinv).
  assert (Hcap : (hintTier s <? 3) = true).
  { unfold firing_rule, idle_rule, errors_rule, smell_rule in Hrule.
    destruct (hintTier s <? 3); [reflexivity|].
    destruct (idleStartTime s); rewrite ?andb_false_r in Hrule; discriminate. }
  rewrite Hcap. reflexivity.
Qed.

Lemma step_preserves_invariant (s s' : State) (e : Event) (now : Z) :
  tier_invariant s -> step s e now s' -> tier_invariant s'.
Proof.
  intros Hinv Hstep. pose proof Hinv as [[Hlo Hhi] [Hplo Hphi]].
  destruct Hstep; unfold tier_invariant; simpl; try lia.
  - (* HintCheck *)
    rewrite (checkForHint_effect now s Hinv) in H0. injection H0 as <-.
    destruct (firing_rule now s) eqn:Hrule; simpl; [|lia].
    unfold firing_rule, idle_rule, errors_rule, smell_rule in Hrule.
    destruct (hintTier s <? 3) eqn:Hcap; [apply Z.ltb_lt in Hcap; lia|].
    destruct (idleStartTime s); rewrite ?andb_false_r in Hrule; discriminate.
  - (* StuckCheck *)
    unfold moveToNextProblem, has_next_problem. simpl.
    destruct (currentProblem s <? Z.of_nat 2 - 1) eqn:Hnext; simpl; [|lia].
    apply Z.ltb_lt in Hnext. lia.
  - (* ResponseRequested *)
    unfold request_ai_response. destruct (canSendAIResponse now s); simpl; lia.
  - (* CountdownTick *)
    unfold countdown_tick. repeat case_match; simpl; lia.
Qed.

Lemma reachable_invariant (s : State) : reachable s -> tier_invariant s.
Proof.
  induction 1 as [|s e now s' _ IH Hstep].
  - unfold tier_invariant. simpl. lia.
  - exact (step_preserves_invariant s s' e now IH Hstep).
Qed.

Lemma smell_rule_once (code : string) (tier : Z) :
  smell_rule code tier = includes code "for" && (tier <? 3).
Proof. unfold smell_rule. destruct (includes code "for"); reflexivity. Qed.

Lemma firing_rule_any (now : Z) (s : State) :
  (match firing_rule now s with Some _ => true | None => false end)
  = idle_rule now s || errors_rule s
    || (includes (CandidateCoding.code s) "for" && (hintTier s <? 3)).
Proof.
  unfold firing_rule. rewrite smell_rule_once.
  destruct (idle_rule now s), (errors_rule s),
    (includes (CandidateCoding.code s) "for" && (hintTier s <? 3)); reflexivity.
Qed.

(** C10 (as the code has it): the three rules of [checkForHint] are tried
    in order and the first that holds triggers the hint.  The guard of
    rule 3 holds exactly when the code contains the text "for" somewhere
    and the hint tier is below 3 (asking [includes] three times adds
    nothing), and rule 3 is the one that fires exactly when that is so and
    neither the idle rule nor the error rule has fired before it.  In every
    state the component can reach, [checkForHint] moves the tier up by one
    and resets the idle timer and the error count when one of the three
    rules holds, and changes nothing otherwise; so whenever the code
    contains "for" and the tier is below 3, a hint is triggered, by rule 3
    or by an earlier rule. *)
Theorem smell_rule_fires_unless_an_earlier_rule_does (now : Z) (s : State) :
  reachable s ->
  (smell_rule (CandidateCoding.code s) (hintTier s) = true
   <-> (exists before rest, CandidateCoding.code s = before ++ "for" ++ rest)
       /\ hintTier s < 3)
  /\ (firing_rule now s = Some SmellRule
      <-> idle_rule now s = false /\ errors_rule s = false
          /\ includes (CandidateCoding.code s) "for" = true /\ hintTier s < 3)
  /\ checkForHint now s
     = Some (if idle_rule now s || errors_rule s
                || (includes (CandidateCoding.code s) "for" && (hintTier s <? 3))
             then set_hints (hintTier s + 1) None 0 s
             else s)
  /\ (includes (CandidateCoding.code s) "for" = true ->
      hintTier s < 3 ->
      exists s', checkForHint now s = Some s'
                 /\ hintTier s' = hintTier s + 1
                 /\ idleStartTime s' = None
                 /\ syntaxErrors s' = 0)
  /\ (idle_rule now s = false ->
      errors_rule s = false ->
      includes (CandidateCoding.code s) "for" = false \/ 3 <= hintTier s ->
      checkForHint now s = Some s).
Proof.
  intros Hreach.
  pose proof (reachable_invariant s Hreach) as Hinv.
  pose proof (checkForHint_effect now s Hinv) as Hcheck.
  pose proof (firing_rule_any now s) as Hany.
  assert (Hfires : checkForHint now s
                   = Some (if idle_rule now s || errors_rule s
                              || (includes (CandidateCoding.code s) "for"
                                  && (hintTier s <? 3))
                           then set_hints (hintTier s + 1) None 0 s
                           else s)).
  { rewrite Hcheck, <- Hany. destruct (firing_rule now s); reflexivity. }
  split; [|split; [|split; [exact Hfires|split]]].
  - rewrite smell_rule_once, andb_true_iff, includes_substring, Z.ltb_lt. reflexivity.
  - unfold firing_rule. rewrite smell_rule_once.
    destruct (idle_rule now s), (errors_rule s),
      (includes (CandidateCoding.code s) "for"), (Z.ltb_spec (hintTier s) 3);
      simpl; split; try discriminate; try (intros (? & ? & ? & ?); discriminate || lia);
      intros; repeat split; (reflexivity || lia).
  - intros Hfor Htier. apply Z.ltb_lt in Htier.
    rewrite Hfires, Hfor, Htier, !orb_true_r.
    eexists. split; [reflexivity|]. repeat split.
  - intros Hidle Herrors Hnone. rewrite Hfires, Hidle, Herrors.
    destruct Hnone as [-> | Htier]; [reflexivity|].
    apply Z.ltb_ge in Htier. rewrite Htier, andb_false_r. reflexivity.
Qed.

Lemma typed_performance_reachable : reachable typed_performance.
Proof.
  apply (reachable_step initial (CodeTyped "int performance = 0;") 1000).
  - apply reachable_initial.
  - apply step_typed. simpl. lia.
Qed.

Lemma smell_rule_fires_unless_an_earlier_rule_does_witness :
  exists s', checkForHint 120000 typed_performance = Some s'
             /\ hintTier s' = 1
             /\ firing_rule 120000 typed_performance = Some SmellRule.
Proof.
  destruct (smell_rule_fires_unless_an_earlier_rule_does 120000 typed_performance
              typed_performance_reachable)
    as (_ & Hrule & _ & Hhint & _).
  destruct (Hhint eq_refl ltac:(simpl; lia)) as (s' & Hs' & Htier & _).
  exists s'. split; [exact Hs'|]. split; [exact Htier|].
  apply Hrule. do 3 (split; [reflexivity|]). simpl. lia.
Defined.

Lemma three_errors_and_a_loop_reachable : reachable three_errors_and_a_loop.
Proof.
  unfold three_errors_and_a_loop.
  eapply reachable_step; [|apply (step_typed _ "for (i;;" 5000); simpl; lia].
  eapply reachable_step; [|apply (step_typed _ "for (i;" 4000); simpl; lia].
  eapply reachable_step; [|apply (step_typed _ "for (i" 3000); simpl; lia].
  eapply reachable_step; [|apply (step_analysis _ true 2000); simpl; lia].
  eapply reachable_step; [|apply (step_typed _ "for (" 1000); simpl; lia].
  apply reachable_initial.
Qed.

(** C10 (as stated) fails: after three changes of code whose analysis had
    syntax errors, the code contains "for" and the tier is 0, yet the rule
    that fires is the error rule, which comes first; rule 3 is not
    reached. *)
Lemma smell_rule_is_not_always_the_one_that_fires : ~ smell_rule_as_specified.
Proof.
  intros Hspec.
  destruct (Hspec 6000 three_errors_and_a_loop three_errors_and_a_loop_reachable
              ltac:(simpl; lia)) as [_ Hfires].
  specialize (Hfires ltac:(split; [reflexivity | simpl; lia])).
  discriminate Hfires.
Qed.

(** C4: in every state the component can reach the hint tier is at most 3.
    An event that takes the candidate to the next problem sets the tier to
    0; every other event leaves the tier where it was or, when a hint rule
    fires, moves it up by exactly one, and never moves the candidate
    forward.  So the tier never decreases within a problem attempt, and it
    is reset exactly on advancing. *)
Theorem hint_tier_monotone_capped_reset (s s' : State) (e : Event) (now : Z) :
  reachable s ->
  step s e now s' ->
  0 <= hintTier s' <= 3
  /\ (if advances s e
      then hintTier s' = 0 /\ currentProblem s' = currentProblem s + 1
      else hintTier s <= hintTier s' <= hintTier s + 1
           /\ currentProblem s' <= currentProblem s)
  /\ (e = HintCheck ->
      hintTier s' = match firing_rule now s with
                    | Some _ => hintTier s + 1
                    | None => hintTier s
                    end)
  /\ (e <> HintCheck -> advances s e = false -> hintTier s' = hintTier s).
Proof.
  intros Hreach Hstep.
  pose proof (reachable_invariant s Hreach) as Hinv.
  pose proof (step_preserves_invariant s s' e now Hinv Hstep) as [Htier' _].
  split; [exact Htier'|].
  destruct Hinv as [[Hlo Hhi] [Hplo Hphi]].
  assert (Hinv : tier_invariant s) by (unfold tier_invariant; lia).
  destruct Hstep; simpl in *.
  - repeat split; try lia; discriminate.
  - repeat split; try lia; discriminate.
  - rewrite (checkForHint_effect now s Hinv) in H0. injection H0 as <-.
    destruct (firing_rule now s); simpl; repeat split; try lia;
      intros; try congruence; reflexivity.
  - unfold moveToNextProblem.
    destruct (has_next_problem s); simpl; repeat split; try lia; discriminate.
  - repeat split; try lia; discriminate.
  - unfold request_ai_response.
    destruct (canSendAIResponse now s); simpl; repeat split; try lia; discriminate.
  - repeat split; try lia; discriminate.
  - unfold countdown_tick.
    repeat case_match; simpl; repeat split; try lia; discriminate.
Qed.

Lemma typed_a_loop_reachable : reachable typed_a_loop.
Proof.
  apply (reachable_step initial (CodeTyped "for (;;) {}") 1000).
  - apply reachable_initial.
  - apply step_typed. simpl. lia.
Qed.

Lemma hint_tier_monotone_capped_reset_witness :
  hintTier (set_clock 120000 (set_hints 1 None 0 typed_a_loop)) = 0 + 1
  /\ 0 <= hintTier (set_clock 120000 (set_hints 1 None 0 typed_a_loop)) <= 3.
Proof.
  destruct (hint_tier_monotone_capped_reset typed_a_loop
              (set_clock 120000 (set_hints 1 None 0 typed_a_loop))
              HintCheck 120000)
    as (Hcap & _ & Hup & _).
  - exact typed_a_loop_reachable.
  - apply step_hint; [simpl; lia | reflexivity].
  - split; [exact (Hup eq_refl) | exact Hcap].
Defined.

(** ** The automated-response cooldown *)

(** C5 (as the code has it): a request decides on the dispatch time [t]
    and the [aiResponseCooldown] flag of the state it reads.  Less than two
    minutes after [t] it is suppressed: nothing is dispatched, the state is
    unchanged and nothing is thrown.  At least two minutes after [t] it is
    dispatched exactly when the flag is down, and is still suppressed while
    the flag is up.  A dispatch records its time and raises the flag; the
    two-minute timer lowers it when it fires, and so does a countdown tick
    once two minutes have passed. *)
Theorem cooldown_gate (s : State) (t now : Z) :
  lastAIResponseTime s = Some t ->
  (now - t < twoMinutes -> request_ai_response now s = (s, Suppressed))
  /\ (twoMinutes <= now - t ->
      request_ai_response now s
      = if aiResponseCooldown s then (s, Suppressed)
        else (updateAIResponseTime now s, Dispatched))
  /\ (twoMinutes <= now - t -> aiResponseCooldown (countdown_tick now s) = false)
  /\ aiResponseCooldown (cooldown_timer_fires s) = false
  /\ lastAIResponseTime (updateAIResponseTime now s) = Some now
  /\ aiResponseCooldown (updateAIResponseTime now s) = true.
Proof.
  intros Hlast.
  unfold request_ai_response, canSendAIResponse, countdown_tick. rewrite Hlast.
  repeat split.
  - intros Hlt. apply Z.leb_gt in Hlt. rewrite Hlt. reflexivity.
  - intros Hge. apply Z.leb_le in Hge. rewrite Hge.
    destruct (aiResponseCooldown s); reflexivity.
  - intros Hge. apply Z.leb_le in Hge.
    destruct (aiResponseCooldown s) eqn:Hflag; [|exact Hflag].
    rewrite Hge. reflexivity.
Qed.

Lemma cooldown_gate_witness :
  request_ai_response 119999 dispatched_at_0 = (dispatched_at_0, Suppressed)
  /\ request_ai_response 120000 dispatched_at_0 = (dispatched_at_0, Suppressed)
  /\ request_ai_response 120000 (cooldown_timer_fires dispatched_at_0)
     = (updateAIResponseTime 120000 (cooldown_timer_fires dispatched_at_0), Dispatched).
Proof.
  destruct (cooldown_gate dispatched_at_0 0 119999 eq_refl) as (Hearly & _).
  destruct (cooldown_gate dispatched_at_0 0 120000 eq_refl) as (_ & Hup & _).
  destruct (cooldown_gate (cooldown_timer_fires dispatched_at_0) 0 120000 eq_refl)
    as (_ & Hcleared & _).
  split; [apply Hearly; reflexivity|].
  split; [apply Hup; discriminate | apply Hcleared; discriminate].
Defined.

Lemma dispatched_at_0_reachable : reachable dispatched_at_0.
Proof.
  apply (reachable_step initial ResponseRequested 0).
  - apply reachable_initial.
  - apply step_request. simpl. lia.
Qed.

(** C5 (as stated) fails: a request made exactly two minutes after the
    dispatch, before the timer callback has run, is still suppressed. *)
Lemma cooldown_not_as_specified : ~ cooldown_as_specified.
Proof.
  intros Hspec.
  destruct (Hspec dispatched_at_0 0 120000 dispatched_at_0_reachable eq_refl)
    as [_ Hlate].
  - simpl. lia.
  - specialize (Hlate ltac:(unfold twoMinutes; lia)). discriminate Hlate.
Qed.

(** ** Short code on the server *)

Import SocketHandlers.

(** C7 (as the code has it): a [code_change] event whose code is missing or
    has fewer than three characters once trimmed is dropped by the handler:
    the analyzer is not called, no heuristic runs, the socket's state is
    unchanged and no [code_analysis] result is emitted (the only possible
    emission is the error of a failed interview lookup).  The fixed
    "Start coding to see analysis" result with score 0 is what
    [analyzeCodeInRealTime] itself returns, without running a heuristic,
    for missing, empty or blank code; for any other code it runs the
    heuristics. *)
Theorem short_code_is_dropped
    (heuristics : string -> string -> Analysis) (lookup_ok : bool)
    (code : option string) (language : string) (sock : Socket) :
  short_code code = true ->
  on_code_change heuristics lookup_ok code language sock
  = (sock,
     if match currentSession sock with Some _ => true | None => false end
        && negb lookup_ok
     then [EmitError "Failed to analyze code"]
     else [])
  /\ analyzeCodeInRealTime heuristics None language = (getEmptyCodeAnalysis, [])
  /\ (forall c, String.length (trim c) = 0%nat ->
        analyzeCodeInRealTime heuristics (Some c) language = (getEmptyCodeAnalysis, []))
  /\ (forall c, String.length (trim c) <> 0%nat ->
        analyzeCodeInRealTime heuristics (Some c) language
        = (heuristics c language, [RanHeuristics c language]))
  /\ score getEmptyCodeAnalysis = 0
  /\ feedback getEmptyCodeAnalysis = "Start coding to see analysis".
Proof.
  intros Hshort. split; [|split; [reflexivity|split; [|split]]].
  - unfold on_code_change.
    destruct (match currentSession sock with Some _ => true | None => false end
              && negb lookup_ok); [reflexivity|].
    destruct code as [c|]; [|reflexivity].
    simpl in Hshort. rewrite Hshort. reflexivity.
  - intros c Hc. unfold analyzeCodeInRealTime. rewrite Hc. reflexivity.
  - intros c Hc. unfold analyzeCodeInRealTime.
    destruct (String.length (trim c)); [congruence | reflexivity].
  - split; reflexivity.
Qed.

Lemma short_code_is_dropped_witness :
  on_code_change sample_heuristics true (Some " x ") "C++" fresh_socket
  = (fresh_socket, []).
Proof.
  destruct (short_code_is_dropped sample_heuristics true (Some " x ") "C++"
              fresh_socket eq_refl) as [Hdrop _].
  exact Hdrop.
Defined.

(** C7 (as stated) fails: for empty code the handler emits no result at
    all, so no default result with score 0 reaches the client. *)
Lemma short_code_yields_no_result : ~ short_code_yields_default_result.
Proof.
  intros Hspec.
  destruct (Hspec sample_heuristics true (Some "") "C++" fresh_socket eq_refl)
    as (analysis & Hin & _ & _).
  simpl in Hin. apply elem_of_nil in Hin. exact Hin.
Qed.

(** ** Binary64 rounding *)

Section DoubleFacts.

Import Double.

Ltac compare_facts :=
  repeat match goal with
  | H : (_ ?= _)%Q = Eq |- _ => apply Qeq_alt in H
  | H : (_ ?= _)%Q = Lt |- _ => apply Qlt_alt in H
  | H : (_ ?= _)%Q = Gt |- _ => apply Qgt_alt in H
  end.

Lemma round_half_even_comp (x y : Q) :
  (x == y)%Q -> round_half_even x = round_half_even y.
Proof.
  intros H. unfold round_half_even.
  rewrite (Qfloor_comp x y H).
  assert (Hc : (x - inject_Z (Qfloor y) ?= 1 # 2)%Q = (y - inject_Z (Qfloor y) ?= 1 # 2)%Q).
  { apply Qcompare_comp; [rewrite H; reflexivity | reflexivity]. }
  rewrite Hc. reflexivity.
Qed.

Lemma round_half_even_floor (x : Q) :
  Qfloor x <= round_half_even x <= Qfloor x + 1.
Proof.
  unfold round_half_even.
  destruct (x - inject_Z (Qfloor x) ?= 1 # 2)%Q; [destruct (Z.even (Qfloor x))| |]; lia.
Qed.

Lemma round_half_even_inject_Z (n : Z) : round_half_even (inject_Z n) = n.
Proof.
  unfold round_half_even. rewrite Qfloor_Z.
  assert (H : (inject_Z n - inject_Z n ?= 1 # 2)%Q = Lt).
  { apply Qlt_alt. unfold Qminus. rewrite Qplus_opp_r. reflexivity. }
  rewrite H. reflexivity.
Qed.

Lemma round_half_even_mono (x y : Q) :
  (x <= y)%Q -> round_half_even x <= round_half_even y.
Proof.
  intros Hxy.
  pose proof (Qfloor_resp_le x y Hxy) as Hf.
  destruct (Z.eq_dec (Qfloor x) (Qfloor y)) as [Heq|Hne].
  - unfold round_half_even. rewrite Heq.
    destruct (x - inject_Z (Qfloor y) ?= 1 # 2)%Q eqn:Hx;
      destruct (y - inject_Z (Qfloor y) ?= 1 # 2)%Q eqn:Hy;
      try (destruct (Z.even (Qfloor y))); try lia; exfalso;
      compare_facts; generalize dependent (inject_Z (Qfloor y)); intros; lra.
  - pose proof (round_half_even_floor x). pose proof (round_half_even_floor y). lia.
Qed.


Lemma denormal_scale_pos : (0 < inject_Z denormal_scale)%Q.
Proof. reflexivity. Qed.

Lemma pow2_pos (k : Z) : 0 <= k -> (0 < inject_Z (2 ^ k))%Q.
Proof.
  intros Hk. change 0%Q with (inject_Z 0). rewrite <- Zlt_Qlt.
  apply Z.pow_pos_nonneg; lia.
Qed.

Lemma shift_nonneg (x : Q) : 0 <= shift x.
Proof. unfold shift. lia. Qed.

Lemma shift_comp (x y : Q) : (x == y)%Q -> shift x = shift y.
Proof.
  intros H. unfold shift.
  rewrite (Qfloor_comp (x * inject_Z denormal_scale) (y * inject_Z denormal_scale));
    [reflexivity | rewrite H; reflexivity].
Qed.

Lemma nearest_magnitude_units (x : Q) :
  nearest_magnitude x = (inject_Z (units x) / inject_Z denormal_scale)%Q.
Proof. reflexivity. Qed.

Lemma units_comp (x y : Q) : (x == y)%Q -> units x = units y.
Proof.
  intros H. unfold units. rewrite (shift_comp x y H). f_equal.
  apply round_half_even_comp. rewrite H. reflexivity.
Qed.

Lemma units_nonneg (x : Q) : (0 <= x)%Q -> 0 <= units x.
Proof.
  intros Hx. unfold units.
  pose proof (shift_nonneg x) as Hk.
  apply Z.mul_nonneg_nonneg; [|apply Z.pow_nonneg; lia].
  transitivity (round_half_even (inject_Z 0)).
  { rewrite round_half_even_inject_Z. lia. }
  apply round_half_even_mono.
  apply Qle_shift_div_l; [apply pow2_pos; exact Hk|].
  pose proof denormal_scale_pos as HS.
  change (inject_Z 0) with 0%Q. rewrite Qmult_0_l.
  apply Qmult_le_0_compat; [exact Hx | apply Qlt_le_weak; exact HS].
Qed.

Lemma units_mono (x y : Q) : (0 <= x)%Q -> (x <= y)%Q -> units x <= units y.
Proof.
  intros Hx Hxy.
  pose proof denormal_scale_pos as HS.
  assert (Hy : (x * inject_Z denormal_scale <= y * inject_Z denormal_scale)%Q).
  { apply Qmult_le_compat_r; [exact Hxy | apply Qlt_le_weak; exact HS]. }
  assert (Hx0 : (0 <= x * inject_Z denormal_scale)%Q).
  { apply Qmult_le_0_compat; [exact Hx | apply Qlt_le_weak; exact HS]. }
  pose proof (Qfloor_resp_le _ _ Hy) as HN.
  assert (HNx : 0 <= Qfloor (x * inject_Z denormal_scale)).
  { change 0 with (Qfloor (inject_Z 0)) at 1. rewrite Qfloor_Z at 1.
    change 0 with (Qfloor 0). apply Qfloor_resp_le. exact Hx0. }
  pose proof (Z.log2_le_mono _ _ HN) as Hlog.
  pose proof (shift_nonneg x) as Hkx. pose proof (shift_nonneg y) as Hky.
  assert (Hk : shift x <= shift y) by (unfold shift; lia).
  unfold units.
  set (yx := (x * inject_Z denormal_scale)%Q) in *.
  set (yy := (y * inject_Z denormal_scale)%Q) in *.
  destruct (Z.eq_dec (shift x) (shift y)) as [Heq|Hne].
  - rewrite Heq. apply Z.mul_le_mono_nonneg_r; [apply Z.pow_nonneg; lia|].
    apply round_half_even_mono.
    apply Qmult_le_compat_r; [exact Hy|].
    apply Qlt_le_weak, Qinv_lt_0_compat, pow2_pos. exact Hky.
  - assert (Hlt : shift x + 1 <= shift y) by lia.
    transitivity (2 ^ 53 * 2 ^ shift x); [|transitivity (2 ^ 52 * 2 ^ shift y)].
    + apply Z.mul_le_mono_nonneg_r; [apply Z.pow_nonneg; lia|].
      rewrite <- (round_half_even_inject_Z (2 ^ 53)).
      apply round_half_even_mono.
      apply Qle_shift_div_r; [apply pow2_pos; exact Hkx|].
      rewrite <- inject_Z_mult, <- Z.pow_add_r by lia.
      assert (Hbound : Qfloor yx + 1 <= 2 ^ (53 + shift x)).
      { destruct (Z.eq_dec (Qfloor yx) 0) as [H0|H0].
        - rewrite H0. pose proof (Z.pow_pos_nonneg 2 (53 + shift x)). lia.
        - pose proof (Z.log2_spec (Qfloor yx)) as [_ Hup]; [lia|].
          assert (Hexp : Z.succ (Z.log2 (Qfloor yx)) <= 53 + shift x)
            by (unfold shift; fold yx; lia).
          pose proof (Z.pow_le_mono_r 2 _ _ ltac:(lia) Hexp). lia. }
      apply Qlt_le_weak.
      eapply Qlt_le_trans; [apply Qlt_floor|].
      rewrite <- Zle_Qle. exact Hbound.
    + rewrite <- !Z.pow_add_r by lia. apply Z.pow_le_mono_r; lia.
    + apply Z.mul_le_mono_nonneg_r; [apply Z.pow_nonneg; lia|].
      rewrite <- (round_half_even_inject_Z (2 ^ 52)) at 1.
      apply round_half_even_mono.
      apply Qle_shift_div_l; [apply pow2_pos; exact Hky|].
      rewrite <- inject_Z_mult, <- Z.pow_add_r by lia.
      assert (Hlow : 2 ^ (52 + shift y) <= Qfloor yy).
      { assert (Hs : shift y = Z.log2 (Qfloor yy) - 52).
        { clear - Hlt Hkx. unfold shift in Hlt |- *. fold yy in Hlt |- *. lia. }
        assert (Hpos : 0 < Qfloor yy).
        { destruct (Z.le_gt_cases (Qfloor yy) 0) as [Hle|Hgt]; [|exact Hgt].
          rewrite (Z.log2_nonpos _ Hle) in Hs. lia. }
        pose proof (Z.log2_spec (Qfloor yy) Hpos) as [Hlo _].
        replace (52 + shift y) with (Z.log2 (Qfloor yy)) by lia. exact Hlo. }
      eapply Qle_trans; [|apply Qfloor_le].
      rewrite <- Zle_Qle. exact Hlow.
Qed.

Lemma nearest_comp (x y : Q) : (x == y)%Q -> nearest x = nearest y.
Proof.
  intros H. unfold nearest.
  assert (Hb : Qle_bool 0 x = Qle_bool 0 y).
  { destruct (Qle_bool 0 x) eqn:Hx, (Qle_bool 0 y) eqn:Hy; try reflexivity.
    - apply Qle_bool_iff in Hx. rewrite H in Hx. apply Qle_bool_iff in Hx. congruence.
    - apply Qle_bool_iff in Hy. rewrite <- H in Hy. apply Qle_bool_iff in Hy. congruence. }
  rewrite Hb, !nearest_magnitude_units.
  rewrite (units_comp x y H), (units_comp (- x) (- y)); [reflexivity|].
  rewrite H. reflexivity.
Qed.

Lemma over_scale_le (a b : Z) :
  a <= b -> (inject_Z a / inject_Z denormal_scale <= inject_Z b / inject_Z denormal_scale)%Q.
Proof.
  intros H. apply Qmult_le_compat_r; [rewrite <- Zle_Qle; exact H|].
  apply Qlt_le_weak, Qinv_lt_0_compat, denormal_scale_pos.
Qed.

Lemma over_scale_nonneg (a : Z) :
  0 <= a -> (0 <= inject_Z a / inject_Z denormal_scale)%Q.
Proof.
  intros H. apply Qle_shift_div_l; [apply denormal_scale_pos|].
  rewrite Qmult_0_l. change 0%Q with (inject_Z 0). rewrite <- Zle_Qle. exact H.
Qed.

Lemma nearest_mono (x y : Q) : (x <= y)%Q -> (nearest x <= nearest y)%Q.
Proof.
  intros Hxy. unfold nearest. rewrite !nearest_magnitude_units.
  destruct (Qle_bool 0 x) eqn:Hx, (Qle_bool 0 y) eqn:Hy.
  - apply Qle_bool_iff in Hx. apply over_scale_le, units_mono; assumption.
  - apply Qle_bool_iff in Hx.
    assert (Hy' : ~ (0 <= y)%Q) by (rewrite <- Qle_bool_iff; congruence).
    exfalso. apply Hy'. lra.
  - apply Qle_bool_iff in Hy.
    assert (Hx' : ~ (0 <= x)%Q) by (rewrite <- Qle_bool_iff; congruence).
    apply Qle_trans with 0%Q.
    + assert (H0 : (0 <= inject_Z (units (- x)) / inject_Z denormal_scale)%Q).
      { apply over_scale_nonneg, units_nonneg. lra. }
      lra.
    + apply over_scale_nonneg, units_nonneg. exact Hy.
  - assert (Hx' : ~ (0 <= x)%Q) by (rewrite <- Qle_bool_iff; congruence).
    assert (Hy' : ~ (0 <= y)%Q) by (rewrite <- Qle_bool_iff; congruence).
    apply Qopp_le_compat, over_scale_le, units_mono; lra.
Qed.

Lemma nearest_0 : (nearest 0 == 0)%Q.
Proof. vm_compute. reflexivity. Qed.

Lemma nearest_1 : (nearest 1 == 1)%Q.
Proof. vm_compute. reflexivity. Qed.

Lemma nearest_100 : (nearest 100 == 100)%Q.
Proof. vm_compute. reflexivity. Qed.

Lemma nearest_200 : (nearest 200 == 200)%Q.
Proof. vm_compute. reflexivity. Qed.

(** The model agrees with the standard library's binary64 operations on
    the percentage [(p / t) * 100] of every run of up to eight tests, and
    on 23 of 40. *)
Lemma percentage_agrees_with_SpecFloat :
  forallb (fun t =>
             forallb (fun p =>
                        Qeq_bool (mul (div (inject_Z (Z.of_nat p)) (inject_Z (Z.of_nat t))) 100)
                                 (percentage_by_SpecFloat (Z.of_nat p) (Z.of_nat t)))
                     (seq 0 (S t)))
          (seq 1 8) = true
  /\ Qeq_bool (mul (div 23 40) 100) (percentage_by_SpecFloat 23 40) = true.
Proof. split; vm_compute; reflexivity. Qed.

(** A value between two binary64 numbers stays between them. *)
Lemma nearest_between (lo hi x : Q) :
  (nearest lo == lo)%Q -> (nearest hi == hi)%Q ->
  (lo <= x <= hi)%Q -> (lo <= nearest x <= hi)%Q.
Proof.
  intros Hlo Hhi [H1 H2]. split.
  - rewrite <- Hlo. apply nearest_mono. exact H1.
  - rewrite <- Hhi. apply nearest_mono. exact H2.
Qed.

End DoubleFacts.

(** ** The overall score *)

Lemma fold_left_add_map {A : Type} (f : A -> Z) (l : list A) (a : Z) :
  fold_left (fun sum x => sum + f x) l a = fold_left Z.add (map f l) a.
Proof.
  revert a. induction l as [|x l IH]; intros a; [reflexivity|].
  simpl. apply IH.
Qed.

Lemma calculateOverallScore_mean (sess : InterviewSession) :
  calculateOverallScore sess
  = rounded_mean (map sub_overallScore (codeSubmissions sess)).
Proof.
  unfold calculateOverallScore, rounded_mean.
  rewrite length_map, fold_left_add_map. reflexivity.
Qed.

(** Handling events keeps the stored score equal to the rounded mean of the
    submission scores, and only test runs add submissions. *)
Lemma session_scores (events : list SessionEvent) :
  forall sess : InterviewSession,
  overallScore sess = rounded_mean (map sub_overallScore (codeSubmissions sess)) ->
  map sub_overallScore (codeSubmissions (fold_left session_step events sess))
  = (map sub_overallScore (codeSubmissions sess) ++ map run_score (tests_run events))%list
  /\ overallScore (fold_left session_step events sess)
     = rounded_mean (map sub_overallScore
                       (codeSubmissions (fold_left session_step events sess))).
Proof.
  induction events as [|e events IH]; intros sess Hinv.
  - simpl. rewrite app_nil_r. split; [reflexivity | exact Hinv].
  - change (fold_left session_step (e :: events) sess)
      with (fold_left session_step events (session_step sess e)).
    destruct (IH (session_step sess e)) as [Hsubs Hscore].
    { destruct e as [testResults|count analysis]; simpl.
      - rewrite calculateOverallScore_mean. reflexivity.
      - exact Hinv. }
    split; [|exact Hscore].
    rewrite Hsubs.
    destruct e as [testResults|count analysis]; simpl.
    + rewrite map_app, <- app_assoc. reflexivity.
    + reflexivity.
Qed.

(** C8 (as the code has it): the overall score emitted on completion is
    the score stored in the session, which is [Math.round] of the mean of
    the scores of the test runs handled so far (0 when no tests have been
    run), each score being [Math.round((passed / total) * 100)].  The
    quotients and the product are JavaScript's: 23 of 40 passed tests make
    57, the quotient being rounded to the nearest binary64 value before it
    is multiplied.  Analysis events, which carry the code-quality signals,
    do not enter the score. *)
Theorem overall_score_is_mean_of_run_scores (events : list SessionEvent) :
  emitted_overall_score (on_complete_interview_session true (socket_after events))
  = Some (overallScore (session_after events))
  /\ overallScore (session_after events) = calculateOverallScore (session_after events)
  /\ overallScore (session_after events) = rounded_mean (map run_score (tests_run events))
  /\ emitted_overall_score
       (on_complete_interview_session true
          (socket_after [TestsRun twenty_three_of_forty_passed]))
     = Some 57
  /\ test_score 23 40 = 57
  /\ (forall count analysis,
        overallScore (session_after (events ++ [CodeAnalysed count analysis]))
        = overallScore (session_after events))
  /\ (forall testResults,
        overallScore (session_after (events ++ [TestsRun testResults]))
        = rounded_mean (map run_score (tests_run events) ++ [run_score testResults])).
Proof.
  assert (Hall : forall evs,
             overallScore (session_after evs) = rounded_mean (map run_score (tests_run evs))).
  { intros evs. unfold session_after.
    destruct (session_scores evs new_session eq_refl) as [Hsubs Hscore].
    rewrite Hscore, Hsubs. reflexivity. }
  split; [reflexivity|]. split; [|split; [apply Hall|]].
  { rewrite calculateOverallScore_mean. unfold session_after.
    destruct (session_scores events new_session eq_refl) as [_ Hscore]. exact Hscore. }
  split; [vm_compute; reflexivity|]. split; [vm_compute; reflexivity|]. split.
  - intros count analysis. rewrite !Hall. unfold tests_run.
    rewrite omap_app. simpl. rewrite app_nil_r. reflexivity.
  - intros testResults. rewrite Hall. unfold tests_run.
    rewrite omap_app, map_app. reflexivity.
Qed.

(** C8 (as stated) fails: two sessions with the same test run, one of them
    with an analysis that raised its code-quality average from 0 to 50,
    both get the overall score 50; no weight other than zero on the
    code-quality signal is compatible with that. *)
Lemma score_is_not_a_weighted_combination : ~ score_is_weighted_combination.
Proof.
  intros (w_tests & w_quality & Hweight & Hspec).
  pose proof (Hspec [TestsRun one_of_two_passed]) as H1.
  pose proof (Hspec [CodeAnalysed 1 sample_analysis; TestsRun one_of_two_passed]) as H2.
  assert (Hp1 : (pass_rate (session_after [TestsRun one_of_two_passed]) == 50)%Q)
    by reflexivity.
  assert (Hq1 : (averageCodeQuality (performanceMetrics
                   (session_after [TestsRun one_of_two_passed])) == 0)%Q)
    by reflexivity.
  assert (Hp2 : (pass_rate (session_after
                   [CodeAnalysed 1 sample_analysis; TestsRun one_of_two_passed]) == 50)%Q)
    by reflexivity.
  assert (Hq2 : (averageCodeQuality (performanceMetrics (session_after
                   [CodeAnalysed 1 sample_analysis; TestsRun one_of_two_passed])) == 50)%Q)
    by reflexivity.
  rewrite Hp1, Hq1 in H1. rewrite Hp2, Hq2 in H2.
  change (overallScore (session_after [TestsRun one_of_two_passed])) with 50 in H1.
  change (overallScore (session_after
            [CodeAnalysed 1 sample_analysis; TestsRun one_of_two_passed])) with 50 in H2.
  apply Hweight. lra.
Qed.

(** * Further properties *)

(** ** The execution service beyond the specification *)

Lemma lower_char_idempotent (c : ascii) : lower_char (lower_char c) = lower_char c.
Proof.
  destruct c as [[] [] [] [] [] [] [] []]; reflexivity.
Qed.

Lemma toLowerCase_idempotent (s : string) : toLowerCase (toLowerCase s) = toLowerCase s.
Proof.
  induction s as [|c r IH]; [reflexivity|].
  simpl. rewrite lower_char_idempotent, IH. reflexivity.
Qed.

(** X1: [normalize] is idempotent: the normal form of a normal form is
    itself.  An output may therefore be replaced by its normal form (as a
    stored expected output might be) without changing any verdict of
    [compareOutputs]. *)
Theorem normalize_idempotent (v expected : JsValue) :
  normalize (JStr (normalize v)) = normalize v
  /\ compareOutputs (JStr (normalize v)) expected = compareOutputs v expected
  /\ compareOutputs expected (JStr (normalize v)) = compareOutputs expected v.
Proof.
  assert (Hidem : normalize (JStr (normalize v)) = normalize v).
  { unfold normalize. simpl ToString.
    rewrite (normalize_words (replace_ws (toLowerCase (trim (ToString v))))).
    rewrite ws_tokens_normalize, normalize_words.
    rewrite <- list_fmap_compose.
    f_equal. apply list_fmap_ext. intros _ w _. apply toLowerCase_idempotent. }
  split; [exact Hidem|].
  unfold compareOutputs. rewrite Hidem. split; reflexivity.
Qed.

Section Batch.

Variable JSON_parse : string -> option JsValue.
Variables code language : string.







End Batch.



Section Unsupported.

Variable JSON_parse : string -> option JsValue.
Variables code language : string.

Hypothesis not_javascript : toLowerCase language <> "javascript".
Hypothesis not_python : toLowerCase language <> "python".
Hypothesis not_cpp : toLowerCase language <> "c++".

Lemma dispatch_unsupported (tc : TestCase) (e : Env) (w : World) :
  dispatch JSON_parse code language tc e w
  = (w, Rejected ("Unsupported language: " ++ language)).
Proof.
  unfold dispatch, execution.
  apply String.eqb_neq in not_javascript, not_python, not_cpp.
  rewrite not_javascript, not_python, not_cpp. reflexivity.
Qed.

Lemma executeTests_loop_unsupported (env : nat -> Env) (testCases : list TestCase) :
  forall (i : nat) (acc : list ExecutionResult) (w : World),
  executeTests_loop JSON_parse code language env i testCases acc w
  = (w, Fulfilled
          (acc ++ imap (fun j tc =>
                          failed_result tc (i + j + 1) (env (i + j)%nat)
                            ("Unsupported language: " ++ language)) testCases)%list).
Proof.
  induction testCases as [|tc rest IH]; intros i acc w.
  - simpl. rewrite app_nil_r. reflexivity.
  - simpl. unfold executeSingleTest at 1. rewrite dispatch_unsupported.
    rewrite IH, <- app_assoc. simpl. rewrite Nat.add_0_r.
    do 4 f_equal. apply imap_ext. intros j tc' _. simpl.
    replace (i + S j)%nat with (S (i + j)) by lia. reflexivity.
Qed.

End Unsupported.

(** X3: a language other than JavaScript, Python and C++ (names compared
    without regard to letter case) fails every test without touching the
    machine: [executeTests] returns one record per test case, each with
    [passed = false], the output "Execution Error" and the error
    "Unsupported language: " followed by the name as given; nothing is
    written and no process is spawned.  The short names "js" and "cpp" that
    the analysis service accepts are among the unsupported ones. *)
Theorem unsupported_language_fails_every_test
    (JSON_parse : string -> option JsValue) (code language : string)
    (testCases : list TestCase) (env : nat -> Env) (w : World) :
  toLowerCase language <> "javascript" ->
  toLowerCase language <> "python" ->
  toLowerCase language <> "c++" ->
  executeTests JSON_parse code language testCases env w
  = (w, Fulfilled
          (imap (fun i tc =>
                   failed_result tc (i + 1) (env i)
                     ("Unsupported language: " ++ language)) testCases)).
Proof.
  intros Hjs Hpy Hcpp. unfold executeTests.
  rewrite (executeTests_loop_unsupported JSON_parse code language Hjs Hpy Hcpp).
  reflexivity.
Qed.

Lemma unsupported_language_fails_every_test_witness :
  executeTests no_JSON "int f() { return 0; }" "cpp"
    [three_sum_case_1; three_sum_case_2] (fun _ => missing_semicolon) empty_world
  = (empty_world,
     Fulfilled
       [ failed_result three_sum_case_1 1 missing_semicolon "Unsupported language: cpp";
         failed_result three_sum_case_2 2 missing_semicolon "Unsupported language: cpp" ]).
Proof.
  apply (unsupported_language_fails_every_test no_JSON "int f() { return 0; }" "cpp"
           [three_sum_case_1; three_sum_case_2] (fun _ => missing_semicolon) empty_world);
    discriminate.
Defined.

(** X4: a test whose program does not exit with code 0 is a failed test,
    whatever it printed: for the two interpreted languages, and for C++
    once the submission compiled, a run that ends with a non-zero code or
    with no code at all (killed by the timeout) gives the record of the
    [catch] block, with [passed = false], the output "Execution Error" and
    as error what the program wrote to stderr, or "Execution failed" when
    it wrote nothing.  What the program wrote to stdout is not looked at. *)
Theorem nonzero_exit_is_a_failed_test
    (JSON_parse : string -> option JsValue) (code language : string)
    (tc : TestCase) (n : nat) (e : Env) (w : World)
    (exitCode : option Z) (output err : string) :
  write_error e = None ->
  run e = Closed exitCode output err ->
  exit_nonzero exitCode = true ->
  toLowerCase language = "javascript"
  \/ toLowerCase language = "python"
  \/ (toLowerCase language = "c++"
      /\ compile_succeeded e = true
      /\ exists inputString, cpp_inputString (input tc) = inl inputString) ->
  snd (executeSingleTest JSON_parse code language tc n e w)
  = Fulfilled (failed_result tc n e (or_default err "Execution failed")).
Proof.
  intros Hwrite Hrun Hexit Hlang.
  assert (Hscript : forall cmd ext parse,
             awaited (interpreted cmd ext parse e w)
             = (final (interpreted cmd ext parse e w),
                Rejected (or_default err "Execution failed"))).
  { intros cmd ext parse. unfold interpreted. rewrite Hwrite, Hrun.
    unfold deliver, script_on_close.
    rewrite (unlink_present (script_tempFile ext e)) by (simpl; set_solver).
    rewrite Hexit. reflexivity. }
  unfold executeSingleTest, dispatch, execution, executeJavaScript, executePython.
  destruct Hlang as [-> | [-> | (-> & Hcompile & inputString & Hinput)]]; simpl.
  - rewrite Hscript. reflexivity.
  - rewrite Hscript. reflexivity.
  - unfold executeCpp. rewrite Hinput, Hwrite.
    unfold compile_succeeded in Hcompile.
    pose proof (cpp_names_differ e) as Hne.
    destruct (compile e) as [errno errnum|compileCode compileOut compileError];
      [discriminate|].
    apply negb_true_iff in Hcompile. rewrite Hcompile, Hrun.
    unfold deliver, cpp_run_on_close.
    rewrite (unlink_present (cpp_tempFile e)) by (simpl; set_solver).
    rewrite (unlink_present (cpp_executableFile e)) by (simpl; set_solver).
    rewrite Hexit. reflexivity.
Qed.

(** A Node run that printed the expected result and was then killed by
    the timeout. *)
Lemma nonzero_exit_is_a_failed_test_witness :
  snd (executeSingleTest no_JSON "function f() { for (;;) {} }" "JavaScript"
         three_sum_case_2 2
         {| now_start := 0; now_file := 1; now_exe := 1; now_end := 5001;
            write_error := None;
            compile := Closed (Some 0) "" "";
            run := Closed None ("ACTUAL_OUTPUT: []" ++ newline) "" |}
         empty_world)
  = Fulfilled
      (failed_result three_sum_case_2 2
         {| now_start := 0; now_file := 1; now_exe := 1; now_end := 5001;
            write_error := None;
            compile := Closed (Some 0) "" "";
            run := Closed None ("ACTUAL_OUTPUT: []" ++ newline) "" |}
         "Execution failed").
Proof.
  apply (nonzero_exit_is_a_failed_test no_JSON "function f() { for (;;) {} }"
           "JavaScript" three_sum_case_2 2 _ empty_world None
           ("ACTUAL_OUTPUT: []" ++ newline) "");
    [reflexivity | reflexivity | reflexivity | left; reflexivity].
Defined.

Lemma match_actual_output_unfold (s : string) :
  match_actual_output s
  = match (if startsWith marker s
           then ws_star_dot_plus (drop (String.length marker) s) else None) with
    | Some m => Some m
    | None =>
        match s with
        | EmptyString => None
        | String _ r => match_actual_output r
        end
    end.
Proof. destruct s; reflexivity. Qed.

Lemma startsWith_app (p r : string) : startsWith p (p ++ r) = true.
Proof. apply startsWith_prefix. exists r. reflexivity. Qed.

Lemma drop_app (p r : string) : drop (String.length p) (p ++ r) = r.
Proof.
  induction p as [|a p IH]; [reflexivity|]. rewrite append_cons. exact IH.
Qed.

Lemma take_while_app (p : ascii -> bool) (x : string) (d : ascii) (r : string) :
  all_chars p x = true -> p d = false ->
  take_while p (x ++ String d r) = x.
Proof.
  intros Hx Hd. induction x as [|a x IH].
  - rewrite append_nil_l. simpl. rewrite Hd. reflexivity.
  - simpl in Hx. apply andb_true_iff in Hx as [Ha Hx].
    rewrite append_cons. simpl. rewrite Ha, (IH Hx). reflexivity.
Qed.

Lemma trimStart_length (s : string) :
  (String.length (trimStart s) <= String.length s)%nat.
Proof.
  induction s as [|c s IH]; [reflexivity|].
  simpl. destruct (is_space c); simpl; lia.
Qed.

(** X5: the first line that carries the marker decides.  When the output
    of a JavaScript run starts with a line "ACTUAL_OUTPUT: x", the text
    handed to [JSON.parse] is [x] (trimmed), whatever follows, the line
    printed by the wrapper included: a submission that prints such a line
    itself chooses the result that is compared.  ([x] is not empty, does
    not start with white space and has no line break.) *)
Theorem first_marker_line_decides
    (JSON_parse : string -> option JsValue) (x rest : string) :
  x <> "" ->
  trimStart x = x ->
  all_chars (fun c => negb (is_line_terminator c)) x = true ->
  match_actual_output (marker ++ " " ++ x ++ newline ++ rest) = Some x
  /\ js_parsed_text (marker ++ " " ++ x ++ newline ++ rest) = trim x
  /\ parse_js_stdout JSON_parse (marker ++ " " ++ x ++ newline ++ rest)
     = match JSON_parse (trim x) with
       | Some parsedOutput => parsedOutput
       | None => JStr (trim (marker ++ " " ++ x ++ newline ++ rest))
       end.
Proof.
  intros Hne Htrimmed Hline.
  assert (Hmatch : match_actual_output (marker ++ " " ++ x ++ newline ++ rest) = Some x).
  { rewrite match_actual_output_unfold, startsWith_app, drop_app.
    destruct x as [|c x']; [congruence|].
    assert (Hlead : is_space c = false).
    { destruct (is_space c) eqn:Hc; [|reflexivity].
      simpl in Htrimmed. rewrite Hc in Htrimmed.
      pose proof (trimStart_length x') as Hlen.
      rewrite Htrimmed in Hlen. simpl in Hlen. lia. }
    assert (Hdot : dot_plus (String c x' ++ newline ++ rest) = Some (String c x')).
    { unfold dot_plus, newline.
      rewrite (append_cons (ascii_of_nat 10)), append_nil_l.
      rewrite take_while_app by (exact Hline || reflexivity). reflexivity. }
    change (" " ++ String c x' ++ newline ++ rest)
      with (String " " (String c (x' ++ newline ++ rest))).
    change (String c x' ++ newline ++ rest)
      with (String c (x' ++ newline ++ rest)) in Hdot.
    simpl. rewrite Hlead, Hdot. reflexivity. }
  split; [exact Hmatch|].
  unfold js_parsed_text, parse_js_stdout. rewrite Hmatch. split; reflexivity.
Qed.

Lemma first_marker_line_decides_witness :
  parse_js_stdout JSON_parse_sample
    (marker ++ " " ++ "[1,2]" ++ newline ++ "ACTUAL_OUTPUT: [3,4]" ++ newline)
  = JArr [JNum 1; JNum 2].
Proof.
  destruct (first_marker_line_decides JSON_parse_sample "[1,2]"
              ("ACTUAL_OUTPUT: [3,4]" ++ newline))
    as (_ & _ & Hparse); [discriminate | reflexivity | reflexivity |].
  rewrite Hparse. reflexivity.
Defined.

Lemma normalize_trim (s : string) : normalize (JStr (trim s)) = normalize (JStr s).
Proof.
  unfold normalize. simpl ToString.
  rewrite !normalize_words, ws_tokens_trim. reflexivity.
Qed.

(** X27: a C++ result is compared as text.  When the submission compiled
    and the program exited with code 0, the test record carries the
    trimmed stdout as a string, whatever [JSON.parse] would make of it, and
    the test passes exactly when stdout and the expected output consist of
    the same words up to letter case; no error is recorded. *)
Theorem cpp_output_is_compared_as_text
    (JSON_parse : string -> option JsValue) (code : string) (tc : TestCase)
    (n : nat) (e : Env) (w : World) (output err : string) :
  write_error e = None ->
  (exists inputString, cpp_inputString (input tc) = inl inputString) ->
  compile_succeeded e = true ->
  run e = Closed (Some 0) output err ->
  snd (executeSingleTest JSON_parse code "C++" tc n e w)
  = Fulfilled (completed_result tc n e (JStr (trim output)))
  /\ passed (completed_result tc n e (JStr (trim output)))
     = compareOutputs (JStr output) (expectedOutput tc)
  /\ error (completed_result tc n e (JStr (trim output))) = None
  /\ executeSingleTest JSON_parse code "C++" tc n e w
     = executeSingleTest no_JSON code "C++" tc n e w.
Proof.
  intros Hwrite [inputString Hinput] Hcompile Hrun.
  assert (Hrunner : forall parse,
             executeSingleTest parse code "C++" tc n e w
             = (final (executeCpp code tc e w),
                Fulfilled (completed_result tc n e (JStr (trim output))))).
  { intros parse. unfold executeSingleTest, dispatch, execution. simpl.
    unfold executeCpp. rewrite Hinput, Hwrite.
    unfold compile_succeeded in Hcompile.
    pose proof (cpp_names_differ e) as Hne.
    destruct (compile e) as [errno errnum|compileCode compileOut compileError];
      [discriminate|].
    apply negb_true_iff in Hcompile. rewrite Hcompile, Hrun.
    unfold deliver, cpp_run_on_close.
    rewrite (unlink_present (cpp_tempFile e)) by (simpl; set_solver).
    rewrite (unlink_present (cpp_executableFile e)) by (simpl; set_solver).
    reflexivity. }
  rewrite !Hrunner. split; [reflexivity|]. split; [|split; reflexivity].
  simpl. unfold compareOutputs. rewrite normalize_trim. reflexivity.
Qed.

Lemma cpp_output_is_compared_as_text_witness :
  snd (executeSingleTest JSON_parse_sample "vector<int> f(vector<int>& a) { return a; }"
         "C++" expects_bracketed_array 1
         {| now_start := 0; now_file := 1; now_exe := 2; now_end := 90;
            write_error := None;
            compile := Closed (Some 0) "" "";
            run := Closed (Some 0) ("[1,2]" ++ newline) "" |}
         empty_world)
  = Fulfilled
      (completed_result expects_bracketed_array 1
         {| now_start := 0; now_file := 1; now_exe := 2; now_end := 90;
            write_error := None;
            compile := Closed (Some 0) "" "";
            run := Closed (Some 0) ("[1,2]" ++ newline) "" |}
         (JStr "[1,2]")).
Proof.
  destruct (cpp_output_is_compared_as_text JSON_parse_sample
              "vector<int> f(vector<int>& a) { return a; }" expects_bracketed_array 1
              {| now_start := 0; now_file := 1; now_exe := 2; now_end := 90;
                 write_error := None;
                 compile := Closed (Some 0) "" "";
                 run := Closed (Some 0) ("[1,2]" ++ newline) "" |}
              empty_world ("[1,2]" ++ newline) "")
    as [Hresult _];
    [reflexivity | eexists; reflexivity | reflexivity | reflexivity | exact Hresult].
Defined.

(** ** The function called by the wrapper *)

Import JsRegExp FunctionName.

Lemma take_while_all (p : ascii -> bool) (s : string) :
  all_chars p (take_while p s) = true.
Proof.
  induction s as [|c r IH]; [reflexivity|].
  simpl. destruct (p c) eqn:Hc; [|reflexivity].
  simpl. rewrite Hc. exact IH.
Qed.

Lemma drop_while_app (p : ascii -> bool) (x : string) (d : ascii) (r : string) :
  all_chars p x = true -> p d = false ->
  drop_while p (x ++ String d r) = String d r.
Proof.
  intros Hx Hd. induction x as [|a x IH].
  - rewrite append_nil_l. simpl. rewrite Hd. reflexivity.
  - simpl in Hx. apply andb_true_iff in Hx as [Ha Hx].
    rewrite append_cons. simpl. rewrite Ha. exact (IH Hx).
Qed.

Lemma first_match_unfold (at_ : string -> option string) (s : string) :
  first_match at_ s
  = match at_ s with
    | Some m => Some m
    | None =>
        match s with
        | EmptyString => None
        | String _ r => first_match at_ r
        end
    end.
Proof. destruct s; reflexivity. Qed.

(** A match found by [first_match] is a match at some position. *)
Lemma first_match_at (at_ : string -> option string) (s m : string) :
  first_match at_ s = Some m -> exists before u, s = before ++ u /\ at_ u = Some m.
Proof.
  induction s as [|c r IH]; simpl.
  - destruct (at_ "") eqn:H; [|discriminate].
    intros [= <-]. exists "", "". split; [reflexivity | exact H].
  - destruct (at_ (String c r)) eqn:H.
    + intros [= <-]. exists "", (String c r). split; [reflexivity | exact H].
    + intros Hr. destruct (IH Hr) as (before & u & -> & Hu).
      exists (String c before), u. split; [reflexivity | exact Hu].
Qed.

Lemma word_then_paren_word (s name r : string) :
  word_then_paren s = Some (name, r) ->
  name <> "" /\ all_chars is_word name = true.
Proof.
  unfold word_then_paren.
  destruct (take_while is_word s) as [|c t] eqn:Ht; [discriminate|]. simpl.
  destruct (trimStart (drop_while is_word s)) as [|d u]; [discriminate|].
  destruct (Ascii.eqb d "("); [|discriminate].
  intros [= <- <-]. split; [discriminate|].
  rewrite <- Ht. apply take_while_all.
Qed.

Lemma keyword_name_at_word (kw s name : string) :
  keyword_name_at kw s = Some name ->
  name <> "" /\ all_chars is_word name = true.
Proof.
  unfold keyword_name_at.
  destruct (startsWith kw s); [|discriminate].
  destruct (drop (String.length kw) s) as [|c r]; [discriminate|].
  destruct (is_space c); [|discriminate].
  destruct (word_then_paren (trimStart r)) as [[name' r']|] eqn:Hw; [|discriminate].
  intros [= <-]. exact (word_then_paren_word _ _ _ Hw).
Qed.

Lemma cpp_name_at_word (s name : string) :
  cpp_name_at s = Some name ->
  name <> "" /\ all_chars is_word name = true.
Proof.
  unfold cpp_name_at.
  destruct (word_then_paren s) as [[name' r]|] eqn:Hw; [|discriminate].
  intros H. assert (name' = name) as <- by (repeat case_match; congruence).
  exact (word_then_paren_word _ _ _ Hw).
Qed.

(** X6: whatever the submission, the function that the wrapper calls has a
    name made of one or more word characters: either the name captured by
    the pattern of the language or the fallback [solution].  The call line
    of the wrapper is therefore never an empty call and never carries text
    of the submission other than such a word. *)
Theorem wrapper_calls_a_word (code : string) :
  (js_functionName code <> "" /\ all_chars is_word (js_functionName code) = true)
  /\ (py_functionName code <> "" /\ all_chars is_word (py_functionName code) = true)
  /\ (cpp_functionName code <> "" /\ all_chars is_word (cpp_functionName code) = true).
Proof.
  assert (Hany : forall at_,
             (forall s name, at_ s = Some name ->
                name <> "" /\ all_chars is_word name = true) ->
             default "solution" (first_match at_ code) <> ""
             /\ all_chars is_word (default "solution" (first_match at_ code)) = true).
  { intros at_ Hat.
    destruct (first_match at_ code) as [name|] eqn:Hm; simpl.
    - destruct (first_match_at _ _ _ Hm) as (before & u & _ & Hu).
      exact (Hat u name Hu).
    - split; [discriminate | reflexivity]. }
  unfold js_functionName, py_functionName, cpp_functionName.
  split; [|split]; apply Hany.
  - apply keyword_name_at_word.
  - apply keyword_name_at_word.
  - apply cpp_name_at_word.
Qed.

Lemma word_not_space (c : ascii) : is_word c = true -> is_space c = false.
Proof.
  destruct c as [[] [] [] [] [] [] [] []]; (reflexivity || discriminate).
Qed.

Lemma word_not_paren (c : ascii) : is_word c = true -> Ascii.eqb c "(" = false.
Proof.
  destruct c as [[] [] [] [] [] [] [] []]; (reflexivity || discriminate).
Qed.

(** A name followed by an opening parenthesis is captured as a whole. *)
Lemma word_then_paren_name (name rest : string) :
  name <> "" -> all_chars is_word name = true ->
  word_then_paren (name ++ "(" ++ rest) = Some (name, rest).
Proof.
  intros Hne Hword. unfold word_then_paren.
  change ("(" ++ rest) with (String "(" rest).
  rewrite take_while_app, drop_while_app by (exact Hword || reflexivity).
  destruct name as [|c t]; [congruence|]. reflexivity.
Qed.

Lemma trimStart_word (name rest : string) :
  name <> "" -> all_chars is_word name = true ->
  trimStart (name ++ rest) = name ++ rest.
Proof.
  intros Hne Hword. destruct name as [|c t]; [congruence|].
  simpl in Hword. apply andb_true_iff in Hword as [Hc _].
  rewrite append_cons. simpl. rewrite (word_not_space c Hc). reflexivity.
Qed.

Lemma keyword_name_at_declared (kw name rest : string) :
  name <> "" -> all_chars is_word name = true ->
  keyword_name_at kw (kw ++ " " ++ name ++ "(" ++ rest) = Some name.
Proof.
  intros Hne Hword. unfold keyword_name_at.
  rewrite startsWith_app, drop_app.
  change (" " ++ name ++ "(" ++ rest) with (String " " (name ++ "(" ++ rest)).
  simpl is_space. cbv iota.
  rewrite trimStart_word, word_then_paren_name by assumption. reflexivity.
Qed.

(** X7: a JavaScript submission that begins [function NAME(] is called as
    [NAME], and a Python submission that begins [def NAME(] likewise,
    whatever follows: later functions, and the fallback [solution], do not
    come into play. *)
Theorem declared_function_is_called (name rest : string) :
  name <> "" ->
  all_chars is_word name = true ->
  js_functionName ("function " ++ name ++ "(" ++ rest) = name
  /\ py_functionName ("def " ++ name ++ "(" ++ rest) = name.
Proof.
  intros Hne Hword. unfold js_functionName, py_functionName.
  rewrite !first_match_unfold.
  change ("function " ++ name ++ "(" ++ rest)
    with ("function" ++ " " ++ name ++ "(" ++ rest).
  change ("def " ++ name ++ "(" ++ rest) with ("def" ++ " " ++ name ++ "(" ++ rest).
  rewrite !keyword_name_at_declared by assumption.
  split; reflexivity.
Qed.

Lemma declared_function_is_called_witness :
  js_functionName ("function " ++ "threeSum" ++ "(" ++ "nums) { return []; }")
  = "threeSum"
  /\ py_functionName ("def " ++ "threeSum" ++ "(" ++ "nums): return []") = "threeSum".
Proof.
  split.
  - apply (declared_function_is_called "threeSum" "nums) { return []; }");
      [discriminate | reflexivity].
  - apply (declared_function_is_called "threeSum" "nums): return []");
      [discriminate | reflexivity].
Defined.

Section CppName.

Variables name tail : string.

Hypothesis name_not_empty : name <> "".
Hypothesis name_is_word : all_chars is_word name = true.

(** White space in front of the name is skipped, and what is found is
    not a parenthesis. *)
Lemma trimStart_before_name (p : string) :
  all_chars no_open_paren p = true ->
  exists d r, trimStart (p ++ name ++ tail) = String d r /\ Ascii.eqb d "(" = false.
Proof.
  intros Hp. induction p as [|a p IH].
  - rewrite append_nil_l, trimStart_word by assumption.
    destruct name as [|c t]; [congruence|].
    simpl in name_is_word. apply andb_true_iff in name_is_word as [Hc _].
    exists c, (t ++ tail). split; [reflexivity | exact (word_not_paren c Hc)].
  - simpl in Hp. apply andb_true_iff in Hp as [Ha Hp].
    rewrite append_cons. simpl. destruct (is_space a).
    + exact (IH Hp).
    + exists a, (p ++ name ++ tail). split; [reflexivity|].
      unfold no_open_paren in Ha. apply negb_true_iff in Ha. exact Ha.
Qed.

(** A word that starts in the prefix ends in the prefix. *)
Lemma drop_while_in_prefix (p : string) :
  p <> "" ->
  all_chars no_open_paren p = true ->
  is_word_opt (last_char p) = false ->
  exists d p2,
    drop_while is_word (p ++ name ++ tail) = String d (p2 ++ name ++ tail)
    /\ Ascii.eqb d "(" = false
    /\ all_chars no_open_paren p2 = true.
Proof.
  induction p as [|a p IH]; [congruence|]. intros _ Hp Hlast.
  simpl in Hp. apply andb_true_iff in Hp as [Ha Hp].
  rewrite append_cons. simpl. destruct (is_word a) eqn:Hw.
  - destruct p as [|b p'].
    + simpl in Hlast. congruence.
    + apply IH; [discriminate | exact Hp | exact Hlast].
  - exists a, p. repeat split; [|exact Hp].
    unfold no_open_paren in Ha. apply negb_true_iff in Ha. exact Ha.
Qed.

Lemma no_name_in_prefix (p : string) :
  p <> "" ->
  all_chars no_open_paren p = true ->
  is_word_opt (last_char p) = false ->
  word_then_paren (p ++ name ++ tail) = None.
Proof.
  intros Hne Hp Hlast. unfold word_then_paren.
  destruct (take_while is_word (p ++ name ++ tail)); [reflexivity|]. simpl.
  destruct (drop_while_in_prefix p Hne Hp Hlast) as (d & p2 & -> & Hd & Hp2).
  simpl. destruct (is_space d).
  - destruct (trimStart_before_name p2 Hp2) as (d' & r & -> & Hd').
    rewrite Hd'. reflexivity.
  - rewrite Hd. reflexivity.
Qed.

Lemma first_match_behind_prefix (p : string) :
  all_chars no_open_paren p = true ->
  is_word_opt (last_char p) = false ->
  first_match cpp_name_at (p ++ name ++ tail) = first_match cpp_name_at (name ++ tail).
Proof.
  induction p as [|a p IH]; intros Hp Hlast; [reflexivity|].
  rewrite first_match_unfold. unfold cpp_name_at at 1.
  rewrite no_name_in_prefix by (discriminate || assumption).
  rewrite append_cons. apply IH.
  - simpl in Hp. apply andb_true_iff in Hp as [_ Hp]. exact Hp.
  - destruct p as [|b p']; [reflexivity | exact Hlast].
Qed.

End CppName.

Lemma trimStart_spaces (ws : string) (d : ascii) (r : string) :
  all_chars is_space ws = true -> is_space d = false ->
  trimStart (ws ++ String d r) = String d r.
Proof.
  intros Hws Hd. induction ws as [|a ws IH].
  - rewrite append_nil_l. simpl. rewrite Hd. reflexivity.
  - simpl in Hws. apply andb_true_iff in Hws as [Ha Hws].
    rewrite append_cons. simpl. rewrite Ha. exact (IH Hws).
Qed.

(** X8: the C++ wrapper calls the first function of the submission.  When
    the text in front of a function header [NAME(params) {] has no opening
    parenthesis and does not end in a word character (includes, [using]
    lines and the return type are such a text), the detected name is
    [NAME]; for the starter template of 3Sum it is [threeSum]. *)
Theorem cpp_first_function_is_called (prefix name params ws body : string) :
  all_chars no_open_paren prefix = true ->
  is_word_opt (last_char prefix) = false ->
  name <> "" ->
  all_chars is_word name = true ->
  all_chars (fun c => negb (Ascii.eqb c ")")) params = true ->
  all_chars is_space ws = true ->
  cpp_functionName (prefix ++ name ++ "(" ++ params ++ ")" ++ ws ++ "{" ++ body) = name.
Proof.
  intros Hprefix Hlast Hne Hword Hparams Hws. unfold cpp_functionName.
  rewrite first_match_behind_prefix by assumption.
  rewrite first_match_unfold. unfold cpp_name_at.
  rewrite word_then_paren_name by assumption.
  change (")" ++ ws ++ "{" ++ body) with (String ")" (ws ++ String "{" body)).
  rewrite drop_while_app by (exact Hparams || reflexivity).
  rewrite trimStart_spaces by (exact Hws || reflexivity).
  reflexivity.
Qed.

Lemma cpp_first_function_is_called_witness :
  cpp_functionName cpp_three_sum_template = "threeSum".
Proof.
  exact (cpp_first_function_is_called
           ("#include <vector>" ++ newline ++ "#include <algorithm>" ++ newline
            ++ "using namespace std;" ++ newline ++ newline ++ "vector<vector<int>> ")
           "threeSum" "vector<int>& nums" " "
           (newline ++ "    // Your code here" ++ newline ++ "    return {};"
            ++ newline ++ "}")
           eq_refl eq_refl ltac:(discriminate) eq_refl eq_refl eq_refl).
Defined.

(** ** The syntax checks of the analysis service *)

Import CodeAnalysisService.

(** A text that contains [p ++ q] contains [q]. *)
Lemma includes_tail (s p q : string) :
  includes s (p ++ q) = true -> includes s q = true.
Proof.
  rewrite !includes_substring. intros (before & rest & ->).
  exists (before ++ p), rest.
  induction before as [|a before IH]; [|rewrite !append_cons, IH; reflexivity].
  rewrite !append_nil_l.
  induction p as [|a p IH]; [reflexivity|]. rewrite !append_cons, IH. reflexivity.
Qed.

(** X9: the warning about mixed equality operators is raised for every
    JavaScript text that contains [===], whether or not it also uses the
    loose operator: a text with [===] always contains [==].  Code that
    uses only the strict operator is warned about inconsistency. *)
Theorem strict_equality_is_always_flagged (code : string) :
  (equality_warning ∈ validateJavaScript code
   <-> exists before rest, code = before ++ "===" ++ rest)
  /\ includes code "===" && includes code "==" = includes code "==="
  /\ validateJavaScript "if (a === b) { return 1; }" = [equality_warning].
Proof.
  assert (Hboth : includes code "===" && includes code "==" = includes code "===").
  { destruct (includes code "===") eqn:H; [|reflexivity].
    simpl. apply (includes_tail code "=" "=="). exact H. }
  split; [|split; [exact Hboth | reflexivity]].
  rewrite <- includes_substring. unfold validateJavaScript. rewrite Hboth.
  rewrite !elem_of_app. split.
  - intros [H | [H | [H | H]]].
    + destruct (negb _); [apply list_elem_of_singleton in H; discriminate|].
      apply elem_of_nil in H. contradiction.
    + destruct (negb _); [apply list_elem_of_singleton in H; discriminate|].
      apply elem_of_nil in H. contradiction.
    + destruct (includes code "==="); [reflexivity|].
      apply elem_of_nil in H. contradiction.
    + destruct (includes code "var "); [apply list_elem_of_singleton in H; discriminate|].
      apply elem_of_nil in H. contradiction.
  - intros ->. right. right. left. apply list_elem_of_singleton. reflexivity.
Qed.

(** What the loop of [validatePython] returns: nothing, or one error for a
    line that is neither blank nor a block opener; when the loop starts
    without an expected indentation there is a block opener before that
    line. *)
Lemma validatePython_loop_result (lines : list string) :
  forall i0 expectedIndent : nat,
  validatePython_loop lines i0 expectedIndent = []
  \/ exists (k : nat) (line : string),
       lines !! k = Some line
       /\ validatePython_loop lines i0 expectedIndent = [indentation_error (i0 + k)]
       /\ is_empty (trim line) = false
       /\ endsWith_colon (trim line) = false
       /\ (expectedIndent = 0%nat ->
           exists (j : nat) (opener : string),
             (j < k)%nat /\ lines !! j = Some opener
             /\ endsWith_colon (trim opener) = true).
Proof.
  induction lines as [|line rest IH]; intros i0 expectedIndent; [left; reflexivity|].
  simpl.
  destruct (is_empty (trim line)) eqn:Hblank.
  { destruct (IH (S i0) expectedIndent)
      as [Hnone | (k & l & Hk & Hres & Hnb & Hno & Hopener)]; [left; exact Hnone|].
    right. exists (S k), l. split; [exact Hk|].
    split; [rewrite Hres; f_equal; f_equal; lia|].
    split; [exact Hnb|]. split; [exact Hno|].
    intros H0. destruct (Hopener H0) as (j & opener & Hj & Hlook & Hends).
    exists (S j), opener. split; [lia|]. split; [exact Hlook | exact Hends]. }
  destruct (endsWith_colon (trim line)) eqn:Hopens.
  { destruct (IH (S i0) (String.length line - String.length (trimStart line) + 4)%nat)
      as [Hnone | (k & l & Hk & Hres & Hnb & Hno & _)]; [left; exact Hnone|].
    right. exists (S k), l. split; [exact Hk|].
    split; [rewrite Hres; f_equal; f_equal; lia|].
    split; [exact Hnb|]. split; [exact Hno|].
    intros _. exists 0%nat, line. split; [lia|]. split; [reflexivity | exact Hopens]. }
  destruct (negb (String.length line - String.length (trimStart line) =? expectedIndent)%nat
            && (0 <? expectedIndent)%nat) eqn:Hbad.
  { right. exists 0%nat, line. split; [reflexivity|].
    split; [rewrite Nat.add_0_r; reflexivity|].
    split; [exact Hblank|]. split; [exact Hopens|].
    intros ->. rewrite andb_false_r in Hbad. discriminate. }
  destruct (IH (S i0) expectedIndent)
    as [Hnone | (k & l & Hk & Hres & Hnb & Hno & Hopener)]; [left; exact Hnone|].
  right. exists (S k), l. split; [exact Hk|].
  split; [rewrite Hres; f_equal; f_equal; lia|].
  split; [exact Hnb|]. split; [exact Hno|].
  intros H0. destruct (Hopener H0) as (j & opener & Hj & Hlook & Hends).
  exists (S j), opener. split; [lia|]. split; [exact Hlook | exact Hends].
Qed.

(** X10: the Python check reports at most one error, and only behind a
    block opener.  [validatePython] returns either no error or exactly one,
    "Inconsistent indentation on line n", where line n is neither blank nor
    ends in a colon and some earlier line ends in a colon.  Code without a
    line that ends in a colon is never flagged, however it is indented. *)
Theorem validatePython_one_error_behind_an_opener (code : string) :
  validatePython code = []
  \/ exists (k j : nat) (line opener : string),
       validatePython code = [indentation_error k]
       /\ split_lines code !! k = Some line
       /\ is_empty (trim line) = false
       /\ endsWith_colon (trim line) = false
       /\ (j < k)%nat
       /\ split_lines code !! j = Some opener
       /\ endsWith_colon (trim opener) = true.
Proof.
  unfold validatePython.
  destruct (validatePython_loop_result (split_lines code) 0 0)
    as [Hnone | (k & line & Hk & Hres & Hnb & Hno & Hopener)]; [left; exact Hnone|].
  destruct (Hopener eq_refl) as (j & opener & Hj & Hlook & Hends).
  right. exists k, j, line, opener. repeat split; assumption.
Qed.

(** ** The code metrics *)

Lemma fold_left_counts_ge (f : string -> nat) (l : list string) (a : Z) :
  a <= fold_left (fun c x => c + Z.of_nat (f x)) l a.
Proof.
  revert a. induction l as [|x l IH]; intros a; simpl; [lia|].
  specialize (IH (a + Z.of_nat (f x))). lia.
Qed.

(** X11: the metrics stay in their ranges for every text: the complexity
    indicator lies between 1 and 10, the readability score between 0 and
    100, the cyclomatic complexity is at least 1, and its [maintainable]
    flag is up exactly when its level is "Low", that is when the value does
    not exceed 10. *)
Theorem metrics_stay_in_range (code : string) :
  1 <= calculateComplexity code <= 10
  /\ 0 <= calculateReadability code <= 100
  /\ 1 <= cc_value (calculateCyclomaticComplexity code)
  /\ (cc_maintainable (calculateCyclomaticComplexity code) = true
      <-> cc_level (calculateCyclomaticComplexity code) = "Low")
  /\ (cc_maintainable (calculateCyclomaticComplexity code) = true
      <-> cc_value (calculateCyclomaticComplexity code) <= 10).
Proof.
  split; [|split; [|split; [|split]]].
  - unfold calculateComplexity.
    pose proof (fold_left_counts_ge (fun x => count_literal true x code)
                  complexityIndicators 1) as H1.
    pose proof (fold_left_counts_ge (fun x => count_literal false x code)
                  operatorIndicators
                  (fold_left (fun c x => c + Z.of_nat (count_literal true x code))
                     complexityIndicators 1)) as H2.
    cbv beta in H1, H2. lia.
  - unfold calculateReadability.
    repeat match goal with |- context [if ?b then _ else _] => destruct b end; lia.
  - apply (fold_left_counts_ge (fun x => count_literal true x code) decisionPoints 1).
  - unfold calculateCyclomaticComplexity. simpl.
    destruct (_ <=? 10) eqn:H10; [split; reflexivity|].
    split; [discriminate|]. destruct (_ <=? 20); discriminate.
  - unfold calculateCyclomaticComplexity. simpl. apply Z.leb_le.
Qed.

(** No match where the pattern needs a character that the text lacks. *)
Lemma count_global_absent (len : nat) (at_ : option ascii -> string -> bool)
    (c0 : ascii) (s : string) :
  (forall prev u, first_char u <> Some c0 -> at_ prev u = false) ->
  count_char c0 s = 0%nat ->
  forall prev skip, count_global len at_ prev skip s = 0%nat.
Proof.
  intros Hat. induction s as [|c r IH]; intros Hcount prev skip; [reflexivity|].
  simpl in Hcount. destruct (Ascii.eqb c0 c) eqn:Hc; [discriminate|].
  simpl. destruct skip as [|k]; [|apply IH; exact Hcount].
  rewrite Hat.
  - apply IH. exact Hcount.
  - simpl. intros [= ->]. rewrite Ascii.eqb_refl in Hc. discriminate.
Qed.

Lemma literal_at_first (bounded : bool) (w : string) (c0 : ascii)
    (prev : option ascii) (u : string) :
  first_char w = Some c0 -> first_char u <> Some c0 -> literal_at bounded w prev u = false.
Proof.
  intros Hw Hu. unfold literal_at.
  destruct w as [|a w]; [discriminate|]. injection Hw as ->.
  destruct u as [|b u]; [reflexivity|]. simpl.
  destruct (Ascii.eqb c0 b) eqn:Hb; [|reflexivity].
  apply Ascii.eqb_eq in Hb as ->. simpl in Hu. congruence.
Qed.

(** X12: the cyclomatic complexity does not see the operators it lists.
    Its decision points for "or" and for the ternary operator are searched
    as texts that start with a backslash, so in code without a backslash
    they never count; "and" counts only where [&&] stands directly between
    two word characters, as in [a&&b], and not in [a && b].  What remains
    is one plus the number of the seven keywords (as whole words) and of
    such [&&]. *)
Theorem cyclomatic_misses_operators (code : string) :
  count_char backslash code = 0%nat ->
  cc_value (calculateCyclomaticComplexity code)
  = fold_left (fun c point => c + Z.of_nat (count_literal true point code))
      ["if"; "else"; "while"; "for"; "switch"; "case"; "catch"; "&&"] 1
  /\ (forall prev s,
        literal_at true "&&" prev s
        = startsWith "&&" s && is_word_opt prev && is_word_opt (first_char (drop 2 s)))
  /\ count_literal true "&&" "if (a && b) { }" = 0%nat
  /\ count_literal true "&&" "if (a&&b) { }" = 1%nat.
Proof.
  intros Hno. split; [|split; [|split; reflexivity]].
  - unfold calculateCyclomaticComplexity, decisionPoints. simpl.
    assert (Hor : count_literal true "\|\|" code = 0%nat).
    { apply (count_global_absent _ _ backslash); [|exact Hno].
      intros prev u. apply literal_at_first. reflexivity. }
    assert (Htern : count_literal true "\?" code = 0%nat).
    { apply (count_global_absent _ _ backslash); [|exact Hno].
      intros prev u. apply literal_at_first. reflexivity. }
    rewrite Hor, Htern. lia.
  - intros prev s. unfold literal_at, boundary.
    change (first_char "&&") with (Some "&"%char).
    change (last_char "&&") with (Some "&"%char).
    change (is_word_opt (Some "&"%char)) with false.
    change (String.length "&&") with 2%nat.
    destruct (startsWith "&&" s), (is_word_opt prev),
      (is_word_opt (first_char (drop 2 s))); reflexivity.
Qed.

Lemma cyclomatic_misses_operators_witness :
  cc_value (calculateCyclomaticComplexity "if (a || b) { x = c ? 1 : 2; }") = 2.
Proof.
  destruct (cyclomatic_misses_operators "if (a || b) { x = c ? 1 : 2; }" eq_refl)
    as [Hvalue _].
  rewrite Hvalue. reflexivity.
Defined.

(** X13: the complexity label, the estimated time and the confidence go
    together, and the later checks of [estimateBigO] override the earlier
    ones.  Only five labels occur, with the estimated times 1, 10, 100, 20
    and 5 ms; the label "O(2^n)" of the multiplier table and the default
    multiplier are never used.  A text that contains [binarySearch] or
    [binary_search] is "O(log n)" whatever else it holds; one that does not
    but contains [sort(] is "O(n log n)", loops or not. *)
Theorem estimates_follow_the_label (code : string) :
  (et_complexity (estimateExecutionTime code),
   et_estimated (estimateExecutionTime code),
   bo_score (estimateBigO code))
    ∈ [ ("O(1)", 1, 0); ("O(n²)", 100, 1); ("O(n)", 10, 2);
        ("O(n log n)", 20, 3); ("O(log n)", 5, 4) ]
  /\ et_complexity (estimateExecutionTime code) = bo_complexity (estimateBigO code)
  /\ (includes code "binarySearch" || includes code "binary_search" = true ->
      bo_complexity (estimateBigO code) = "O(log n)")
  /\ (includes code "binarySearch" || includes code "binary_search" = false ->
      includes code "sort(" = true ->
      bo_complexity (estimateBigO code) = "O(n log n)").
Proof.
  assert (Hsort : includes code ".sort(" || includes code "sort(" = includes code "sort(").
  { destruct (includes code ".sort(") eqn:H; [|reflexivity].
    simpl. symmetry. apply (includes_tail code "." "sort("). exact H. }
  unfold estimateExecutionTime, estimateBigO. rewrite Hsort.
  destruct (includes code "binarySearch" || includes code "binary_search");
    destruct (includes code "sort(");
    destruct (exists_suffix nested_loop_at code);
    destruct (exists_suffix single_loop_at code); simpl;
    (split; [vm_compute; set_solver
            |split; [reflexivity|split; intros; (reflexivity || congruence)]]).
Qed.

(** ** Nested loops as the analysis service sees them *)

Lemma string_app_assoc (x y z : string) : (x ++ y) ++ z = x ++ y ++ z.
Proof.
  induction x as [|a x IH]; [reflexivity|]. rewrite !append_cons, IH. reflexivity.
Qed.

Lemma exists_suffix_spec (p : string -> bool) (s : string) :
  exists_suffix p s = true <-> exists before u, s = before ++ u /\ p u = true.
Proof.
  induction s as [|c s IH]; simpl; rewrite orb_true_iff.
  - split.
    + intros [H|H]; [|discriminate]. exists "", "". split; [reflexivity | exact H].
    + intros ([|b before] & u & Hs & Hu); [|discriminate Hs].
      rewrite append_nil_l in Hs. subst u. left. exact Hu.
  - rewrite IH. split.
    + intros [H | (before & u & -> & Hu)].
      * exists "", (String c s). split; [reflexivity | exact H].
      * exists (String c before), u. split; [reflexivity | exact Hu].
    + intros ([|b before] & u & Hs & Hu).
      * rewrite append_nil_l in Hs. subst u. left. exact Hu.
      * rewrite append_cons in Hs. injection Hs as -> ->.
        right. exists before, u. split; [reflexivity | exact Hu].
Qed.

Lemma trimStart_decompose (s : string) :
  exists ws, all_chars is_space ws = true /\ s = ws ++ trimStart s.
Proof.
  induction s as [|c s (ws & Hws & Hs)]; [exists ""; split; reflexivity|].
  simpl. destruct (is_space c) eqn:Hc.
  - exists (String c ws). simpl. rewrite Hc, Hws, append_cons, <- Hs.
    split; reflexivity.
  - exists "". split; reflexivity.
Qed.

Lemma for_paren_spec (s r : string) :
  for_paren s = Some r
  <-> exists ws, all_chars is_space ws = true /\ s = "for" ++ ws ++ "(" ++ r.
Proof.
  unfold for_paren. split.
  - destruct (startsWith "for" s) eqn:Hfor; [|discriminate].
    apply startsWith_prefix in Hfor as [t ->].
    change (drop 3 ("for" ++ t)) with t.
    destruct (trimStart_decompose t) as (ws & Hws & Ht).
    destruct (trimStart t) as [|c u]; [discriminate|].
    destruct (Ascii.eqb c "(") eqn:Hc; [|discriminate].
    apply Ascii.eqb_eq in Hc as ->. intros [= <-].
    exists ws. split; [exact Hws|]. rewrite Ht at 1. reflexivity.
  - intros (ws & Hws & ->).
    rewrite startsWith_app.
    change (drop 3 ("for" ++ ws ++ "(" ++ r)) with (ws ++ String "(" r).
    rewrite trimStart_spaces by (exact Hws || reflexivity). reflexivity.
Qed.

Lemma take_drop_while (p : ascii -> bool) (s : string) :
  s = take_while p s ++ drop_while p s.
Proof.
  induction s as [|c s IH]; [reflexivity|].
  simpl. destruct (p c); [|reflexivity].
  rewrite append_cons, <- IH. reflexivity.
Qed.

(** The first closing parenthesis of a text that has one. *)
Lemma drop_while_close (s : string) :
  includes s ")" = true -> exists d, drop_while not_close s = String ")" d.
Proof.
  induction s as [|c s IH]; [discriminate|].
  change (includes (String c s) ")")
    with (Ascii.eqb ")" c && true || includes s ")").
  change (drop_while not_close (String c s))
    with (if not_close c then drop_while not_close s else String c s).
  unfold not_close at 1. rewrite andb_true_r, (Ascii.eqb_sym c ")").
  destruct (Ascii.eqb ")" c) eqn:Hc.
  - apply Ascii.eqb_eq in Hc as <-. intros _. exists s. reflexivity.
  - exact IH.
Qed.

Lemma spaces_not_close (ws : string) :
  all_chars is_space ws = true -> all_chars not_close ws = true.
Proof.
  induction ws as [|c ws IH]; [reflexivity|].
  simpl. intros H. apply andb_true_iff in H as [Hc Hws].
  rewrite (IH Hws), andb_true_r.
  destruct c as [[] [] [] [] [] [] [] []]; (reflexivity || discriminate).
Qed.

Lemma nested_loop_at_spec (u : string) :
  nested_loop_at u = true
  <-> exists ws1 b ws2 c d,
        u = "for" ++ ws1 ++ "(" ++ b ++ "for" ++ ws2 ++ "(" ++ c ++ ")" ++ d
        /\ all_chars is_space ws1 = true
        /\ all_chars is_space ws2 = true
        /\ all_chars not_close b = true
        /\ all_chars not_close c = true.
Proof.
  unfold nested_loop_at. split.
  - destruct (for_paren u) as [r|] eqn:Hu; [|discriminate].
    apply for_paren_spec in Hu as (ws1 & Hws1 & ->).
    intros H. apply andb_true_iff in H as [Hclose Hinner].
    destruct (drop_while_close r Hclose) as [d Hd].
    pose proof (take_drop_while not_close r) as Hr. rewrite Hd in Hr.
    pose proof (take_while_all not_close r) as Hall.
    apply exists_suffix_spec in Hinner as (b & v & Hbv & Hv).
    unfold is_for_paren in Hv.
    destruct (for_paren v) as [c|] eqn:Hc; [|discriminate].
    apply for_paren_spec in Hc as (ws2 & Hws2 & ->).
    rewrite Hbv in Hall, Hr.
    rewrite all_chars_app in Hall. apply andb_true_iff in Hall as [Hb Hall].
    rewrite !all_chars_app in Hall.
    apply andb_true_iff in Hall as [_ Hall].
    apply andb_true_iff in Hall as [_ Hall].
    apply andb_true_iff in Hall as [_ Hc].
    exists ws1, b, ws2, c, d. repeat split; try assumption.
    rewrite Hr at 1. rewrite !string_app_assoc. reflexivity.
  - intros (ws1 & b & ws2 & c & d & -> & Hws1 & Hws2 & Hb & Hc).
    assert (Hhead : for_paren ("for" ++ ws1 ++ "(" ++ b ++ "for" ++ ws2 ++ "(" ++ c ++ ")" ++ d)
                    = Some (b ++ "for" ++ ws2 ++ "(" ++ c ++ ")" ++ d)).
    { apply for_paren_spec. exists ws1. split; [exact Hws1 | reflexivity]. }
    rewrite Hhead. apply andb_true_iff. split.
    + apply includes_substring. exists (b ++ "for" ++ ws2 ++ "(" ++ c), d.
      rewrite !string_app_assoc. reflexivity.
    + assert (Hstretch : take_while not_close (b ++ "for" ++ ws2 ++ "(" ++ c ++ ")" ++ d)
                         = b ++ "for" ++ ws2 ++ "(" ++ c).
      { replace (b ++ "for" ++ ws2 ++ "(" ++ c ++ ")" ++ d)
          with ((b ++ "for" ++ ws2 ++ "(" ++ c) ++ String ")" d)
          by (rewrite !string_app_assoc; reflexivity).
        apply take_while_app; [|reflexivity].
        rewrite !all_chars_app, Hb, Hc, (spaces_not_close ws2 Hws2). reflexivity. }
      rewrite Hstretch. apply exists_suffix_spec.
      exists b, ("for" ++ ws2 ++ "(" ++ c). split; [reflexivity|].
      unfold is_for_paren.
      assert (Hinner : for_paren ("for" ++ ws2 ++ "(" ++ c) = Some c).
      { apply for_paren_spec. exists ws2. split; [exact Hws2 | reflexivity]. }
      rewrite Hinner. reflexivity.
Qed.

(** X14: when the quadratic label is given.  [estimateBigO] answers
    "O(n²)" exactly when the text has a second [for (] inside the still
    open parenthesis of a [for (] (with a closing parenthesis behind) and
    contains neither [sort(] nor a binary-search name.  A loop whose head
    is closed before the inner loop begins, the usual way to nest loops, is
    not of that shape: such code is labelled "O(n)". *)
Theorem quadratic_label_means_for_inside_for_head (code : string) :
  (bo_complexity (estimateBigO code) = "O(n²)"
   <-> for_inside_for_head code
       /\ includes code "sort(" = false
       /\ includes code "binarySearch" = false
       /\ includes code "binary_search" = false)
  /\ bo_complexity
       (estimateBigO
          "for (i = 0; i < n; i++) { for (j = 0; j < n; j++) { total += a[i] * a[j]; } }")
     = "O(n)".
Proof.
  split; [|reflexivity].
  assert (Hshape : exists_suffix nested_loop_at code = true <-> for_inside_for_head code).
  { rewrite exists_suffix_spec. unfold for_inside_for_head. split.
    - intros (a & u & -> & Hu).
      apply nested_loop_at_spec in Hu as (ws1 & b & ws2 & c & d & -> & H).
      exists a, ws1, b, ws2, c, d. split; [reflexivity | exact H].
    - intros (a & ws1 & b & ws2 & c & d & -> & H).
      exists a, ("for" ++ ws1 ++ "(" ++ b ++ "for" ++ ws2 ++ "(" ++ c ++ ")" ++ d).
      split; [reflexivity|]. apply nested_loop_at_spec.
      exists ws1, b, ws2, c, d. split; [reflexivity | exact H]. }
  assert (Hsort : includes code ".sort(" || includes code "sort(" = includes code "sort(").
  { destruct (includes code ".sort(") eqn:H; [|reflexivity].
    simpl. symmetry. apply (includes_tail code "." "sort("). exact H. }
  rewrite <- Hshape. unfold estimateBigO. rewrite Hsort.
  destruct (includes code "binarySearch"), (includes code "binary_search"),
    (includes code "sort("), (exists_suffix nested_loop_at code),
    (exists_suffix single_loop_at code); simpl;
    split; try discriminate; try (intros (? & ? & ? & ?); discriminate);
    intros; repeat split; reflexivity.
Qed.

(** ** The session map of the analysis service *)

(** X15: what [analyzeCodeInRealTime] returns for a session is what
    [getSessionAnalysis] gives back for it afterwards.  An analysis that
    was built is stored under the session id, without touching the hints
    of that session or any other session; the fixed results for missing or
    blank code and for a failure are returned but not stored, so the last
    analysis that was built stays the one on record.  The value returned is
    that of the result-only reading of the function. *)
Theorem analysis_is_kept_for_the_session
    (analysis_of : string -> string -> option Analysis)
    (sessionId code language : string) (sessions : gmap string SessionEntry)
    (analysis : Analysis) :
  String.length (trim code) <> 0%nat ->
  analysis_of code language = Some analysis ->
  fst (analyzeCodeInRealTime_in analysis_of sessionId (Some code) language sessions)
  = analysis
  /\ getSessionAnalysis sessionId
       (snd (analyzeCodeInRealTime_in analysis_of sessionId (Some code) language sessions))
     = Some analysis
  /\ session_hints sessionId
       (snd (analyzeCodeInRealTime_in analysis_of sessionId (Some code) language sessions))
     = session_hints sessionId sessions
  /\ (forall other, other <> sessionId ->
        snd (analyzeCodeInRealTime_in analysis_of sessionId (Some code) language sessions)
          !! other
        = sessions !! other)
  /\ (forall blank later,
        String.length (trim blank) = 0%nat ->
        analysis_of later language = None ->
        String.length (trim later) <> 0%nat ->
        analyzeCodeInRealTime_in analysis_of sessionId None language sessions
        = (getEmptyCodeAnalysis, sessions)
        /\ analyzeCodeInRealTime_in analysis_of sessionId (Some blank) language sessions
           = (getEmptyCodeAnalysis, sessions)
        /\ analyzeCodeInRealTime_in analysis_of sessionId (Some later) language sessions
           = (getErrorAnalysis, sessions))
  /\ fst (analyzeCodeInRealTime_in analysis_of sessionId (Some code) language sessions)
     = fst (analyzeCodeInRealTime
              (fun c l => default getErrorAnalysis (analysis_of c l)) (Some code) language).
Proof.
  intros Hcode Hbuilt.
  apply Nat.eqb_neq in Hcode.
  unfold analyzeCodeInRealTime_in, analyzeCodeInRealTime, getSessionAnalysis, session_hints.
  rewrite Hcode, Hbuilt. simpl.
  split; [reflexivity|]. split; [rewrite lookup_insert_eq; reflexivity|].
  split; [rewrite lookup_insert_eq; reflexivity|].
  split; [intros other Hother; apply lookup_insert_ne; congruence|].
  split; [|reflexivity].
  intros blank later Hblank Hfails Hlater.
  apply Nat.eqb_eq in Hblank. apply Nat.eqb_neq in Hlater.
  rewrite Hblank, Hlater, Hfails. repeat split; reflexivity.
Qed.

Lemma analysis_is_kept_for_the_session_witness :
  getSessionAnalysis "candidate-session"
    (snd (analyzeCodeInRealTime_in (fun _ _ => Some sample_analysis)
            "candidate-session" (Some "int f() { return 0; }") "C++" ∅))
  = Some sample_analysis.
Proof.
  destruct (analysis_is_kept_for_the_session (fun _ _ => Some sample_analysis)
              "candidate-session" "int f() { return 0; }" "C++" ∅ sample_analysis)
    as (_ & Hkept & _); [discriminate | reflexivity | exact Hkept].
Defined.

(** X16: the hints of a session accumulate in the order in which they were
    given.  A hint that the AI service produced is returned as
    "ai_generated" and appended to the hints of the session, which are what
    the service is shown as previous hints the next time; the stored
    analysis and the other sessions are untouched.  When the service throws
    the fixed fallback hint is returned and nothing is recorded. *)
Theorem hints_accumulate
    (aiService_generateHint : string -> string -> string -> list string -> option string)
    (sessionId code language problemContext : string)
    (sessions : gmap string SessionEntry) :
  match aiService_generateHint code language problemContext
          (session_hints sessionId sessions) with
  | Some hint =>
      fst (CodeAnalysisService.generateHint aiService_generateHint
             sessionId code language problemContext sessions)
      = {| hint_content := hint; hint_type := "ai_generated" |}
      /\ session_hints sessionId
           (snd (CodeAnalysisService.generateHint aiService_generateHint
                   sessionId code language problemContext sessions))
         = (session_hints sessionId sessions ++ [hint])%list
      /\ getSessionAnalysis sessionId
           (snd (CodeAnalysisService.generateHint aiService_generateHint
                   sessionId code language problemContext sessions))
         = getSessionAnalysis sessionId sessions
      /\ (forall other, other <> sessionId ->
            snd (CodeAnalysisService.generateHint aiService_generateHint
                   sessionId code language problemContext sessions) !! other
            = sessions !! other)
  | None =>
      CodeAnalysisService.generateHint aiService_generateHint
        sessionId code language problemContext sessions
      = (fallback_hint, sessions)
  end.
Proof.
  unfold CodeAnalysisService.generateHint, session_hints, getSessionAnalysis.
  destruct (aiService_generateHint code language problemContext
              (default [] (sessions !! sessionId ≫= entry_hints))) as [hint|];
    [|reflexivity].
  simpl. rewrite !lookup_insert_eq. simpl.
  repeat split. intros other Hother. apply lookup_insert_ne. congruence.
Qed.

(** X17: [clearSession] forgets the session and nothing else.  Afterwards
    the session has no analysis and no hints, so the next hint request for
    it shows the AI service an empty list of previous hints; the other
    sessions are as before, and clearing a session that is not there
    changes nothing. *)
Theorem clearSession_forgets_the_session
    (aiService_generateHint : string -> string -> string -> list string -> option string)
    (sessionId : string) (sessions : gmap string SessionEntry) :
  getSessionAnalysis sessionId (clearSession sessionId sessions) = None
  /\ session_hints sessionId (clearSession sessionId sessions) = []
  /\ (forall other, other <> sessionId ->
        clearSession sessionId sessions !! other = sessions !! other)
  /\ (sessions !! sessionId = None -> clearSession sessionId sessions = sessions)
  /\ (forall code language problemContext,
        fst (CodeAnalysisService.generateHint aiService_generateHint sessionId
               code language problemContext (clearSession sessionId sessions))
        = match aiService_generateHint code language problemContext [] with
          | Some hint => {| hint_content := hint; hint_type := "ai_generated" |}
          | None => fallback_hint
          end).
Proof.
  unfold getSessionAnalysis, session_hints, clearSession.
  rewrite lookup_delete_eq. simpl.
  split; [reflexivity|]. split; [reflexivity|].
  split; [intros other Hother; apply lookup_delete_ne; congruence|].
  split; [apply delete_id|].
  intros code language problemContext.
  unfold CodeAnalysisService.generateHint. rewrite lookup_delete_eq. simpl.
  destruct (aiService_generateHint code language problemContext []); reflexivity.
Qed.

(** ** The interview session over its events *)

Import InterviewReport.

Lemma Math_round_between (q : Q) (a b : Z) :
  (inject_Z a <= q)%Q -> (q <= inject_Z b)%Q -> a <= Math_round q <= b.
Proof.
  intros Ha Hb. unfold Math_round.
  pose proof (Qfloor_le (q + (1 # 2))) as Hlo.
  pose proof (Qlt_floor (q + (1 # 2))) as Hhi.
  set (m := Qfloor (q + (1 # 2))) in *.
  rewrite inject_Z_plus in Hhi. change (inject_Z 1) with 1%Q in Hhi.
  split.
  - assert (H : (inject_Z a < inject_Z (m + 1))%Q).
    { rewrite inject_Z_plus. change (inject_Z 1) with 1%Q. lra. }
    rewrite <- Zlt_Qlt in H. lia.
  - assert (H : (inject_Z m < inject_Z (b + 1))%Q).
    { rewrite inject_Z_plus. change (inject_Z 1) with 1%Q. lra. }
    rewrite <- Zlt_Qlt in H. lia.
Qed.

Lemma Math_round_mono (p q : Q) : (p <= q)%Q -> Math_round p <= Math_round q.
Proof.
  intros H. unfold Math_round. apply Qfloor_resp_le. lra.
Qed.

(** A quotient of integers lies between two integers when the numerator
    lies between their multiples of the denominator. *)
Lemma quotient_between (n d lo hi : Z) :
  0 < d -> lo * d <= n <= hi * d ->
  (inject_Z lo <= inject_Z n / inject_Z d)%Q /\ (inject_Z n / inject_Z d <= inject_Z hi)%Q.
Proof.
  intros Hd [Hlo Hhi].
  assert (Hd' : (0 < inject_Z d)%Q) by (rewrite Zlt_Qlt in Hd; exact Hd).
  split.
  - apply Qle_shift_div_l; [exact Hd'|].
    rewrite <- inject_Z_mult, <- Zle_Qle. exact Hlo.
  - apply Qle_shift_div_r; [exact Hd'|].
    rewrite <- inject_Z_mult, <- Zle_Qle. exact Hhi.
Qed.

(** The binary64 quotient of two integers lies between two integers that
    are binary64 values themselves when the exact quotient does. *)
Lemma div_between (n d lo hi : Z) :
  0 < d -> lo * d <= n <= hi * d ->
  (Double.nearest (inject_Z lo) == inject_Z lo)%Q ->
  (Double.nearest (inject_Z hi) == inject_Z hi)%Q ->
  (inject_Z lo <= Double.div (inject_Z n) (inject_Z d) <= inject_Z hi)%Q.
Proof.
  intros Hd Hn Hlo Hhi. unfold Double.div.
  apply nearest_between; [exact Hlo | exact Hhi|].
  apply quotient_between; assumption.
Qed.

(** The percentage of [p] out of [t] as the handlers compute it lies
    between 0 and 100, and is exactly 100 for [p = t]. *)
Lemma percentage_between (p t lo : Z) :
  0 < t -> lo * t <= p <= t -> 0 <= lo <= 1 ->
  (inject_Z (100 * lo)
   <= Double.mul (Double.div (inject_Z p) (inject_Z t)) 100 <= 100)%Q.
Proof.
  intros Ht Hp Hlo.
  assert (Hexact : (Double.nearest (inject_Z lo) == inject_Z lo)%Q
                   /\ (Double.nearest (inject_Z (100 * lo)) == inject_Z (100 * lo))%Q).
  { assert (Hcases : lo = 0 \/ lo = 1) by lia.
    destruct Hcases as [-> | ->]; split;
      first [exact nearest_0 | exact nearest_1 | exact nearest_100]. }
  destruct Hexact as [Hex Hex100].
  destruct (div_between p t lo 1 Ht ltac:(lia) Hex nearest_1) as [Hq1 Hq2].
  unfold Double.mul.
  apply nearest_between; [exact Hex100 | exact nearest_100|].
  rewrite inject_Z_mult. change (inject_Z 100) with 100%Q.
  change (inject_Z 1) with 1%Q in Hq2. lra.
Qed.

Lemma test_score_between (p t lo : Z) :
  0 < t -> lo * t <= p <= t -> 0 <= lo <= 1 ->
  100 * lo <= test_score p t <= 100.
Proof.
  intros Ht Hp Hlo. unfold test_score.
  apply Z.ltb_lt in Ht as Ht'. rewrite Ht'.
  destruct (percentage_between p t lo Ht Hp Hlo) as [H1 H2].
  apply Math_round_between; [exact H1 | exact H2].
Qed.

Lemma test_score_range (p t : Z) : 0 <= p <= t -> 0 <= test_score p t <= 100.
Proof.
  intros Hp. destruct (Z.ltb_spec 0 t) as [Ht|Ht].
  - apply (test_score_between p t 0 Ht); lia.
  - unfold test_score. apply Z.ltb_ge in Ht. rewrite Ht. lia.
Qed.

Lemma passed_count_range (testResults : list ExecutionResult) :
  0 <= Z.of_nat (length (filter (fun r => passed r = true) testResults))
  <= Z.of_nat (length testResults).
Proof.
  pose proof (length_filter (fun r => passed r = true) testResults). lia.
Qed.

Lemma run_score_range (testResults : list ExecutionResult) :
  0 <= run_score testResults <= 100.
Proof. apply test_score_range, passed_count_range. Qed.

Lemma sum_between (lo hi : Z) (l : list Z) :
  Forall (fun x => lo <= x <= hi) l ->
  forall a,
  a + lo * Z.of_nat (length l) <= fold_left Z.add l a <= a + hi * Z.of_nat (length l).
Proof.
  induction 1 as [|x l Hx _ IH]; intros a; simpl fold_left; [simpl; lia|].
  specialize (IH (a + x)). rewrite length_cons. lia.
Qed.

Lemma rounded_mean_between (lo hi : Z) (l : list Z) :
  (Double.nearest (inject_Z lo) == inject_Z lo)%Q ->
  (Double.nearest (inject_Z hi) == inject_Z hi)%Q ->
  l <> [] -> Forall (fun x => lo <= x <= hi) l -> lo <= rounded_mean l <= hi.
Proof.
  intros Hexlo Hexhi Hne Hall. unfold rounded_mean.
  destruct l as [|x l]; [congruence|].
  change (length (x :: l) =? 0)%nat with false. cbv iota.
  pose proof (sum_between lo hi (x :: l) Hall 0) as Hsum.
  destruct (div_between (fold_left Z.add (x :: l) 0)
              (Z.of_nat (length (x :: l))) lo hi) as [Hlo Hhi];
    [rewrite length_cons; lia | lia | exact Hexlo | exact Hexhi |].
  apply Math_round_between; assumption.
Qed.

Lemma rounded_mean_range (l : list Z) :
  Forall (fun x => 0 <= x <= 100) l -> 0 <= rounded_mean l <= 100.
Proof.
  intros Hall. destruct l as [|x l]; [unfold rounded_mean; simpl; lia|].
  apply rounded_mean_between;
    [exact nearest_0 | exact nearest_100 | discriminate | exact Hall].
Qed.

(** The submissions of a session are the records of its test runs. *)
Lemma codeSubmissions_after (events : list SessionEvent) :
  forall sess : InterviewSession,
  codeSubmissions (fold_left session_step events sess)
  = (codeSubmissions sess ++ map submission_of (tests_run events))%list.
Proof.
  induction events as [|e events IH]; intros sess.
  - simpl. rewrite app_nil_r. reflexivity.
  - simpl fold_left. rewrite IH.
    destruct e as [testResults|count analysis]; simpl.
    + rewrite <- app_assoc. reflexivity.
    + reflexivity.
Qed.

Lemma overallScore_after (events : list SessionEvent) :
  overallScore (session_after events) = rounded_mean (map run_score (tests_run events)).
Proof.
  unfold session_after.
  destruct (session_scores events new_session eq_refl) as [Hsubs Hscore].
  rewrite Hscore, Hsubs. reflexivity.
Qed.

Lemma totals_of_runs (runs : list (list ExecutionResult)) :
  forall p t : Z,
  0 <= p <= t ->
  0 <= fold_left (fun sum s => sum + passedTests s) (map submission_of runs) p
  <= fold_left (fun sum s => sum + totalTests s) (map submission_of runs) t.
Proof.
  induction runs as [|r runs IH]; intros p t Hpt; simpl; [exact Hpt|].
  apply IH. pose proof (passed_count_range r). lia.
Qed.

(** X18: the scores of a session stay percentages.  After any sequence of
    test runs and analyses, the overall score of the session lies between
    0 and 100, and so does the test success rate of its performance
    summary; every test run on record has a score between 0 and 100. *)
Theorem session_scores_are_percentages (events : list SessionEvent) :
  0 <= overallScore (session_after events) <= 100
  /\ 0 <= testSuccessRate (session_after events) <= 100
  /\ Forall (fun s => 0 <= sub_overallScore s <= 100)
       (codeSubmissions (session_after events)).
Proof.
  split; [|split].
  - rewrite overallScore_after. apply rounded_mean_range.
    apply Forall_map, Forall_forall. intros r _. apply run_score_range.
  - unfold testSuccessRate, session_after. rewrite codeSubmissions_after. simpl.
    pose proof (totals_of_runs (tests_run events) 0 0 ltac:(lia)) as Htotals.
    cbv beta in Htotals.
    set (total := fold_left (fun sum s => sum + totalTests s) _ 0) in *.
    set (passedN := fold_left (fun sum s => sum + passedTests s) _ 0) in *.
    apply (test_score_range passedN total). exact Htotals.
  - unfold session_after. rewrite codeSubmissions_after. simpl.
    apply Forall_map, Forall_forall. intros r _. simpl.
    apply test_score_range, passed_count_range.
Qed.

(** X19: the submissions on record are the test runs, in order, with
    consistent counts.  Each test run adds exactly one submission behind
    the earlier ones and an analysis adds none; a submission holds the
    results of its run, the number of tests is the number of results,
    passed and failed tests add up to it, and its score is
    [Math.round((passed / total) * 100)] as JavaScript computes it: 57
    for a run of 40 tests of which 23 passed, not the 58 of the exact
    percentage 57.5. *)
Theorem submissions_are_the_test_runs (events : list SessionEvent) :
  codeSubmissions (session_after events) = map submission_of (tests_run events)
  /\ map sub_testResults (codeSubmissions (session_after events)) = tests_run events
  /\ Forall (fun s =>
               totalTests s = Z.of_nat (length (sub_testResults s))
               /\ 0 <= passedTests s <= totalTests s
               /\ passedTests s + failedTests s = totalTests s
               /\ sub_overallScore s = run_score (sub_testResults s)
               /\ sub_overallScore s = test_score (passedTests s) (totalTests s))
       (codeSubmissions (session_after events))
  /\ map sub_overallScore
       (codeSubmissions (session_after [TestsRun twenty_three_of_forty_passed]))
     = [57].
Proof.
  assert (Hsubs : codeSubmissions (session_after events)
                  = map submission_of (tests_run events)).
  { unfold session_after. rewrite codeSubmissions_after. reflexivity. }
  rewrite Hsubs. split; [reflexivity|]. split; [|split].
  - rewrite <- list_fmap_compose. apply list_fmap_id.
  - apply Forall_map, Forall_forall. intros r _. simpl.
    pose proof (passed_count_range r).
    repeat split; try lia; reflexivity.
  - vm_compute. reflexivity.
Qed.

Lemma session_after_snoc (events : list SessionEvent) (e : SessionEvent) :
  session_after (events ++ [e]) = session_step (session_after events) e.
Proof. unfold session_after. rewrite fold_left_app. reflexivity. Qed.

Lemma tests_run_snoc (events : list SessionEvent) (e : SessionEvent) :
  tests_run (events ++ [e])
  = (tests_run events ++ match e with
                         | TestsRun testResults => [testResults]
                         | CodeAnalysed _ _ => []
                         end)%list.
Proof. unfold tests_run. rewrite omap_app. destruct e; reflexivity. Qed.

(** X20: every test run is booked on the first problem.  After any
    sequence of events the session still has its two problems; the first
    one, 3Sum, carries the score of the latest run as the handler computes
    it, [Math.round((passed / total) * 100)] in JavaScript's arithmetic (0
    before any run), as many attempts as there were runs, and is completed
    exactly when that latest score is at least 80, so a later weaker run
    takes a completion back; the second problem is never touched,
    whichever problem the candidate was working on. *)
Theorem test_runs_are_booked_on_the_first_problem (events : list SessionEvent) :
  problems (session_after events)
  = [ {| problemId := "3sum";
         pr_score := default 0 (last (map run_score (tests_run events)));
         attempts := Z.of_nat (length (tests_run events));
         completed := match last (map run_score (tests_run events)) with
                      | Some latest => 80 <=? latest
                      | None => false
                      end |};
      {| problemId := "product-except-self";
         pr_score := 0; attempts := 0; completed := false |} ]
  /\ problems (session_after [TestsRun twenty_three_of_forty_passed])
     = [ {| problemId := "3sum"; pr_score := 57; attempts := 1; completed := false |};
         {| problemId := "product-except-self";
            pr_score := 0; attempts := 0; completed := false |} ].
Proof.
  split; [|vm_compute; reflexivity].
  induction events as [|e events IH] using rev_ind; [reflexivity|].
  rewrite session_after_snoc, tests_run_snoc.
  destruct e as [testResults|count analysis]; simpl.
  - rewrite IH, map_app.
    change (map run_score [testResults]) with [run_score testResults].
    rewrite last_snoc, length_app. simpl.
    do 2 f_equal. lia.
  - rewrite app_nil_r. exact IH.
Qed.

Lemma analyses_snoc (events : list SessionEvent) (e : SessionEvent) :
  analyses (events ++ [e])
  = (analyses events ++ match e with
                        | CodeAnalysed _ analysis => [analysis]
                        | TestsRun _ => []
                        end)%list.
Proof. unfold analyses. rewrite omap_app. destruct e; reflexivity. Qed.

(** The binary64 mean of a number between 0 and 100 and an index between
    0 and 100 lies between 0 and 100. *)
Lemma halving_between (a : Q) (v : Z) :
  (0 <= a <= 100)%Q -> 0 <= v <= 100 ->
  (0 <= Double.div (Double.add a (inject_Z v)) 2 <= 100)%Q.
Proof.
  intros Ha Hv.
  assert (Hv' : (0 <= inject_Z v <= 100)%Q).
  { change 0%Q with (inject_Z 0). change 100%Q with (inject_Z 100).
    rewrite <- !Zle_Qle. exact Hv. }
  assert (Hsum : (0 <= Double.add a (inject_Z v) <= 200)%Q).
  { unfold Double.add. apply nearest_between; [exact nearest_0 | exact nearest_200 | lra]. }
  unfold Double.div. apply nearest_between; [exact nearest_0 | exact nearest_100|].
  split; [apply Qle_shift_div_l | apply Qle_shift_div_r]; lra.
Qed.

(** X21: the stored code-quality "average" is a halving recurrence, not a
    mean.  Each analysis replaces it by half the sum of its old value and
    the maintainability index of the analysis (an index of 0 counting as
    100), both operations being binary64 operations, starting from 0: a
    first analysis with index 100 leaves 50.  With indices between 0 and
    100 it stays between 0 and 100, and it can reach 100: after 53
    analyses with index 100 it is still below 100, the next one makes it
    exactly 100.  It is always the same number as the stored average
    maintainability; test runs do not change it. *)
Theorem code_quality_average_halves (events : list SessionEvent) :
  Forall maintainability_in_range (analyses events) ->
  (0 <= averageCodeQuality (performanceMetrics (session_after events)) <= 100)%Q
  /\ averageCodeQuality (performanceMetrics (session_after events))
     = averageMaintainability (performanceMetrics (session_after events))
  /\ (forall count analysis,
        averageCodeQuality
          (performanceMetrics (session_after (events ++ [CodeAnalysed count analysis])))
        = Double.div
            (Double.add (averageCodeQuality (performanceMetrics (session_after events)))
                        (inject_Z (or_100 (maintainabilityIndex (codeMetrics analysis)))))
            2)
  /\ (forall testResults,
        averageCodeQuality
          (performanceMetrics (session_after (events ++ [TestsRun testResults])))
        = averageCodeQuality (performanceMetrics (session_after events)))
  /\ (averageCodeQuality
        (performanceMetrics (session_after (replicate 53 (CodeAnalysed 1 sample_analysis))))
      < 100)%Q
  /\ (averageCodeQuality
        (performanceMetrics (session_after (replicate 54 (CodeAnalysed 1 sample_analysis))))
      == 100)%Q.
Proof.
  intros Hrange.
  split; [|split; [|split; [|split; [|split]]]].
  3:{ intros count analysis. rewrite session_after_snoc. reflexivity. }
  3:{ intros testResults. rewrite session_after_snoc. reflexivity. }
  3:{ vm_compute. reflexivity. }
  3:{ vm_compute. reflexivity. }
  all: induction events as [|e events IH] using rev_ind;
    [simpl; (reflexivity || lra)|].
  all: rewrite analyses_snoc in Hrange; apply Forall_app in Hrange as [Hearlier He].
  all: specialize (IH Hearlier); rewrite session_after_snoc.
  all: destruct e as [testResults|count analysis]; simpl; [exact IH|].
  - rewrite Forall_singleton in He. unfold maintainability_in_range in He.
    apply halving_between; [exact IH|].
    unfold or_100.
    destruct (Z.eqb_spec (maintainabilityIndex (codeMetrics analysis)) 0); lia.
  - rewrite IH. reflexivity.
Qed.

Lemma code_quality_average_halves_witness :
  (averageCodeQuality (performanceMetrics (session_after [CodeAnalysed 1 sample_analysis]))
   <= 100)%Q
  /\ (averageCodeQuality (performanceMetrics (session_after [CodeAnalysed 1 sample_analysis]))
      == 50)%Q.
Proof.
  destruct (code_quality_average_halves [CodeAnalysed 1 sample_analysis])
    as ([_ Hbelow] & _).
  - apply Forall_singleton. unfold maintainability_in_range. simpl. lia.
  - split; [exact Hbelow | vm_compute; reflexivity].
Defined.

Lemma all_passed_filter (testResults : list ExecutionResult) :
  all_passed testResults = true ->
  filter (fun r => passed r = true) testResults = testResults.
Proof.
  unfold all_passed. induction testResults as [|r rest IH]; [reflexivity|].
  simpl. intros H. apply andb_true_iff in H as [Hr Hrest].
  rewrite filter_cons_True by exact Hr. rewrite (IH Hrest). reflexivity.
Qed.

Lemma run_score_all_passed (testResults : list ExecutionResult) :
  testResults <> [] -> all_passed testResults = true -> run_score testResults = 100.
Proof.
  intros Hne Hall. unfold run_score. rewrite (all_passed_filter _ Hall).
  assert (Hlen : 0 < Z.of_nat (length testResults)).
  { destruct testResults; [congruence | rewrite length_cons; lia]. }
  pose proof (test_score_between (Z.of_nat (length testResults))
                (Z.of_nat (length testResults)) 1 Hlen ltac:(lia) ltac:(lia)).
  lia.
Qed.

Lemma totals_of_flawless_runs (runs : list (list ExecutionResult)) :
  Forall (fun r => r <> [] /\ all_passed r = true) runs ->
  forall a : Z,
  fold_left (fun sum s => sum + passedTests s) (map submission_of runs) a
  = fold_left (fun sum s => sum + totalTests s) (map submission_of runs) a
  /\ a + Z.of_nat (length runs)
     <= fold_left (fun sum s => sum + totalTests s) (map submission_of runs) a.
Proof.
  induction 1 as [|r runs [Hne Hall] _ IH]; intros a; simpl; [split; lia|].
  rewrite (all_passed_filter _ Hall).
  destruct (IH (a + Z.of_nat (length r))) as [Heq Hge].
  split; [exact Heq|].
  assert (0 < Z.of_nat (length r)) by (destruct r; [congruence | rewrite length_cons; lia]).
  lia.
Qed.

(** X22: a flawless session is rated at the top.  When the session has at
    least one test run, every run has at least one test and all tests of
    all runs passed, the completion event carries the overall score 100,
    the rating "excellent", and 10 for both technical skills and problem
    solving; the code-quality rating, which comes from the analyses, lies
    between 1 and 10. *)
Theorem flawless_session_is_rated_excellent (events : list SessionEvent) :
  tests_run events <> [] ->
  Forall (fun r => r <> [] /\ all_passed r = true) (tests_run events) ->
  exists codeQuality : Z,
    on_complete_interview_session true (socket_after events)
    = [EmitSessionCompleted 100 "excellent" 10 10 codeQuality]
    /\ 1 <= codeQuality <= 10.
Proof.
  intros Hruns Hall.
  assert (Hoverall : overallScore (session_after events) = 100).
  { rewrite overallScore_after.
    assert (H : 100 <= rounded_mean (map run_score (tests_run events)) <= 100); [|lia].
    apply rounded_mean_between; [exact nearest_100 | exact nearest_100 | |].
    - destruct (tests_run events); [congruence | discriminate].
    - apply Forall_map. eapply Forall_impl; [exact Hall|].
      intros r [Hne Hr]. simpl. rewrite (run_score_all_passed r Hne Hr). lia. }
  assert (Hrate : testSuccessRate (session_after events) = 100).
  { unfold testSuccessRate, session_after. rewrite codeSubmissions_after. simpl.
    destruct (totals_of_flawless_runs (tests_run events) Hall 0) as [Heq Hge].
    rewrite Heq.
    set (total := fold_left (fun sum s => sum + totalTests s) _ 0) in *.
    assert (Hpos : 0 < total).
    { destruct (tests_run events); [congruence | rewrite length_cons in Hge; lia]. }
    pose proof (test_score_between total total 1 Hpos ltac:(lia) ltac:(lia)) as H.
    unfold test_score in H. lia. }
  exists (scale10 (averageCodeQuality (performanceMetrics (session_after events)))).
  split.
  - unfold on_complete_interview_session, socket_after. simpl.
    rewrite Hoverall, Hrate. reflexivity.
  - unfold scale10. lia.
Qed.

Lemma flawless_session_is_rated_excellent_witness :
  exists codeQuality : Z,
    on_complete_interview_session true
      (socket_after
         [TestsRun [completed_result three_sum_case_2 1 missing_semicolon (JStr "[]")]])
    = [EmitSessionCompleted 100 "excellent" 10 10 codeQuality]
    /\ 1 <= codeQuality <= 10.
Proof.
  apply (flawless_session_is_rated_excellent
           [TestsRun [completed_result three_sum_case_2 1 missing_semicolon (JStr "[]")]]).
  - discriminate.
  - apply Forall_singleton. split; [discriminate | reflexivity].
Defined.

(** ** The final score of an interview *)

Lemma clamp_0_100_id (x : Z) : 0 <= x <= 100 -> clamp_0_100 x = x.
Proof. unfold clamp_0_100. lia. Qed.

Lemma clamp_0_100_mono (x y : Z) : x <= y -> clamp_0_100 x <= clamp_0_100 y.
Proof. unfold clamp_0_100. lia. Qed.

(** X23: the final score of an interview with a submission lies between
    20 and 95.  With an analysis score between 0 and 100 on the last
    submission, the code-quality part is that score, problem solving is the
    score less 10 per hint (not below 0), communication is always 80 and
    time management lies between 0 and 100 (the duration in minutes not
    being negative); their rounded mean can therefore neither fall below 20
    nor reach 100, and asking for more hints never raises it.  Without any
    submission every part is 0. *)
Theorem final_score_lies_between_20_and_95
    (codeSubmissions : list (option Z)) (hints : nat) (duration : option Z)
    (lastSubmission : option Z) :
  last codeSubmissions = Some lastSubmission ->
  0 <= default 0 lastSubmission <= 100 ->
  0 <= default 0 duration ->
  20 <= fs_overall (calculateFinalScore codeSubmissions hints duration) <= 95
  /\ fs_codeQuality (calculateFinalScore codeSubmissions hints duration)
     = default 0 lastSubmission
  /\ fs_problemSolving (calculateFinalScore codeSubmissions hints duration)
     = Z.max 0 (default 0 lastSubmission - 10 * Z.of_nat hints)
  /\ fs_communication (calculateFinalScore codeSubmissions hints duration) = 80
  /\ 0 <= fs_timeManagement (calculateFinalScore codeSubmissions hints duration) <= 100
  /\ (forall more : nat,
        fs_overall (calculateFinalScore codeSubmissions (hints + more) duration)
        <= fs_overall (calculateFinalScore codeSubmissions hints duration))
  /\ calculateFinalScore [] hints duration
     = {| fs_overall := 0; fs_codeQuality := 0; fs_problemSolving := 0;
          fs_communication := 0; fs_timeManagement := 0;
          fs_hintsUsed := Z.of_nat hints |}.
Proof.
  intros Hlast Hscore Hduration. unfold calculateFinalScore. rewrite Hlast. simpl.
  set (codeQuality := default 0 lastSubmission) in *.
  set (timeManagement := Z.max 0 (100 - default 0 duration * 2)).
  assert (Hround : forall total lo hi,
             4 * lo <= total <= 4 * hi ->
             lo <= Math_round (inject_Z total / 4) <= hi).
  { intros total lo hi Htotal. change 4%Q with (inject_Z 4).
    destruct (quotient_between total 4 lo hi ltac:(lia) ltac:(lia)) as [Hlo Hhi].
    apply Math_round_between; assumption. }
  split; [|split; [|split; [|split; [|split; [|split]]]]].
  - pose proof (Hround (codeQuality + Z.max 0 (codeQuality - Z.of_nat hints * 10)
                        + 80 + timeManagement) 20 95) as H.
    unfold clamp_0_100. unfold timeManagement in *. lia.
  - apply clamp_0_100_id. exact Hscore.
  - rewrite clamp_0_100_id by lia. lia.
  - reflexivity.
  - unfold clamp_0_100. lia.
  - intros more. apply clamp_0_100_mono, Math_round_mono.
    apply Qmult_le_compat_r; [|discriminate].
    rewrite <- Zle_Qle. lia.
  - reflexivity.
Qed.

Lemma final_score_lies_between_20_and_95_witness :
  fs_overall (calculateFinalScore [Some 40; Some 70] 2 (Some 30)) = 60
  /\ 20 <= fs_overall (calculateFinalScore [Some 40; Some 70] 2 (Some 30)) <= 95.
Proof.
  destruct (final_score_lies_between_20_and_95 [Some 40; Some 70] 2 (Some 30) (Some 70))
    as [Hrange _]; [reflexivity | simpl; lia | simpl; lia |].
  split; [reflexivity | exact Hrange].
Defined.

(** ** The hints breakdown of the performance summary *)

Lemma hints_of_type_cons (t h : string) (hints : list string) :
  hints_of_type t (h :: hints)
  = (if decide (h = t) then 1 else 0) + hints_of_type t hints.
Proof.
  unfold hints_of_type. rewrite filter_cons.
  destruct (decide (h = t)); [rewrite length_cons; lia | lia].
Qed.

Lemma hints_of_type_nonneg (t : string) (hints : list string) : 0 <= hints_of_type t hints.
Proof. unfold hints_of_type. lia. Qed.

Lemma hintsByType_from (hints : list string) :
  forall (acc : gmap string Z) (t : string),
  fold_left (fun acc hintType => <[hintType := default 0 (acc !! hintType) + 1]> acc)
    hints acc !! t
  = if decide (hints_of_type t hints = 0) then acc !! t
    else Some (default 0 (acc !! t) + hints_of_type t hints).
Proof.
  induction hints as [|h hints IH]; intros acc t; [reflexivity|].
  simpl fold_left. rewrite IH, hints_of_type_cons.
  pose proof (hints_of_type_nonneg t hints) as Hpos.
  destruct (decide (h = t)) as [->|Hne].
  - rewrite lookup_insert_eq. simpl.
    destruct (decide (hints_of_type t hints = 0)) as [->|Hcount];
      rewrite decide_False by lia; f_equal; lia.
  - rewrite lookup_insert_ne by exact Hne.
    destruct (decide (hints_of_type t hints = 0)) as [Hcount|Hcount].
    + rewrite decide_True by lia. reflexivity.
    + rewrite decide_False by lia. f_equal.
Qed.

(** X24: the hints breakdown counts the hints by type.  For hints of the
    three types the schema admits, the breakdown built by
    [generatePerformanceSummary] holds under each type the number of hints
    of that type, a type without hints being absent rather than 0; no
    other key is present, and the three numbers add up to the number of
    hints. *)
Theorem hints_breakdown_counts_by_type (hints : list string) :
  Forall (fun t => t ∈ hintTypes) hints ->
  (forall t,
     hintsByType hints !! t
     = if decide (hints_of_type t hints = 0) then None
       else Some (hints_of_type t hints))
  /\ (forall t, t ∉ hintTypes -> hintsByType hints !! t = None)
  /\ hints_of_type "nudge" hints + hints_of_type "guide" hints
     + hints_of_type "direction" hints
     = Z.of_nat (length hints).
Proof.
  intros Htypes.
  assert (Hlookup : forall t,
             hintsByType hints !! t
             = if decide (hints_of_type t hints = 0) then None
               else Some (hints_of_type t hints)).
  { intros t. unfold hintsByType. rewrite hintsByType_from, lookup_empty. simpl.
    destruct (decide (hints_of_type t hints = 0)); [reflexivity | f_equal]. }
  split; [exact Hlookup|]. split.
  - intros t Ht. rewrite Hlookup.
    rewrite decide_True; [reflexivity|].
    unfold hints_of_type.
    assert (Hnone : filter (fun x => x = t) hints = []); [|rewrite Hnone; reflexivity].
    clear Hlookup. induction Htypes as [|h hints Hh _ IH]; [reflexivity|].
    rewrite filter_cons_False; [exact IH|]. intros ->. contradiction.
  - clear Hlookup. induction Htypes as [|h hints Hh _ IH]; [reflexivity|].
    rewrite !hints_of_type_cons, length_cons.
    unfold hintTypes in Hh. rewrite !elem_of_cons in Hh.
    destruct Hh as [-> | [-> | [-> | Hh]]]; [| | |apply elem_of_nil in Hh; contradiction];
      repeat case_decide; try discriminate; try congruence; lia.
Qed.

Lemma hints_breakdown_counts_by_type_witness :
  hintsByType ["nudge"; "guide"; "nudge"] !! "nudge" = Some 2
  /\ hintsByType ["nudge"; "guide"; "nudge"] !! "direction" = None.
Proof.
  destruct (hints_breakdown_counts_by_type ["nudge"; "guide"; "nudge"]) as [Hlookup _].
  - repeat constructor; unfold hintTypes; set_solver.
  - split; rewrite Hlookup; reflexivity.
Defined.

(** ** The sections of the test results panel *)

Import TestResultsPanel.

(** X25: toggling a section twice restores the set of expanded sections,
    toggles of different sections commute, and a toggle changes the state
    of its own section only: the panel state depends on how often each
    header was clicked (odd or even), not on the order of the clicks. *)
Theorem toggleSection_is_an_involution (section other : string) (expanded : gset string) :
  toggleSection section (toggleSection section expanded) = expanded
  /\ toggleSection section (toggleSection other expanded)
     = toggleSection other (toggleSection section expanded)
  /\ (section ∈ toggleSection section expanded <-> section ∉ expanded)
  /\ (other <> section ->
      (other ∈ toggleSection section expanded <-> other ∈ expanded)).
Proof.
  unfold toggleSection.
  split; [|split; [|split]].
  - destruct (decide (section ∈ expanded)).
    + rewrite decide_False by set_solver. apply set_eq. intros x.
      destruct (decide (x = section)); set_solver.
    + rewrite decide_True by set_solver. set_solver.
  - destruct (decide (section = other)) as [->|Hne]; [reflexivity|].
    repeat case_decide; set_solver.
  - destruct (decide (section ∈ expanded)); set_solver.
  - intros Hne. destruct (decide (section ∈ expanded)); set_solver.
Qed.

(** ** The countdown shown during the cooldown *)

(** The recorded dispatch time is never ahead of the clock. *)
Lemma last_response_not_ahead (s : State) :
  reachable s -> forall t, lastAIResponseTime s = Some t -> t <= clock s.
Proof.
  induction 1 as [|s e now s' Hreach IH Hstep]; [discriminate|].
  pose proof (reachable_invariant s Hreach) as Hinv.
  destruct Hstep; intros t0 Ht; simpl in Ht |- *.
  - specialize (IH t0 Ht). lia.
  - specialize (IH t0 Ht). lia.
  - rewrite (checkForHint_effect now s Hinv) in H0. injection H0 as <-.
    destruct (firing_rule now s); simpl in Ht; specialize (IH t0 Ht); lia.
  - unfold moveToNextProblem in Ht.
    destruct (has_next_problem s); simpl in Ht; specialize (IH t0 Ht); lia.
  - specialize (IH t0 Ht). lia.
  - unfold request_ai_response in Ht.
    destruct (canSendAIResponse now s); simpl in Ht.
    + injection Ht as <-. lia.
    + specialize (IH t0 Ht). lia.
  - specialize (IH t0 Ht). lia.
  - unfold countdown_tick in Ht.
    destruct (aiResponseCooldown s), (lastAIResponseTime s) as [last|] eqn:Hlast;
      try congruence; try (specialize (IH t0 Ht); lia).
    specialize (IH last eq_refl).
    destruct (twoMinutes <=? now - last); simpl in Ht; injection Ht as <-; lia.
Qed.

(** X26: the countdown never understates the wait.  In a state the
    component can reach, with the cooldown flag up after a dispatch at time
    [t], a tick of the countdown at a later time [now] before the two
    minutes are over keeps the flag up and shows the remaining time rounded
    up to whole seconds: a number between 1 and 120 that is at least the
    remaining time and exceeds it by less than a second.  A tick at or
    after the two minutes lowers the flag and shows 0. *)
Theorem countdown_shows_the_remaining_seconds (s : State) (t now : Z) :
  reachable s ->
  lastAIResponseTime s = Some t ->
  aiResponseCooldown s = true ->
  clock s <= now ->
  if twoMinutes <=? now - t
  then aiResponseCooldown (countdown_tick now s) = false
       /\ cooldownTimeLeft (countdown_tick now s) = 0
  else aiResponseCooldown (countdown_tick now s) = true
       /\ 1 <= cooldownTimeLeft (countdown_tick now s) <= 120
       /\ 1000 * (cooldownTimeLeft (countdown_tick now s) - 1)
          < twoMinutes - (now - t)
          <= 1000 * cooldownTimeLeft (countdown_tick now s).
Proof.
  intros Hreach Hlast Hflag Hclock.
  pose proof (last_response_not_ahead s Hreach t Hlast) as Hpast.
  unfold countdown_tick. rewrite Hflag, Hlast.
  destruct (twoMinutes <=? now - t) eqn:Hover; simpl; [split; reflexivity|].
  apply Z.leb_gt in Hover. split; [reflexivity|].
  unfold ceil_div, twoMinutes in *.
  rewrite Z.max_r by lia.
  pose proof (Z.div_mod (- (2 * 60 * 1000 - (now - t))) 1000 ltac:(lia)) as Hdiv.
  pose proof (Z.mod_pos_bound (- (2 * 60 * 1000 - (now - t))) 1000 ltac:(lia)) as Hmod.
  lia.
Qed.

Lemma countdown_shows_the_remaining_seconds_witness :
  cooldownTimeLeft (countdown_tick 30500 dispatched_at_0) = 90
  /\ aiResponseCooldown (countdown_tick 30500 dispatched_at_0) = true.
Proof.
  pose proof (countdown_shows_the_remaining_seconds dispatched_at_0 0 30500
                dispatched_at_0_reachable eq_refl eq_refl ltac:(simpl; lia)) as H.
  change (twoMinutes <=? 30500 - 0) with false in H. cbv iota in H.
  destruct H as (Hflag & _ & _). split; [reflexivity | exact Hflag].
Defined.
